(** * Approval-gated cross-posting: a model of [bot.py]

    The development embeds the [CrossPostBot] class of [src/bot.py]:
    the three registries ([tracked_messages], [posted_messages],
    [reaction_messages]), the two update handlers ([handle_message],
    [handle_callback]), the dispatcher ([cross_post], [notify_group]) and
    the body of the sweeper loop ([cleanup_expired]).

    Python objects are modelled as follows.
    - [str] is a list of Unicode code points, so that slicing and [len]
      count what Python counts.
    - Each [message_data] dictionary is an object in a store [objects];
      [tracked_messages] maps a message id to a reference.  A handler
      that is suspended at an [await] keeps its reference even when the
      sweeper removes the entry from [tracked_messages] meanwhile.
    - Handlers are written in a state-and-exception monad over the bot,
      the outside world and a trace of the calls made.  Every call to
      Telegram or to a platform client is answered by the environment
      [Env], which may return or raise.
    - The application processes one update at a time; the sweeper task
      shares the event loop and runs while a handler is suspended at an
      [await].  The primitive [await] therefore lets the environment run
      any number of sweeper iterations.  The calls to the platform
      clients are not awaited, so nothing runs during them.
    - A handler that raises is abandoned and the application goes on with
      the next update.

    The code that does not run in the event loop is embedded apart from
    the handlers, in a plain state-and-exception monad: the constructor
    of the bot ([__init__], [_initialize_platforms]), of which the
    handlers see only the result (a client or [None] for each platform),
    and the classes [TwitterOAuth2] and [TwitterAPI], which the bot does
    not use.

    Left out: logging; the handler [start] of the command and [run_bot],
    which only wire the bot to the framework; and what is no
    [Exception], such as the cancellation of a task. *)

From Stdlib Require Import ZArith NArith Ascii String DecimalString.
From stdpp Require Import base tactics option list strings gmap sets.

Local Open Scope Z_scope.

(** ** Python strings *)

Definition str := list N.

Definition lit (s : string) : str :=
  map N_of_ascii (list_ascii_of_string s).

Definition str_of_int (z : Z) : str :=
  lit (NilZero.string_of_int (Z.to_int z)).

(** [sep.join(xs)] *)
Fixpoint join (sep : str) (xs : list str) : str :=
  match xs with
  | [] => []
  | [x] => x
  | x :: rest => x ++ sep ++ join sep rest
  end.


Fixpoint startswith (pat s : str) : bool :=
  match pat, s with
  | [], _ => true
  | _ :: _, [] => false
  | p :: pat', c :: s' => (p =? c)%N && startswith pat' s'
  end.

(** [pat in s], for a non-empty [pat] *)
Fixpoint contains (pat s : str) : bool :=
  startswith pat s ||
  match s with
  | [] => false
  | _ :: s' => contains pat s'
  end.

(** [s.replace(pat, new)] for a non-empty [pat]: occurrences are replaced
    from left to right and do not overlap.  [skip] counts the characters
    of an occurrence that are still to be dropped. *)
Fixpoint replace_from (pat new : str) (skip : nat) (s : str) : str :=
  match s with
  | [] => []
  | c :: s' =>
      match skip with
      | S k => replace_from pat new k s'
      | O =>
          if startswith pat s
          then new ++ replace_from pat new (pred (length pat)) s'
          else c :: replace_from pat new O s'
      end
  end.

Definition replace (pat new s : str) : str := replace_from pat new O s.

(** Code points for which [str.isspace] holds. *)
Definition isspace (c : N) : bool :=
  ((9 <=? c) && (c <=? 13) || (28 <=? c) && (c <=? 32) ||
   (c =? 133) || (c =? 160) || (c =? 5760) ||
   (8192 <=? c) && (c <=? 8202) || (c =? 8232) || (c =? 8233) ||
   (c =? 8239) || (c =? 8287) || (c =? 12288))%N.

Fixpoint lstrip (s : str) : str :=
  match s with
  | c :: s' => if isspace c then lstrip s' else s
  | [] => []
  end.

Definition strip (s : str) : str := rev (lstrip (rev (lstrip s))).

(** ** Configuration: the module-level constants *)

Record Platforms := {
  twitter_enabled : bool;
  bluesky_enabled : bool;
  farcaster_enabled : bool
}.

Record Config := {
  PLATFORMS_CONFIG : Platforms;
  REQUIRED_REACTIONS : Z;
  EXPIRATION_HOURS : Z
}.

(** The values written in the source. *)
Definition source_config : Config :=
  {| PLATFORMS_CONFIG :=
       {| twitter_enabled := false; bluesky_enabled := false;
          farcaster_enabled := false |};
     REQUIRED_REACTIONS := 1;
     EXPIRATION_HOURS := 2 |}.

(** Points in time and durations are counted in microseconds, the
    resolution of [datetime]. *)
Definition timedelta_hours (h : Z) : Z := h * 3600000000.

(** ** Data *)

Inductive media_type := photo | video | animation.

Record Media := { type : media_type; file_id : str }.

(** The handle returned by [bot.get_file]; opaque to the bot. *)
Definition File := Z.

Definition loc := positive.

Record message_data := {
  message_id : Z;
  chat_id : Z;
  text : str;
  media : option Media;
  reactions : gset Z;
  timestamp : Z;
  posted : bool
}.

#[global] Instance message_data_inhabited : Inhabited message_data :=
  populate {| message_id := 0; chat_id := 0; text := []; media := None;
              reactions := ∅; timestamp := 0; posted := false |}.

Record CrossPostBot := {
  objects : gmap loc message_data;
  tracked_messages : gmap Z loc;
  posted_messages : gset Z;
  reaction_messages : gmap Z Z;
  twitter : bool;
  bluesky : bool;
  client : bool
}.

(** [__init__]: empty registries; the three flags say which platform
    clients [_initialize_platforms] left different from [None]. *)
Definition init (tw bs fc : bool) : CrossPostBot :=
  {| objects := ∅; tracked_messages := ∅; posted_messages := ∅;
     reaction_messages := ∅; twitter := tw; bluesky := bs; client := fc |}.

(** What the handlers receive from Telegram. *)
Module tg.
Record Message := {
  message_id : Z;
  chat_id : Z;
  text : option str;
  photo : list str;
  video : option str;
  animation : option str
}.
Record Update := { message : option Message }.
Record CallbackQuery := {
  query_message_id : Z;
  from_user_id : Z
}.
End tg.

(** ** Exceptions, calls and the trace *)

(** A Python exception: the [KeyError] of a failed dictionary lookup, or
    a fault raised by a call to the outside, with its message [str(e)]. *)
Inductive exn := KeyError (key : Z) | Fault (msg : str).

Definition str_exn (e : exn) : str :=
  match e with
  | KeyError k => str_of_int k
  | Fault msg => msg
  end.

Inductive outcome (A : Type) := Ok (a : A) | Raise (e : exn).
Arguments Ok {A} a.
Arguments Raise {A} e.

(** The answer of the outside to one call. *)
Inductive reply (A : Type) := Returns (a : A) | Fails (msg : str).
Arguments Returns {A} a.
Arguments Fails {A} msg.

Inductive call :=
| QueryAnswer
| EditText (message_id : Z) (text : str)
| ReplyText (message_id : Z) (text : str)
| SendMessage (chat_id : Z) (text : str)
| GetFile (file_id : str)
| PostCast (text : str) (media : option File)
| MediaUpload (file : File)
| CreateTweet (text : str) (media_ids : option (list Z))
| BlueskyPost (text : str)
| BlueskyPostWithMedia (text : str) (file : File).

(** The trace records every call with the message of the fault it raised,
    if any, and every entry into [cross_post]. *)
Inductive event :=
| Called (c : call) (err : option str)
| CrossPost (message_id : Z).

(** The outside world: the clock, Telegram, the platform clients, and the
    scheduler, which says how many iterations of the sweeper loop run
    while a handler is suspended. *)
Record Env (W : Type) := {
  now : W → Z * W;
  yield : W → nat * W;
  answer : W → reply unit * W;
  edit_text : Z → str → W → reply unit * W;
  reply_text : Z → str → W → reply Z * W;
  send_message : Z → str → W → reply unit * W;
  get_file : str → W → reply File * W;
  post_cast : str → option File → W → reply unit * W;
  media_upload : File → W → reply Z * W;
  create_tweet : str → option (list Z) → W → reply unit * W;
  post : str → W → reply unit * W;
  post_with_media : str → File → W → reply unit * W
}.
Arguments now {W} _ _.
Arguments yield {W} _ _.
Arguments answer {W} _ _.
Arguments edit_text {W} _ _ _ _.
Arguments reply_text {W} _ _ _ _.
Arguments send_message {W} _ _ _ _.
Arguments get_file {W} _ _ _.
Arguments post_cast {W} _ _ _ _.
Arguments media_upload {W} _ _ _.
Arguments create_tweet {W} _ _ _ _.
Arguments post {W} _ _ _.
Arguments post_with_media {W} _ _ _ _.

Record Sys (W : Type) := {
  bot : CrossPostBot;
  world : W;
  trace : list event
}.
Arguments bot {W} _.
Arguments world {W} _.
Arguments trace {W} _.

(** ** The monad of handlers *)

Definition M (W A : Type) : Type := Sys W → outcome A * Sys W.

Section Monad.
Context {W : Type}.

Definition ret {A} (a : A) : M W A := λ s, (Ok a, s).

Definition bind {A B} (m : M W A) (f : A → M W B) : M W B :=
  λ s, match m s with
       | (Ok a, s') => f a s'
       | (Raise e, s') => (Raise e, s')
       end.

Definition raise {A} (e : exn) : M W A := λ s, (Raise e, s).

(** [try: m  except Exception as e: h e].  What [m] did to the state
    before raising stays done. *)
Definition try_except {A} (m : M W A) (h : exn → M W A) : M W A :=
  λ s, match m s with
       | (Ok a, s') => (Ok a, s')
       | (Raise e, s') => h e s'
       end.

Definition gets {A} (f : CrossPostBot → A) : M W A :=
  λ s, (Ok (f (bot s)), s).

Definition modify (f : CrossPostBot → CrossPostBot) : M W unit :=
  λ s, (Ok tt, {| bot := f (bot s); world := world s; trace := trace s |}).

Definition emit (e : event) : M W unit :=
  λ s, (Ok tt, {| bot := bot s; world := world s; trace := trace s ++ [e] |}).

(** A question to the world that cannot fail. *)
Definition ask {A} (o : W → A * W) : M W A :=
  λ s, let '(a, w) := o (world s) in
       (Ok a, {| bot := bot s; world := w; trace := trace s |}).

(** A call that returns or raises; it is recorded either way. *)
Definition invoke {A} (c : call) (o : W → reply A * W) : M W A :=
  λ s, match o (world s) with
       | (Returns a, w) =>
           (Ok a, {| bot := bot s; world := w;
                     trace := trace s ++ [Called c None] |})
       | (Fails msg, w) =>
           (Raise (Fault msg),
            {| bot := bot s; world := w;
               trace := trace s ++ [Called c (Some msg)] |})
       end.

Fixpoint times (n : nat) (m : M W unit) : M W unit :=
  match n with
  | O => ret tt
  | S k => bind m (λ _, times k m)
  end.
End Monad.

Declare Scope bot_scope.
Delimit Scope bot_scope with bot.
Notation "x <- m ;; k" := (bind m (λ x, k))
  (at level 100, m at next level, k at level 200, right associativity,
   format "'[v' x  <-  m  ;; '/' k ']'") : bot_scope.
Notation "m ;;; k" := (bind m (λ _, k))
  (at level 100, k at level 200, right associativity,
   format "'[v' m  ;;; '/' k ']'") : bot_scope.
Local Open Scope bot_scope.

(** Setters for the fields of the bot. *)
Definition set_objects (f : gmap loc message_data → gmap loc message_data)
    (b : CrossPostBot) : CrossPostBot :=
  {| objects := f (objects b); tracked_messages := tracked_messages b;
     posted_messages := posted_messages b;
     reaction_messages := reaction_messages b;
     twitter := twitter b; bluesky := bluesky b; client := client b |}.

Definition set_tracked_messages (f : gmap Z loc → gmap Z loc)
    (b : CrossPostBot) : CrossPostBot :=
  {| objects := objects b; tracked_messages := f (tracked_messages b);
     posted_messages := posted_messages b;
     reaction_messages := reaction_messages b;
     twitter := twitter b; bluesky := bluesky b; client := client b |}.

Definition set_posted_messages (f : gset Z → gset Z)
    (b : CrossPostBot) : CrossPostBot :=
  {| objects := objects b; tracked_messages := tracked_messages b;
     posted_messages := f (posted_messages b);
     reaction_messages := reaction_messages b;
     twitter := twitter b; bluesky := bluesky b; client := client b |}.

Definition set_reaction_messages (f : gmap Z Z → gmap Z Z)
    (b : CrossPostBot) : CrossPostBot :=
  {| objects := objects b; tracked_messages := tracked_messages b;
     posted_messages := posted_messages b;
     reaction_messages := f (reaction_messages b);
     twitter := twitter b; bluesky := bluesky b; client := client b |}.

(** Updates of one [message_data] object. *)
Definition add_reaction (user_id : Z) (d : message_data) : message_data :=
  {| message_id := message_id d; chat_id := chat_id d; text := text d;
     media := media d; reactions := {[user_id]} ∪ reactions d;
     timestamp := timestamp d; posted := posted d |}.

Definition set_posted (v : bool) (d : message_data) : message_data :=
  {| message_id := message_id d; chat_id := chat_id d; text := text d;
     media := media d; reactions := reactions d;
     timestamp := timestamp d; posted := v |}.

(** ** The bot *)

Section Bot.
Context {W : Type} (E : Env W) (cfg : Config).

(** *** [cleanup_expired] *)

(** [current_time - data['timestamp'] > timedelta(hours=EXPIRATION_HOURS)] *)
Definition expired (current_time : Z) (data : message_data) : bool :=
  timedelta_hours (EXPIRATION_HOURS cfg) <? current_time - timestamp data.

(** The first loop: the ids of the tracked messages that are too old. *)
Definition expired_messages (current_time : Z) (b : CrossPostBot) : list Z :=
  (filter (λ item, expired current_time (objects b !!! item.2))
          (map_to_list (tracked_messages b))).*1.

(** The inner loop: over a copy of the items of [reaction_messages],
    deleting each prompt that points to [message_id]. *)
Definition forget_prompts (message_id : Z) (rm : gmap Z Z) : gmap Z Z :=
  foldl (λ acc item, if decide (item.2 = message_id)
                     then delete item.1 acc else acc)
        rm (map_to_list rm).

Definition remove_message (b : CrossPostBot) (message_id : Z) : CrossPostBot :=
  set_tracked_messages (delete message_id)
    (set_reaction_messages (forget_prompts message_id) b).

(** One iteration of the loop, with the clock already read. *)
Definition cleanup_at (current_time : Z) (b : CrossPostBot) : CrossPostBot :=
  foldl remove_message b (expired_messages current_time b).

(** The sweeper deletes with [del], which raises [KeyError] on a missing
    key.  [cleanup_del] is the iteration with every [del] checked; it
    gives [None] where Python raises.  [cleanup_at] is what it computes
    (lemma [cleanup_del_ok]). *)
Definition del {V} (k : Z) (d : gmap Z V) : option (gmap Z V) :=
  match d !! k with
  | Some _ => Some (delete k d)
  | None => None
  end.

Fixpoint forget_prompts_del (message_id : Z) (items : list (Z * Z))
    (rm : gmap Z Z) : option (gmap Z Z) :=
  match items with
  | [] => Some rm
  | item :: rest =>
      if decide (item.2 = message_id)
      then match del item.1 rm with
           | Some rm' => forget_prompts_del message_id rest rm'
           | None => None
           end
      else forget_prompts_del message_id rest rm
  end.

Fixpoint cleanup_del (ids : list Z) (b : CrossPostBot) : option CrossPostBot :=
  match ids with
  | [] => Some b
  | message_id :: rest =>
      match forget_prompts_del message_id (map_to_list (reaction_messages b))
              (reaction_messages b) with
      | Some rm =>
          match del message_id (tracked_messages b) with
          | Some tm =>
              cleanup_del rest
                (set_tracked_messages (λ _, tm)
                   (set_reaction_messages (λ _, rm) b))
          | None => None
          end
      | None => None
      end
  end.

(** One iteration of the [while True] loop of [cleanup_expired], up to
    its [asyncio.sleep]. *)
Definition cleanup_expired : M W unit :=
  current_time <- ask (now E) ;;
  modify (cleanup_at current_time).

(** [await]: the call is made, and while the handler waits for it the
    sweeper runs as often as the scheduler says. *)
Definition suspend : M W unit :=
  n <- ask (yield E) ;;
  times n cleanup_expired.

Definition await {A} (c : call) (o : W → reply A * W) : M W A :=
  λ s, let '(r, s1) := invoke c o s in
       let '(_, s2) := suspend s1 in
       (r, s2).

(** *** Access to dictionaries and objects *)

(** [d[k]] raises [KeyError] on a missing key. *)
Definition getitem {V} (d : gmap Z V) (k : Z) : M W V :=
  match d !! k with
  | Some v => ret v
  | None => raise (KeyError k)
  end.

(** Reading and updating a key of the [message_data] object at [l]. *)
Definition field {A} (l : loc) (f : message_data → A) : M W A :=
  gets (λ b, f (objects b !!! l)).

Definition update (l : loc) (f : message_data → message_data) : M W unit :=
  modify (set_objects (alter f l)).

Definition alloc (d : message_data) : M W loc :=
  l <- gets (λ b, fresh (dom (objects b))) ;;
  modify (set_objects <[l := d]>) ;;;
  ret l.

(** *** [notify_group] *)

(** Lines 238 to 243: a failure to send is logged, never raised. *)
Definition notify_group (chat : Z) (message : str) : M W unit :=
  try_except
    (await (SendMessage chat message) (send_message E chat message))
    (λ _, ret tt).

(** *** [handle_message] *)

Definition topost : str := lit "#topost".

Definition prompt_text : str :=
  lit "React with " ++ [0x1F44D%N] ++ lit " to crosspost".

(** Lines 278 to 292: the largest photo, else the video, else the
    animation. *)
Definition media_of (message : tg.Message) : option Media :=
  match tg.photo message with
  | _ :: _ =>
      Some {| type := photo; file_id := List.last (tg.photo message) [] |}
  | [] =>
      match tg.video message with
      | Some fid => Some {| type := video; file_id := fid |}
      | None =>
          match tg.animation message with
          | Some fid => Some {| type := animation; file_id := fid |}
          | None => None
          end
      end
  end.

(** Lines 251 to 296.  The two registries are written only after the
    reply with the prompt has been sent. *)
Definition handle_message (upd : tg.Update) : M W unit :=
  match tg.message upd with
  | None => ret tt
  | Some message =>
      match tg.text message with
      | None => ret tt
      | Some txt =>
          if bool_decide (txt = []) then ret tt
          else if negb (contains topost txt) then ret tt
          else
            sent_message_id <-
              await (ReplyText (tg.message_id message) prompt_text)
                    (reply_text E (tg.message_id message) prompt_text) ;;
            current_time <- ask (now E) ;;
            let data :=
              {| message_id := tg.message_id message;
                 chat_id := tg.chat_id message;
                 text := strip (replace topost [] txt);
                 media := media_of message;
                 reactions := ∅;
                 timestamp := current_time;
                 posted := false |} in
            l <- alloc data ;;
            modify (set_tracked_messages <[tg.message_id message := l]>) ;;;
            modify (set_reaction_messages
                      <[sent_message_id := tg.message_id message]>)
      end
  end.

(** *** [cross_post] *)

Definition success_line (platform : string) : str :=
  [0x2705%N] ++ lit " " ++ lit platform ++ lit ": Successfully posted".

Definition error_line (platform : string) (error_msg : str) : str :=
  [0x274C%N] ++ lit " " ++ lit platform ++ lit ": Error - " ++ error_msg.

Definition initiating : str :=
  [0x1F680%N] ++ lit " Initiating crosspost to platforms...".

Definition final_report (platforms_status : list str) : str :=
  [0x1F4CA%N] ++ lit " Crosspost Report:" ++ [10%N; 10%N] ++
  join [10%N] platforms_status.

Definition general_error (e : exn) : str :=
  [0x274C%N] ++ lit " General crosspost error: " ++ take 100 (str_exn e).

(** Lines 349 to 359, 361 to 383 and 385 to 394: one block for each
    platform, each with its own [try]. *)
Definition post_farcaster (data : loc) (media_file : option File)
    (platforms_status : list str) : M W (list str) :=
  handle <- gets client ;;
  if farcaster_enabled (PLATFORMS_CONFIG cfg) && handle then
    try_except
      (txt <- field data text ;;
       invoke (PostCast txt media_file) (post_cast E txt media_file) ;;;
       ret (platforms_status ++ [success_line "Farcaster"]))
      (λ e, let error_msg := take 100 (str_exn e) in
            ret (platforms_status ++ [error_line "Farcaster" error_msg]))
  else ret platforms_status.

Definition post_twitter (data : loc) (media_file : option File)
    (platforms_status : list str) : M W (list str) :=
  handle <- gets twitter ;;
  if twitter_enabled (PLATFORMS_CONFIG cfg) && handle then
    try_except
      (media_ids <-
         match media_file with
         | Some f =>
             media_id <- invoke (MediaUpload f) (media_upload E f) ;;
             ret (Some [media_id])
         | None => ret None
         end ;;
       txt <- field data text ;;
       invoke (CreateTweet txt media_ids) (create_tweet E txt media_ids) ;;;
       ret (platforms_status ++ [success_line "Twitter"]))
      (λ e, let error_msg := take 100 (str_exn e) in
            ret (platforms_status ++ [error_line "Twitter" error_msg]))
  else ret platforms_status.

Definition post_bluesky (data : loc) (media_file : option File)
    (platforms_status : list str) : M W (list str) :=
  handle <- gets bluesky ;;
  if bluesky_enabled (PLATFORMS_CONFIG cfg) && handle then
    try_except
      (txt <- field data text ;;
       match media_file with
       | Some f =>
           invoke (BlueskyPostWithMedia txt f) (post_with_media E txt f)
       | None => invoke (BlueskyPost txt) (post E txt)
       end ;;;
       ret (platforms_status ++ [success_line "Bluesky"]))
      (λ e, let error_msg := take 100 (str_exn e) in
            ret (platforms_status ++ [error_line "Bluesky" error_msg]))
  else ret platforms_status.

(** Lines 349 to 399: the three platform blocks in their order, then
    the report. *)
Definition fan_out (data : loc) (chat : Z) (media_file : option File)
    : M W unit :=
  platforms_status <- post_farcaster data media_file [] ;;
  platforms_status <- post_twitter data media_file platforms_status ;;
  platforms_status <- post_bluesky data media_file platforms_status ;;
  notify_group chat (final_report platforms_status).

(** Lines 343 to 345. *)
Definition resolve_media (data : loc) : M W (option File) :=
  m <- field data media ;;
  match m with
  | Some m =>
      f <- await (GetFile (file_id m)) (get_file E (file_id m)) ;;
      ret (Some f)
  | None => ret None
  end.

(** Lines 337 to 404.  [data] is the reference to the [message_data]
    object; the entry is recorded in the trace as [CrossPost]. *)
Definition cross_post (data : loc) : M W unit :=
  mid <- field data message_id ;;
  emit (CrossPost mid) ;;;
  chat <- field data chat_id ;;
  try_except
    (media_file <- resolve_media data ;;
     notify_group chat initiating ;;;
     fan_out data chat media_file)
    (λ e, notify_group chat (general_error e)).

(** *** [handle_callback] *)

Definition needed_text (remaining : Z) : str :=
  prompt_text ++ [10%N] ++ lit "Needed: " ++ str_of_int remaining ++
  lit " more reactions".

Definition crossposted_text : str :=
  lit "Message has been cross-posted! " ++ [0x2705%N].

(** Lines 298 to 335.  [data] is the reference found in
    [tracked_messages]; it stays valid while the handler is suspended. *)
Definition handle_callback (query : tg.CallbackQuery) : M W unit :=
  await QueryAnswer (answer E) ;;;
  let reaction_msg_id := tg.query_message_id query in
  prompts <- gets reaction_messages ;;
  match prompts !! reaction_msg_id with
  | None => ret tt
  | Some original_msg_id =>
      tracked <- gets tracked_messages ;;
      data <- getitem tracked original_msg_id ;;
      let user_id := tg.from_user_id query in
      seen <- field data reactions ;;
      if bool_decide (user_id ∈ seen) then ret tt
      else
        update data (add_reaction user_id) ;;;
        reaction_count <- field data (λ d, Z.of_nat (size (reactions d))) ;;
        let remaining := REQUIRED_REACTIONS cfg - reaction_count in
        (if 0 <? remaining
         then await (EditText reaction_msg_id (needed_text remaining))
                    (edit_text E reaction_msg_id (needed_text remaining))
         else ret tt) ;;;
        is_posted <- field data posted ;;
        published <- gets posted_messages ;;
        if (REQUIRED_REACTIONS cfg <=? reaction_count)
           && negb is_posted
           && negb (bool_decide (original_msg_id ∈ published))
        then
          current_time <- ask (now E) ;;
          created <- field data timestamp ;;
          if current_time - created <=? timedelta_hours (EXPIRATION_HOURS cfg)
          then
            cross_post data ;;;
            update data (set_posted true) ;;;
            modify (set_posted_messages (union {[original_msg_id]})) ;;;
            await (EditText reaction_msg_id crossposted_text)
                  (edit_text E reaction_msg_id crossposted_text)
          else ret tt
        else ret tt
  end.

(** *** The application *)

(** What the event loop does next: hand an update to its handler, or run
    the sweeper.  A handler that raises is abandoned and the loop goes
    on to the next update. *)
Inductive op :=
| Message (upd : tg.Update)
| Callback (query : tg.CallbackQuery)
| Sweep.

Definition step (o : op) : M W unit :=
  match o with
  | Message upd => try_except (handle_message upd) (λ _, ret tt)
  | Callback query => try_except (handle_callback query) (λ _, ret tt)
  | Sweep => cleanup_expired
  end.

Definition run (ops : list op) (s : Sys W) : Sys W :=
  foldl (λ s o, (step o s).2) s ops.

Definition boot (tw bs fc : bool) (w : W) : Sys W :=
  {| bot := init tw bs fc; world := w; trace := [] |}.
End Bot.

(** ** The code outside the handlers *)

(** The constructor of the bot and the two Twitter classes of the file
    do not run in the event loop.  They are written in a plain
    state-and-exception monad: [S] is the state, [X] the exceptions. *)
Module comp.
Inductive result (X A : Type) := Value (a : A) | Thrown (x : X).
Arguments Value {X A} a.
Arguments Thrown {X A} x.

Definition t (S X A : Type) : Type := S → result X A * S.

Section Ops.
Context {S X : Type}.

Definition ret {A} (a : A) : t S X A := λ s, (Value a, s).

Definition bind {A B} (m : t S X A) (f : A → t S X B) : t S X B :=
  λ s, match m s with
       | (Value a, s') => f a s'
       | (Thrown x, s') => (Thrown x, s')
       end.

Definition throw {A} (x : X) : t S X A := λ s, (Thrown x, s).

(** [try: m  except ... as e: h e] *)
Definition catch {A} (m : t S X A) (h : X → t S X A) : t S X A :=
  λ s, match m s with
       | (Value a, s') => (Value a, s')
       | (Thrown x, s') => h x s'
       end.

Definition gets {A} (f : S → A) : t S X A := λ s, (Value (f s), s).

Definition modify (f : S → S) : t S X unit := λ s, (Value tt, f s).
End Ops.
End comp.

Declare Scope comp_scope.
Delimit Scope comp_scope with comp.
Notation "x <- m ;; k" := (comp.bind m (λ x, k))
  (at level 100, m at next level, k at level 200, right associativity,
   format "'[v' x  <-  m  ;; '/' k ']'") : comp_scope.
Notation "m ;;; k" := (comp.bind m (λ _, k))
  (at level 100, k at level 200, right associativity,
   format "'[v' m  ;;; '/' k ']'") : comp_scope.

(** *** [CrossPostBot.__init__] and [_initialize_platforms] *)

(** The calls that set up the platform clients: [tweepy.Client(...)],
    [AtprotoClient()], its [login], [Warpcast(...)] and its
    [get_healthcheck]. *)
Inductive setup_call :=
| NewTwitterClient
| NewAtprotoClient
| BlueskyLogin
| NewWarpcast
| GetHealthcheck.

#[global] Instance setup_call_eq_dec : EqDecision setup_call.
Proof. solve_decision. Defined.

(** What the outside answers to them. *)
Record Setup (W : Type) := {
  new_twitter_client : W → reply unit * W;
  new_atproto_client : W → reply unit * W;
  bluesky_login : W → reply unit * W;
  new_warpcast : W → reply unit * W;
  get_healthcheck : W → reply unit * W
}.
Arguments new_twitter_client {W} _ _.
Arguments new_atproto_client {W} _ _.
Arguments bluesky_login {W} _ _.
Arguments new_warpcast {W} _ _.
Arguments get_healthcheck {W} _ _.

(** The world and the calls made so far, each with the message of the
    exception it raised, if any. *)
Record Starting (W : Type) := {
  outside : W;
  setup_log : list (setup_call * option str)
}.
Arguments outside {W} _.
Arguments setup_log {W} _.

Section StartUp.
Context {W : Type} (U : Setup W) (cfg : Config).
Local Open Scope comp_scope.

Definition setup (c : setup_call) (o : W → reply unit * W)
    : comp.t (Starting W) str unit :=
  λ s, match o (outside s) with
       | (Returns _, w) =>
           (comp.Value tt,
            {| outside := w; setup_log := setup_log s ++ [(c, None)] |})
       | (Fails msg, w) =>
           (comp.Thrown msg,
            {| outside := w; setup_log := setup_log s ++ [(c, Some msg)] |})
       end.

(** Lines 207 to 236.  The result says which of [self.twitter],
    [self.bluesky] and [self.client] is a client and not [None].  Only
    the block of Farcaster has a [try]. *)
Definition _initialize_platforms
    : comp.t (Starting W) str (bool * bool * bool) :=
  tw <- (if twitter_enabled (PLATFORMS_CONFIG cfg)
         then setup NewTwitterClient (new_twitter_client U) ;;;
              comp.ret true
         else comp.ret false) ;;
  bs <- (if bluesky_enabled (PLATFORMS_CONFIG cfg)
         then setup NewAtprotoClient (new_atproto_client U) ;;;
              setup BlueskyLogin (bluesky_login U) ;;;
              comp.ret true
         else comp.ret false) ;;
  fc <- (if farcaster_enabled (PLATFORMS_CONFIG cfg)
         then comp.catch
                (setup NewWarpcast (new_warpcast U) ;;;
                 setup GetHealthcheck (get_healthcheck U) ;;;
                 comp.ret true)
                (λ _, comp.ret false)
         else comp.ret false) ;;
  comp.ret (tw, bs, fc).

(** Lines 198 to 205: the registries start empty. *)
Definition __init__ : comp.t (Starting W) str CrossPostBot :=
  clients <- _initialize_platforms ;;
  comp.ret (init clients.1.1 clients.1.2 clients.2).
End StartUp.

(** *** The classes [TwitterOAuth2] and [TwitterAPI] *)

Module twitter.

(** The values of JSON that the two classes look at: [None], booleans,
    whole numbers and strings.  Floating-point numbers, arrays and
    nested objects are left out. *)
Inductive value := VNone | VBool (b : bool) | VInt (z : Z) | VStr (s : str).

#[global] Instance value_eq_dec : EqDecision value.
Proof. solve_decision. Defined.

(** [bool(v)] *)
Definition truthy (v : value) : bool :=
  match v with
  | VNone => false
  | VBool b => b
  | VInt z => negb (z =? 0)
  | VStr s => negb (bool_decide (s = []))
  end.

(** [str(v)], as an f-string formats [v]. *)
Definition format (v : value) : str :=
  match v with
  | VNone => lit "None"
  | VBool true => lit "True"
  | VBool false => lit "False"
  | VInt z => str_of_int z
  | VStr s => s
  end.

(** A JSON object, as [response.json()] returns it. *)
Definition Json := gmap string value.

Inductive error :=
| AttributeError (name : string)
| KeyError (key : string)
| TypeError
| OverflowError
| RequestException (msg : str)
| HTTPError (status_code : Z)
| JSONDecodeError (msg : str)
| Exception (msg : str).

Record Response := {
  status_code : Z;
  text : str;
  json : reply Json
}.

Definition Headers := list (string * str).

(** The HTTP requests of the two classes.  [PostToken] is the request
    of [_refresh_token], whose headers and form are made of the two
    credentials; [PostTweet] and [PostMedia] are those of [create_tweet]
    and [upload_media]; [Request] is that of [_make_request]. *)
Inductive request :=
| PostToken (client_id client_secret : str)
| PostTweet (headers : Headers) (text : str)
| PostMedia (headers : Headers) (media_file : File)
| Request (method : string) (url : str) (headers : Headers)
    (params : list (string * value)).

(** The outside: the clock and the network.  [send] fails where
    [requests] raises a [RequestException]. *)
Record Net (W : Type) := {
  clock : W → Z * W;
  send : request → W → reply Response * W
}.
Arguments clock {W} _ _.
Arguments send {W} _ _ _.

Record TwitterOAuth2 := {
  client_id : str;
  client_secret : str;
  access_token : value;
  token_expiry : option Z
}.

(** [base_url] is an attribute that [_make_request] reads and that no
    statement of the class assigns; [None] stands for an attribute that
    is not set. *)
Record TwitterAPI := {
  auth : TwitterOAuth2;
  base_url : option str
}.

(** The object, the world, and the requests sent so far. *)
Record State (W : Type) := {
  self : TwitterAPI;
  world : W;
  sent : list request
}.
Arguments self {W} _.
Arguments world {W} _.
Arguments sent {W} _.

Definition set_access_token (v : value) (a : TwitterAPI) : TwitterAPI :=
  {| auth := {| client_id := client_id (auth a);
                client_secret := client_secret (auth a);
                access_token := v;
                token_expiry := token_expiry (auth a) |};
     base_url := base_url a |}.

Definition set_token_expiry (e : option Z) (a : TwitterAPI) : TwitterAPI :=
  {| auth := {| client_id := client_id (auth a);
                client_secret := client_secret (auth a);
                access_token := access_token (auth a);
                token_expiry := e |};
     base_url := base_url a |}.

(** A [datetime] is the number of microseconds since 0001-01-01
    00:00:00, the least [datetime]; the greatest is 9999-12-31
    23:59:59.999999, on day 3652059.  A [timedelta] is a number of
    microseconds that makes at most 999999999 days, in either
    direction. *)
Definition datetime_max : Z := 3652059 * 86400000000 - 1.

Definition timedelta_max_days : Z := 999999999.

(** [timedelta(seconds=v)]: a [TypeError] for a value that is no number,
    an [OverflowError] for a number of seconds whose days are out of
    range. *)
Definition timedelta_seconds (v : value) : error + Z :=
  match v with
  | VInt z =>
      if (- timedelta_max_days <=? z / 86400) &&
         (z / 86400 <=? timedelta_max_days)
      then inr (z * 1000000)
      else inl OverflowError
  | VBool b => inr (if b then 1000000 else 0)
  | VNone | VStr _ => inl TypeError
  end.

(** [t + delta] for a [datetime] and a [timedelta]: an [OverflowError]
    when the sum is no [datetime]. *)
Definition datetime_add (t delta : Z) : error + Z :=
  if (0 <=? t + delta) && (t + delta <=? datetime_max)
  then inr (t + delta)
  else inl OverflowError.

(** The test [if xs:] of an optional list: it holds of a list that is
    given and not empty. *)
Definition given (xs : option (list str)) : bool :=
  match xs with
  | Some (_ :: _) => true
  | _ => false
  end.

Inductive method :=
| GetHeaders
| CreateTweet (txt : str)
| UploadMedia (media_file : File)
| SearchTweets (query : str) (max_results : Z)
    (tweet_fields expansions : option (list str))
| GetUserTweets (user_id : str) (max_results : Z)
    (tweet_fields : option (list str))
| GetTweetMetrics (tweet_id : str).

Section Classes.
Context {W : Type} (net : Net W).
Local Open Scope comp_scope.

Definition M (A : Type) : Type := comp.t (State W) error A.

Definition now : M Z :=
  λ s, let '(ct, w) := clock net (world s) in
       (comp.Value ct, {| self := self s; world := w; sent := sent s |}).

Definition request_ (r : request) : M Response :=
  λ s, match send net r (world s) with
       | (Returns response, w) =>
           (comp.Value response,
            {| self := self s; world := w; sent := sent s ++ [r] |})
       | (Fails msg, w) =>
           (comp.Thrown (RequestException msg),
            {| self := self s; world := w; sent := sent s ++ [r] |})
       end.

Definition update (f : TwitterAPI → TwitterAPI) : M unit :=
  comp.modify (λ s, {| self := f (self s); world := world s;
                       sent := sent s |}).

(** [response.json()] *)
Definition json_ (response : Response) : M Json :=
  match json response with
  | Returns data => comp.ret data
  | Fails msg => comp.throw (JSONDecodeError msg)
  end.

(** [response.raise_for_status()] *)
Definition raise_for_status (response : Response) : M unit :=
  if (400 <=? status_code response) && (status_code response <? 600)
  then comp.throw (HTTPError (status_code response))
  else comp.ret tt.

(** [d[key]] *)
Definition getitem (d : Json) (key : string) : M value :=
  match d !! key with
  | Some v => comp.ret v
  | None => comp.throw (KeyError key)
  end.

(** A value, or the exception raised in its place. *)
Definition raising {A} (r : error + A) : M A :=
  match r with
  | inl e => comp.throw e
  | inr a => comp.ret a
  end.

(** [except requests.exceptions.RequestException as e: log; raise]: the
    handler only logs and raises the exception again. *)
Definition try_log {A} (m : M A) : M A := comp.catch m (λ e, comp.throw e).

(** [TwitterOAuth2.__init__], lines 28 to 33, and [TwitterAPI.__init__],
    lines 80 to 82. *)
Definition TwitterOAuth2__init__ (id secret : str) : TwitterOAuth2 :=
  {| client_id := id; client_secret := secret;
     access_token := VNone; token_expiry := None |}.

Definition TwitterAPI__init__ (id secret : str) : TwitterAPI :=
  {| auth := TwitterOAuth2__init__ id secret; base_url := None |}.

(** Lines 35 to 66.  In line 61 the clock is read first, then the
    [timedelta] is made, then the two are added; the last two steps can
    raise, and line 60 has stored the new token by then. *)
Definition _refresh_token : M unit :=
  me <- comp.gets (λ s, auth (self s)) ;;
  try_log
    (response <- request_ (PostToken (client_id me) (client_secret me)) ;;
     if negb (status_code response =? 200)
     then comp.throw
            (Exception (lit "Token refresh failed: " ++ text response))
     else
       token_data <- json_ response ;;
       token <- getitem token_data "access_token" ;;
       update (set_access_token token) ;;;
       current_time <- now ;;
       lifetime <- raising (timedelta_seconds
                              (default (VInt 7200)
                                 (token_data !! "expires_in"))) ;;
       expiry <- raising (datetime_add current_time lifetime) ;;
       update (set_token_expiry (Some expiry))).

(** Lines 68 to 75.  The clock is read only when there is a token. *)
Definition get_headers : M Headers :=
  me <- comp.gets (λ s, auth (self s)) ;;
  stale <- (if negb (truthy (access_token me)) then comp.ret true
            else
              current_time <- now ;;
              match token_expiry me with
              | Some expiry => comp.ret (expiry <=? current_time)
              | None => comp.throw TypeError
              end) ;;
  (if stale : bool then _refresh_token else comp.ret tt) ;;;
  me <- comp.gets (λ s, auth (self s)) ;;
  comp.ret [("Authorization"%string, lit "Bearer " ++ format (access_token me));
            ("Content-Type"%string, lit "application/json")].

(** Lines 84 to 95. *)
Definition _make_request (method : string) (endpoint : str)
    (params : list (string * value)) : M Json :=
  base <- comp.gets (λ s, base_url (self s)) ;;
  match base with
  | None => comp.throw (AttributeError "base_url")
  | Some base =>
      let url := base ++ lit "/" ++ endpoint in
      headers <- get_headers ;;
      try_log
        (response <- request_ (Request method url headers params) ;;
         raise_for_status response ;;;
         json_ response)
  end.

(** Lines 97 to 114. *)
Definition create_tweet (txt : str) : M Json :=
  headers <- get_headers ;;
  try_log
    (response <- request_ (PostTweet headers txt) ;;
     if negb (status_code response =? 201)
     then comp.throw
            (Exception (lit "Tweet creation failed: " ++ text response))
     else json_ response).

(** Lines 116 to 127. *)
Definition upload_media (media_file : File) : M value :=
  headers <- get_headers ;;
  try_log
    (response <- request_ (PostMedia headers media_file) ;;
     raise_for_status response ;;;
     data <- json_ response ;;
     getitem data "media_id_string").

(** Lines 129 to 143. *)
Definition search_tweets (query : str) (max_results : Z)
    (tweet_fields expansions : option (list str)) : M Json :=
  let params :=
    [("query"%string, VStr query); ("max_results"%string, VInt max_results)] ++
    (if given tweet_fields
     then [("tweet.fields"%string,
            VStr (join (lit ",") (default [] tweet_fields)))]
     else []) ++
    (if given expansions
     then [("expansions"%string,
            VStr (join (lit ",") (default [] expansions)))]
     else []) in
  _make_request "GET" (lit "tweets/search/recent") params.

(** Lines 145 to 152. *)
Definition get_user_tweets (user_id : str) (max_results : Z)
    (tweet_fields : option (list str)) : M Json :=
  let params :=
    [("max_results"%string, VInt max_results)] ++
    (if given tweet_fields
     then [("tweet.fields"%string,
            VStr (join (lit ",") (default [] tweet_fields)))]
     else []) in
  _make_request "GET" (lit "users/" ++ user_id ++ lit "/tweets") params.

(** Lines 154 to 158. *)
Definition get_tweet_metrics (tweet_id : str) : M Json :=
  let fields := [lit "public_metrics"; lit "non_public_metrics";
                 lit "organic_metrics"] in
  _make_request "GET" (lit "tweets/" ++ tweet_id)
    [("tweet.fields"%string, VStr (join (lit ",") fields))].

(** The public methods of a [TwitterAPI] object, and a sequence of calls
    on one object.  A call that raises ends there, and the next call
    finds the object as it was left. *)
Definition call_method (m : method) (s : State W) : State W :=
  match m with
  | GetHeaders => (get_headers s).2
  | CreateTweet txt => (create_tweet txt s).2
  | UploadMedia media_file => (upload_media media_file s).2
  | SearchTweets query max_results tweet_fields expansions =>
      (search_tweets query max_results tweet_fields expansions s).2
  | GetUserTweets user_id max_results tweet_fields =>
      (get_user_tweets user_id max_results tweet_fields s).2
  | GetTweetMetrics tweet_id => (get_tweet_metrics tweet_id s).2
  end.

Definition use (ms : list method) (s : State W) : State W :=
  foldl (λ s m, call_method m s) s ms.

(** [TwitterAPI(client_id, client_secret)] in the world [w]. *)
Definition fresh_api (id secret : str) (w : W) : State W :=
  {| self := TwitterAPI__init__ id secret; world := w; sent := [] |}.

(** When [get_headers] finds the token stale: there is no token, or an
    empty one, and the clock is not read; or the clock reads the time of
    expiry or a later time.  [w] is the world after the test. *)
Definition stale (s : State W) (w : W) : Prop :=
  let me := auth (self s) in
  (truthy (access_token me) = false ∧ w = world s) ∨
  (truthy (access_token me) = true ∧
   ∃ expiry, token_expiry me = Some expiry ∧
             expiry ≤ (clock net (world s)).1 ∧
             w = (clock net (world s)).2).

(** The headers that [get_headers] returns for a token. *)
Definition bearer (token : value) : Headers :=
  [("Authorization"%string, lit "Bearer " ++ format token);
   ("Content-Type"%string, lit "application/json")].
End Classes.
End twitter.

(** ** Notions used in the statements *)

#[global] Instance media_type_eq_dec : EqDecision media_type.
Proof. solve_decision. Defined.
#[global] Instance call_eq_dec : EqDecision call.
Proof. solve_decision. Defined.
#[global] Instance event_eq_dec : EqDecision event.
Proof. solve_decision. Defined.

(** How often [cross_post] was entered for the message [id]. *)
Definition dispatches (id : Z) (t : list event) : nat :=
  length (filter (λ e, e = CrossPost id) t).

Definition is_call (e : event) : Prop :=
  match e with
  | Called _ _ => True
  | CrossPost _ => False
  end.

Inductive platform := Farcaster | Twitter | Bluesky.

#[global] Instance platform_eq_dec : EqDecision platform.
Proof. solve_decision. Defined.

Definition platform_name (p : platform) : string :=
  match p with
  | Farcaster => "Farcaster"
  | Twitter => "Twitter"
  | Bluesky => "Bluesky"
  end.

(** The order of the platform blocks in [cross_post]. *)
Definition configured_order : list platform := [Farcaster; Twitter; Bluesky].

Definition platform_of (c : call) : option platform :=
  match c with
  | PostCast _ _ => Some Farcaster
  | MediaUpload _ | CreateTweet _ _ => Some Twitter
  | BlueskyPost _ | BlueskyPostWithMedia _ _ => Some Bluesky
  | _ => None
  end.

(** [calls p e]: the event [e] is a call to the client of platform [p]. *)
Definition calls (p : platform) (e : event) : Prop :=
  match e with
  | Called c _ => platform_of c = Some p
  | CrossPost _ => False
  end.

#[global] Instance calls_dec p e : Decision (calls p e).
Proof. destruct e; simpl; apply _. Defined.

Definition attempts (p : platform) (evs : list event) : list event :=
  filter (calls p) evs.

(** The message of the first call that raised, if one did. *)
Fixpoint failure (evs : list event) : option str :=
  match evs with
  | [] => None
  | Called _ (Some msg) :: _ => Some msg
  | _ :: rest => failure rest
  end.

Definition report_line (p : platform) (f : option str) : str :=
  match f with
  | None => success_line (platform_name p)
  | Some msg => error_line (platform_name p) (take 100 msg)
  end.

Section Specs.
Context {W : Type} (E : Env W) (cfg : Config).

(** [wp m Q s]: running [m] from [s] ends in an outcome and a state
    that satisfy [Q]. *)
Definition wp {A} (m : M W A) (Q : outcome A → Sys W → Prop) (s : Sys W)
    : Prop :=
  Q (m s).1 (m s).2.

(** [swept b b']: [b'] is [b] after some iterations of the sweeper. *)
Inductive swept : CrossPostBot → CrossPostBot → Prop :=
| swept_refl b : swept b b
| swept_step t b b' : swept (cleanup_at cfg t b) b' → swept b b'.

(** Every prompt points to a tracked message. *)
Definition refs_tracked (b : CrossPostBot) : Prop :=
  ∀ p id, reaction_messages b !! p = Some id →
          is_Some (tracked_messages b !! id).

(** A tracked id points to an object that carries this id. *)
Definition keys_agree (b : CrossPostBot) : Prop :=
  ∀ id l, tracked_messages b !! id = Some l →
          ∃ d, objects b !! l = Some d ∧ message_id d = id.

(** A dispatched id is in [posted_messages], and was dispatched once. *)
Definition once (s : Sys W) : Prop :=
  ∀ id, (dispatches id (trace s) ≤ 1)%nat ∧
        (id ∉ posted_messages (bot s) → dispatches id (trace s) = 0%nat).

(** *** Publishers and the report *)

Definition enabled (b : CrossPostBot) (p : platform) : bool :=
  match p with
  | Farcaster => farcaster_enabled (PLATFORMS_CONFIG cfg) && client b
  | Twitter => twitter_enabled (PLATFORMS_CONFIG cfg) && twitter b
  | Bluesky => bluesky_enabled (PLATFORMS_CONFIG cfg) && bluesky b
  end.

Definition enabled_platforms (b : CrossPostBot) : list platform :=
  filter (λ p, enabled b p) configured_order.

(** The events of one platform block: calls to this platform only, at
    least one if the platform is enabled, none otherwise. *)
Definition block (b : CrossPostBot) (p : platform) (evs : list event) : Prop :=
  if enabled b p then Forall (calls p) evs ∧ evs ≠ [] else evs = [].

Definition block_lines (b : CrossPostBot) (p : platform) (evs : list event)
    : list str :=
  if enabled b p then [report_line p (failure evs)] else [].


(** *** The paths through the handlers *)

(** [message_data['reactions'].add(user_id)] on the object at [l] *)
Definition approved (u : Z) (l : loc) (b : CrossPostBot) : CrossPostBot :=
  set_objects (alter (add_reaction u) l) b.

Definition reaction_count (l : loc) (b : CrossPostBot) : Z :=
  Z.of_nat (size (reactions (objects b !!! l))).

Definition remaining (l : loc) (b : CrossPostBot) : Z :=
  REQUIRED_REACTIONS cfg - reaction_count l b.

(** The condition of lines 326 to 328, with the count taken at line 315. *)
Definition gate_open (id : Z) (l : loc) (count : Z) (b : CrossPostBot) : bool :=
  (REQUIRED_REACTIONS cfg <=? count)
  && negb (posted (objects b !!! l))
  && negb (bool_decide (id ∈ posted_messages b)).

(** Lines 333 and 334. *)
Definition marked (id : Z) (l : loc) (b : CrossPostBot) : CrossPostBot :=
  set_posted_messages (union {[id]})
    (set_objects (alter (set_posted true) l) b).

(** Lines 318 to 322: the prompt is edited only while reactions are
    still needed; the sweeper may run during the edit. *)
Inductive edited (p : Z) (n : Z) (b2 : CrossPostBot)
    : CrossPostBot → list event → Prop :=
| edited_skip : n ≤ 0 → edited p n b2 b2 []
| edited_done b3 :
    0 < n → swept b2 b3 →
    edited p n b2 b3 [Called (EditText p (needed_text n)) None].

(** [callback_path p u b t r s']: a callback on the prompt [p] by the
    user [u], started with the bot [b] and the trace [t], can end with
    the outcome [r] in the state [s']. *)
Inductive callback_path (p u : Z) (b : CrossPostBot) (t : list event)
    : outcome unit → Sys W → Prop :=
| answer_fault msg b1 w :
    swept b b1 →
    callback_path p u b t (Raise (Fault msg))
      {| bot := b1; world := w;
         trace := t ++ [Called QueryAnswer (Some msg)] |}
| unknown_prompt b1 w :
    swept b b1 →
    reaction_messages b1 !! p = None →
    callback_path p u b t (Ok tt)
      {| bot := b1; world := w; trace := t ++ [Called QueryAnswer None] |}
| untracked id b1 w :
    swept b b1 →
    reaction_messages b1 !! p = Some id →
    tracked_messages b1 !! id = None →
    callback_path p u b t (Raise (KeyError id))
      {| bot := b1; world := w; trace := t ++ [Called QueryAnswer None] |}
| duplicate id l b1 w :
    swept b b1 →
    reaction_messages b1 !! p = Some id →
    tracked_messages b1 !! id = Some l →
    u ∈ reactions (objects b1 !!! l) →
    callback_path p u b t (Ok tt)
      {| bot := b1; world := w; trace := t ++ [Called QueryAnswer None] |}
| edit_fault id l b1 b3 msg w :
    swept b b1 →
    reaction_messages b1 !! p = Some id →
    tracked_messages b1 !! id = Some l →
    u ∉ reactions (objects b1 !!! l) →
    0 < remaining l (approved u l b1) →
    swept (approved u l b1) b3 →
    callback_path p u b t (Raise (Fault msg))
      {| bot := b3; world := w;
         trace := t ++ [Called QueryAnswer None;
                        Called (EditText p (needed_text
                                  (remaining l (approved u l b1))))
                               (Some msg)] |}
| not_ready id l b1 b3 evs w :
    swept b b1 →
    reaction_messages b1 !! p = Some id →
    tracked_messages b1 !! id = Some l →
    u ∉ reactions (objects b1 !!! l) →
    edited p (remaining l (approved u l b1)) (approved u l b1) b3 evs →
    gate_open id l (reaction_count l (approved u l b1)) b3 = false →
    callback_path p u b t (Ok tt)
      {| bot := b3; world := w;
         trace := t ++ Called QueryAnswer None :: evs |}
| too_late id l b1 b3 evs w0 w :
    swept b b1 →
    reaction_messages b1 !! p = Some id →
    tracked_messages b1 !! id = Some l →
    u ∉ reactions (objects b1 !!! l) →
    edited p (remaining l (approved u l b1)) (approved u l b1) b3 evs →
    gate_open id l (reaction_count l (approved u l b1)) b3 = true →
    timedelta_hours (EXPIRATION_HOURS cfg) <
      (now E w0).1 - timestamp (objects b3 !!! l) →
    callback_path p u b t (Ok tt)
      {| bot := b3; world := w;
         trace := t ++ Called QueryAnswer None :: evs |}
| published id l b1 b3 evs w0 b4 evs' b6 err w :
    swept b b1 →
    reaction_messages b1 !! p = Some id →
    tracked_messages b1 !! id = Some l →
    u ∉ reactions (objects b1 !!! l) →
    edited p (remaining l (approved u l b1)) (approved u l b1) b3 evs →
    gate_open id l (reaction_count l (approved u l b1)) b3 = true →
    (now E w0).1 - timestamp (objects b3 !!! l) ≤
      timedelta_hours (EXPIRATION_HOURS cfg) →
    swept b3 b4 →
    Forall is_call evs' →
    swept (marked id l b4) b6 →
    callback_path p u b t
      (match err with None => Ok tt | Some msg => Raise (Fault msg) end)
      {| bot := b6; world := w;
         trace := t ++ Called QueryAnswer None :: evs ++
                  CrossPost (message_id (objects b3 !!! l)) :: evs' ++
                  [Called (EditText p crossposted_text) err] |}.

(** [after_answer query s1 r s']: what [handle_callback] does from line
    303 on, started in the state [s1] in which [query.answer()] has
    returned: it ends with the outcome [r] in the state [s'].  The
    handler reads the clock once at most, at line 330, and then the
    world is still that of [s1]: between the answer and that reading the
    handler waits only for the edit of lines 319 to 322, which is made
    only when the count is below the threshold. *)
Definition after_answer (query : tg.CallbackQuery) (s1 : Sys W)
    (r : outcome unit) (s' : Sys W) : Prop :=
  let p := tg.query_message_id query in
  let u := tg.from_user_id query in
  match reaction_messages (bot s1) !! p with
  | None => r = Ok tt ∧ s' = s1
  | Some id =>
      match tracked_messages (bot s1) !! id with
      | None => r = Raise (KeyError id) ∧ s' = s1
      | Some l =>
          let d := objects (bot s1) !!! l in
          if bool_decide (u ∈ reactions d) then r = Ok tt ∧ s' = s1
          else
            let b2 := approved u l (bot s1) in
            let count := reaction_count l b2 in
            if 0 <? REQUIRED_REACTIONS cfg - count then
              ∃ err,
                r = match err with
                    | None => Ok tt
                    | Some msg => Raise (Fault msg)
                    end ∧
                trace s' =
                  trace s1 ++
                  [Called (EditText p (needed_text
                                         (REQUIRED_REACTIONS cfg - count)))
                          err] ∧
                swept b2 (bot s')
            else if gate_open id l count b2 then
              if (now E (world s1)).1 - timestamp d <=?
                 timedelta_hours (EXPIRATION_HOURS cfg)
              then
                ∃ evs err,
                  r = match err with
                      | None => Ok tt
                      | Some msg => Raise (Fault msg)
                      end ∧
                  trace s' =
                    trace s1 ++ CrossPost (message_id d) :: evs ++
                    [Called (EditText p crossposted_text) err] ∧
                  Forall is_call evs ∧
                  swept (marked id l b2) (bot s')
              else
                r = Ok tt ∧
                s' = {| bot := b2; world := (now E (world s1)).2;
                        trace := trace s1 |}
            else
              r = Ok tt ∧
              s' = {| bot := b2; world := world s1; trace := trace s1 |}
      end
  end.

(** Lines 268 to 292: the entry made for a tagged message. *)
Definition new_data (message : tg.Message) (txt : str) (current_time : Z)
    : message_data :=
  {| message_id := tg.message_id message;
     chat_id := tg.chat_id message;
     text := strip (replace topost [] txt);
     media := media_of message;
     reactions := ∅;
     timestamp := current_time;
     posted := false |}.

(** Lines 294 and 295, with the new object stored at a fresh place. *)
Definition registered (message : tg.Message) (txt : str) (current_time : Z)
    (sent_message_id : Z) (b : CrossPostBot) : CrossPostBot :=
  let l := fresh (dom (objects b)) in
  set_reaction_messages <[sent_message_id := tg.message_id message]>
    (set_tracked_messages <[tg.message_id message := l]>
       (set_objects <[l := new_data message txt current_time]> b)).

(** Whether [handle_message] goes past its two early returns. *)
Definition tagged (upd : tg.Update) : option (tg.Message * str) :=
  match tg.message upd with
  | Some message =>
      match tg.text message with
      | Some txt =>
          if bool_decide (txt = []) then None
          else if contains topost txt then Some (message, txt) else None
      | None => None
      end
  | None => None
  end.

Inductive message_path (upd : tg.Update) (s : Sys W)
    : outcome unit → Sys W → Prop :=
| ignored :
    tagged upd = None →
    message_path upd s (Ok tt) s
| reply_fault message txt msg b1 w1 w :
    tagged upd = Some (message, txt) →
    reply_text E (tg.message_id message) prompt_text (world s) =
      (Fails msg, w1) →
    swept (bot s) b1 →
    message_path upd s (Raise (Fault msg))
      {| bot := b1; world := w;
         trace := trace s ++
           [Called (ReplyText (tg.message_id message) prompt_text)
                   (Some msg)] |}
| tracked message txt b1 sent_message_id w1 w0 w :
    tagged upd = Some (message, txt) →
    reply_text E (tg.message_id message) prompt_text (world s) =
      (Returns sent_message_id, w1) →
    swept (bot s) b1 →
    message_path upd s (Ok tt)
      {| bot := registered message txt (now E w0).1 sent_message_id b1;
         world := w;
         trace := trace s ++
           [Called (ReplyText (tg.message_id message) prompt_text) None] |}.

(** What holds of the bot and the trace between any two operations. *)
Definition good (s : Sys W) : Prop :=
  refs_tracked (bot s) ∧ keys_agree (bot s) ∧ once s.


End Specs.

(** ** Further notions: what grows, what is permitted, what a call is about *)

Section Frames.
Context {W : Type} (E : Env W) (cfg : Config).

(** [grown d d']: the object [d'] is [d] with, at most, more reactions
    and [posted] set. *)
Definition grown (d d' : message_data) : Prop :=
  message_id d' = message_id d ∧ chat_id d' = chat_id d ∧
  text d' = text d ∧ media d' = media d ∧ timestamp d' = timestamp d ∧
  reactions d ⊆ reactions d' ∧ (posted d = true → posted d' = true).

(** [extends b b']: every object of [b] is still there in [b'], grown;
    [posted_messages] has lost nothing; the platform clients are the
    same. *)
Definition extends (b b' : CrossPostBot) : Prop :=
  (∀ l d, objects b !! l = Some d →
          ∃ d', objects b' !! l = Some d' ∧ grown d d') ∧
  posted_messages b ⊆ posted_messages b' ∧
  twitter b' = twitter b ∧ bluesky b' = bluesky b ∧ client b' = client b.

(** The two marks of a posted message agree with each other and with
    the trace: an object flagged [posted] has its id in
    [posted_messages], and an id in [posted_messages] is one for which
    [cross_post] was entered. *)
Definition recorded (s : Sys W) : Prop :=
  (∀ l d, objects (bot s) !! l = Some d → posted d = true →
          message_id d ∈ posted_messages (bot s)) ∧
  (∀ id, id ∈ posted_messages (bot s) → dispatches id (trace s) = 1%nat).

(** A call to the client of a platform is permitted when the platform is
    switched on and its client is there. *)
Definition permitted (b : CrossPostBot) (e : event) : Prop :=
  ∀ p, calls p e → enabled cfg b p = true.

(** [concerns d media_file e]: the event [e] of a dispatch is about the
    message [d]: its id, its chat, its media reference, its text, and
    the file [media_file] that the reference resolved to. *)
Definition concerns (d : message_data) (media_file : option File) (e : event)
    : Prop :=
  match e with
  | CrossPost id => id = message_id d
  | Called (GetFile fid) _ => ∃ m, media d = Some m ∧ fid = file_id m
  | Called (SendMessage chat _) _ => chat = chat_id d
  | Called (PostCast t m) _ => t = text d ∧ m = media_file
  | Called (MediaUpload f) _ => media_file = Some f
  | Called (CreateTweet t ids) _ =>
      t = text d ∧ (ids = None ↔ media_file = None)
  | Called (BlueskyPost t) _ => t = text d ∧ media_file = None
  | Called (BlueskyPostWithMedia t f) _ => t = text d ∧ media_file = Some f
  | Called QueryAnswer _ | Called (EditText _ _) _
  | Called (ReplyText _ _) _ => False
  end.

(** [moves w w']: one question or call to the outside takes the world
    from [w] to [w']. *)
Inductive moves : W → W → Prop :=
| moves_now w : moves w (now E w).2
| moves_yield w : moves w (yield E w).2
| moves_answer w : moves w (answer E w).2
| moves_edit_text id txt w : moves w (edit_text E id txt w).2
| moves_reply_text id txt w : moves w (reply_text E id txt w).2
| moves_send_message chat txt w : moves w (send_message E chat txt w).2
| moves_get_file fid w : moves w (get_file E fid w).2
| moves_post_cast txt m w : moves w (post_cast E txt m w).2
| moves_media_upload f w : moves w (media_upload E f w).2
| moves_create_tweet txt ids w : moves w (create_tweet E txt ids w).2
| moves_post txt w : moves w (post E txt w).2
| moves_post_with_media txt f w : moves w (post_with_media E txt f w).2.

(** [after w w']: the world [w'] is [w] at the same time or later, after
    any questions and calls. *)
Definition after : W → W → Prop := rtc moves.

(** A computation that changes the world only by questions and calls to
    the outside. *)
Definition tracks {A} (m : M W A) : Prop :=
  ∀ s, after (world s) (world (m s).2).

(** The users whose presses of the button are among the operations. *)
Definition approvers (ops : list op) : gset Z :=
  list_to_set
    (omap (λ o, match o with
                | Callback query => Some (tg.from_user_id query)
                | _ => None
                end) ops).

(** Every id for which [cross_post] has been entered belongs to an
    object that is flagged as posted and has the required number of
    reactions. *)
Definition endorsed (s : Sys W) : Prop :=
  ∀ id, dispatches id (trace s) ≠ 0%nat →
    ∃ l d, objects (bot s) !! l = Some d ∧ message_id d = id ∧
           posted d = true ∧
           REQUIRED_REACTIONS cfg ≤ Z.of_nat (size (reactions d)).

(** The file that [cross_post] passes to the platform clients for the
    message [d] when it starts in the world [w]. *)
Definition resolved (d : message_data) (w : W) (media_file : option File)
    : Prop :=
  match media d with
  | None => media_file = None
  | Some m =>
      match (get_file E (file_id m) w).1 with
      | Returns f => media_file = Some f
      | Fails _ => True
      end
  end.
End Frames.

(** The platform that a set-up call belongs to. *)
Definition setup_platform (c : setup_call) : platform :=
  match c with
  | NewTwitterClient => Twitter
  | NewAtprotoClient | BlueskyLogin => Bluesky
  | NewWarpcast | GetHealthcheck => Farcaster
  end.

(** Whether a platform is switched on in [PLATFORMS_CONFIG]. *)
Definition switched_on (cfg : Config) (p : platform) : bool :=
  match p with
  | Farcaster => farcaster_enabled (PLATFORMS_CONFIG cfg)
  | Twitter => twitter_enabled (PLATFORMS_CONFIG cfg)
  | Bluesky => bluesky_enabled (PLATFORMS_CONFIG cfg)
  end.

(** ** Example worlds and runs *)

(** A world that only counts the readings of its clock.  The [n]-th
    reading is [clock n]; [sweeps] iterations of the sweeper run whenever
    a handler is suspended; every call returns, except [get_file] when
    [file_fails] and [create_tweet] when [tweet_fails]. *)
Definition scripted (clock : nat → Z) (sweeps : nat)
    (file_fails tweet_fails : bool) : Env nat :=
  {| now := λ w, (clock w, S w);
     yield := λ w, (sweeps, w);
     answer := λ w, (Returns tt, w);
     edit_text := λ _ _ w, (Returns tt, w);
     reply_text := λ id _ w, (Returns (id + 1000), w);
     send_message := λ _ _ w, (Returns tt, w);
     get_file := λ _ w,
       if file_fails then (Fails (lit "file is too big"), w)
       else (Returns 9, w);
     post_cast := λ _ _ w, (Returns tt, w);
     media_upload := λ _ w, (Returns 5, w);
     create_tweet := λ _ _ w,
       if tweet_fails then (Fails (lit "timeout"), w) else (Returns tt, w);
     post := λ _ w, (Returns tt, w);
     post_with_media := λ _ _ w, (Returns tt, w) |}.

(** All three platforms switched on, with the window of the source. *)
Definition all_platforms (required : Z) : Config :=
  {| PLATFORMS_CONFIG :=
       {| twitter_enabled := true; bluesky_enabled := true;
          farcaster_enabled := true |};
     REQUIRED_REACTIONS := required;
     EXPIRATION_HOURS := 2 |}.

Definition tagged_text (id chat : Z) : tg.Update :=
  {| tg.message :=
       Some {| tg.message_id := id; tg.chat_id := chat;
               tg.text := Some (lit "gm #topost");
               tg.photo := []; tg.video := None; tg.animation := None |} |}.

Definition tagged_photo (id chat : Z) : tg.Update :=
  {| tg.message :=
       Some {| tg.message_id := id; tg.chat_id := chat;
               tg.text := Some (lit "gm #topost");
               tg.photo := [lit "small"; lit "large"];
               tg.video := None; tg.animation := None |} |}.

Definition like (prompt user : Z) : tg.CallbackQuery :=
  {| tg.query_message_id := prompt; tg.from_user_id := user |}.

Definition minutes (m : Z) : Z := m * 60000000.

(** Worlds in which the clock stands still at 0: all calls return;
    [get_file] raises; [create_tweet] raises. *)
Definition calm : Env nat := scripted (λ _, 0) 0 false false.
Definition file_fault : Env nat := scripted (λ _, 0) 0 true false.
Definition tweet_fault : Env nat := scripted (λ _, 0) 0 false true.

(** Worlds in which time passes.  The window of two hours closes at 2:00
    and the sweeper runs every five minutes.
    - [steady]: the clock reads 0:00, then 1:30, then 2:05.
    - [just_late]: the clock reads 0:00, then 2:01, then 2:02.
    - [slow]: the clock reads 0:00, then 3:00, then 6:00 and so on. *)
Definition steady : Env nat :=
  scripted (λ n, match n with
                 | O => 0
                 | 1%nat => minutes 90
                 | _ => minutes 125
                 end) 0 false false.
Definition slow : Env nat :=
  scripted (λ n, Z.of_nat n * minutes 180) 0 false false.

(** The same as [calm], with one iteration of the sweeper whenever a
    handler is suspended. *)
Definition busy : Env nat := scripted (λ _, 0) 1 false false.

(** One iteration of the sweeper whenever a handler is suspended, and a
    clock that reads 0:00 twice, then 1:59 twice, then 2:01: a message
    created at 0:00 passes the gate at 1:59 and is swept at 2:01, while
    its handler is suspended inside [cross_post]. *)
Definition racing : Env nat :=
  scripted (λ n, match n with
                 | O | 1%nat => 0
                 | 2%nat | 3%nat => minutes 119
                 | _ => minutes 121
                 end) 1 false false.

(** A bot with all clients that has just tracked message 1 of chat 7,
    with its prompt 1001. *)
Definition one_text (E : Env nat) (cfg : Config) : Sys nat :=
  run E cfg [Message (tagged_text 1 7)] (boot true true true 0%nat).

Definition one_photo (E : Env nat) (cfg : Config) : Sys nat :=
  run E cfg [Message (tagged_photo 1 7)] (boot true true true 0%nat).

(** The same bot after user 42 has pressed the button of the prompt. *)
Definition one_like (E : Env nat) (cfg : Config) : Sys nat :=
  run E cfg [Message (tagged_text 1 7); Callback (like 1001 42)]
    (boot true true true 0%nat).

(** The same as [calm], but [query.answer()] raises. *)
Definition deaf : Env nat :=
  {| now := now calm; yield := yield calm;
     answer := λ w, (Fails (lit "query is too old"), w);
     edit_text := edit_text calm; reply_text := reply_text calm;
     send_message := send_message calm; get_file := get_file calm;
     post_cast := post_cast calm; media_upload := media_upload calm;
     create_tweet := create_tweet calm; post := post calm;
     post_with_media := post_with_media calm |}.

(** The same as [calm], but the upload of media to Twitter raises. *)
Definition upload_fault : Env nat :=
  {| now := now calm; yield := yield calm; answer := answer calm;
     edit_text := edit_text calm; reply_text := reply_text calm;
     send_message := send_message calm; get_file := get_file calm;
     post_cast := post_cast calm;
     media_upload := λ _ w, (Fails (lit "media type unrecognized"), w);
     create_tweet := create_tweet calm; post := post calm;
     post_with_media := post_with_media calm |}.


(** Updates with a text without the tag, and with the tag alone after a
    space. *)
Definition plain_text (id chat : Z) : tg.Update :=
  {| tg.message :=
       Some {| tg.message_id := id; tg.chat_id := chat;
               tg.text := Some (lit "gm");
               tg.photo := []; tg.video := None; tg.animation := None |} |}.

Definition tag_only (id chat : Z) : tg.Update :=
  {| tg.message :=
       Some {| tg.message_id := id; tg.chat_id := chat;
               tg.text := Some (lit " #topost");
               tg.photo := []; tg.video := None; tg.animation := None |} |}.

(** A start-up in which every call returns, except the construction of
    the Farcaster client when [warpcast_fails] and the login to Bluesky
    when [login_fails]. *)
Definition starting (warpcast_fails login_fails : bool) : Setup nat :=
  {| new_twitter_client := λ w, (Returns tt, w);
     new_atproto_client := λ w, (Returns tt, w);
     bluesky_login := λ w,
       if login_fails then (Fails (lit "invalid password"), w)
       else (Returns tt, w);
     new_warpcast := λ w,
       if warpcast_fails then (Fails (lit "invalid mnemonic"), w)
       else (Returns tt, w);
     get_healthcheck := λ w, (Returns tt, w) |}.

Definition nothing_started : Starting nat :=
  {| outside := 0%nat; setup_log := [] |}.

(** A token endpoint that answers every token request with the status
    [status] and the JSON object [data], at a clock that counts the
    seconds it is read; tweets are answered with status 201, and every
    other request fails on the network. *)
Definition token_server (status : Z) (data : twitter.Json)
    : twitter.Net nat :=
  {| twitter.clock := λ w, (Z.of_nat w * 1000000, S w);
     twitter.send := λ r w,
       match r with
       | twitter.PostToken _ _ =>
           (Returns {| twitter.status_code := status;
                       twitter.text := lit "unauthorized";
                       twitter.json := Returns data |}, w)
       | twitter.PostTweet _ _ =>
           (Returns {| twitter.status_code := 201;
                       twitter.text := [];
                       twitter.json :=
                         Returns {[ "id"%string := twitter.VStr (lit "1") ]} |},
            w)
       | _ => (Fails (lit "connection refused"), w)
       end |}.

(** The answer of the token endpoint: a token that lasts an hour. *)
Definition granted : twitter.Json :=
  <[ "expires_in"%string := twitter.VInt 3600 ]>
    {[ "access_token"%string := twitter.VStr (lit "abc") ]}.

(** The same answer with a lifetime of 10^15 seconds, more than a
    [timedelta] holds. *)
Definition granted_for_ever : twitter.Json :=
  <[ "expires_in"%string := twitter.VInt 1000000000000000 ]> granted.

(** A new object, and the same object after its first [get_headers]. *)
Definition new_api : twitter.State nat :=
  twitter.fresh_api (lit "id") (lit "secret") 0%nat.

Definition authorized : twitter.State nat :=
  (twitter.get_headers (token_server 200 granted) new_api).2.

(** * Properties *)

Section Proofs.
Context {W : Type} (E : Env W) (cfg : Config).

Implicit Types (s : Sys W) (b : CrossPostBot) (t : list event).

(** ** Rules for [wp] *)

Lemma wp_mono {A} (m : M W A) (Q Q' : outcome A → Sys W → Prop) s :
  wp m Q s → (∀ r s', Q r s' → Q' r s') → wp m Q' s.
Proof. unfold wp. auto. Qed.

Lemma wp_ret {A} (a : A) Q s : Q (Ok a) s → wp (ret a) Q s.
Proof. done. Qed.

Lemma wp_raise {A} e (Q : outcome A → Sys W → Prop) s :
  Q (Raise e) s → wp (raise e) Q s.
Proof. done. Qed.

Lemma wp_bind {A B} (m : M W A) (f : A → M W B) Q s :
  wp m (λ r s', match r with
                | Ok a => wp (f a) Q s'
                | Raise e => Q (Raise e) s'
                end) s →
  wp (bind m f) Q s.
Proof. unfold wp, bind. by destruct (m s) as [[a|e] s']. Qed.

Lemma wp_try {A} (m : M W A) (h : exn → M W A) Q s :
  wp m (λ r s', match r with
                | Ok a => Q (Ok a) s'
                | Raise e => wp (h e) Q s'
                end) s →
  wp (try_except m h) Q s.
Proof. unfold wp, try_except. by destruct (m s) as [[a|e] s']. Qed.

Lemma wp_gets {A} (f : CrossPostBot → A) Q s :
  Q (Ok (f (bot s))) s → wp (gets f) Q s.
Proof. done. Qed.

Lemma wp_modify f (Q : outcome unit → Sys W → Prop) s :
  Q (Ok tt) {| bot := f (bot s); world := world s; trace := trace s |} →
  wp (modify f) Q s.
Proof. done. Qed.

Lemma wp_emit e (Q : outcome unit → Sys W → Prop) s :
  Q (Ok tt) {| bot := bot s; world := world s; trace := trace s ++ [e] |} →
  wp (emit e) Q s.
Proof. done. Qed.

Lemma wp_ask {A} (o : W → A * W) Q s :
  Q (Ok (o (world s)).1)
    {| bot := bot s; world := (o (world s)).2; trace := trace s |} →
  wp (ask o) Q s.
Proof. unfold wp, ask. by destruct (o (world s)). Qed.

Lemma wp_invoke {A} c (o : W → reply A * W) Q s :
  (∀ a w, o (world s) = (Returns a, w) →
     Q (Ok a) {| bot := bot s; world := w;
                 trace := trace s ++ [Called c None] |}) →
  (∀ msg w, o (world s) = (Fails msg, w) →
     Q (Raise (Fault msg))
       {| bot := bot s; world := w;
          trace := trace s ++ [Called c (Some msg)] |}) →
  wp (invoke c o) Q s.
Proof.
  intros Hok Hfail. unfold wp, invoke.
  destruct (o (world s)) as [[a|msg] w] eqn:Ho; simpl; auto.
Qed.

Lemma wp_field {A} l (f : message_data → A) Q s :
  Q (Ok (f (objects (bot s) !!! l))) s → wp (field l f) Q s.
Proof. done. Qed.

Lemma wp_getitem {V} (d : gmap Z V) k Q s :
  (∀ v, d !! k = Some v → Q (Ok v) s) →
  (d !! k = None → Q (Raise (KeyError k)) s) →
  wp (getitem d k) Q s.
Proof.
  intros Hsome Hnone. unfold getitem.
  destruct (d !! k) as [v|]; [by apply wp_ret, Hsome | by apply wp_raise, Hnone].
Qed.

(** Closes a goal whose hypotheses disagree on membership in a list and
    in the same list with one more element in front. *)
Ltac cons_contra :=
  exfalso;
  match goal with
  | N : ?x ∉ _ :: ?l, H : ?x ∈ ?l |- _ => apply N; by right
  | H : ?x ∈ _ :: ?l, N : ?x ∉ ?l |- _ =>
      apply elem_of_cons in H as [H|H]; [congruence | done]
  end.

(** ** The sweeper *)

Lemma forget_prompts_lookup id (rm : gmap Z Z) p :
  forget_prompts id rm !! p =
  if decide (rm !! p = Some id) then None else rm !! p.
Proof.
  unfold forget_prompts.
  assert (Hgen : ∀ (items : list (Z * Z)) (acc : gmap Z Z),
    foldl (λ acc item, if decide (item.2 = id)
                       then delete item.1 acc else acc) acc items !! p =
    if decide ((p, id) ∈ items) then None else acc !! p).
  { induction items as [|[k o] items IH]; intros acc; simpl.
    - done.
    - rewrite IH. destruct (decide (o = id)) as [->|Hne].
      + destruct (decide (k = p)) as [->|Hkp].
        * rewrite lookup_delete_eq.
          rewrite (decide_True (P := (p, id) ∈ (p, id) :: items)) by left.
          by case_decide.
        * rewrite lookup_delete_ne by done.
          destruct (decide ((p, id) ∈ items)) as [?|?], (decide ((p, id) ∈ (k, id) :: items)) as [?|?];
            try done; cons_contra.
      + destruct (decide ((p, id) ∈ items)) as [?|?], (decide ((p, id) ∈ (k, o) :: items)) as [?|?];
          try done; cons_contra. }
  rewrite Hgen.
  destruct (decide ((p, id) ∈ map_to_list rm)) as [Hin|Hin],
           (decide (rm !! p = Some id)) as [Hp|Hp]; try done.
  - exfalso. by apply elem_of_map_to_list in Hin.
  - exfalso. by apply elem_of_map_to_list in Hp.
Qed.

Lemma elem_of_expired_messages ct b id :
  id ∈ expired_messages cfg ct b ↔
  ∃ l, tracked_messages b !! id = Some l ∧
       expired cfg ct (objects b !!! l) = true.
Proof.
  unfold expired_messages. rewrite list_elem_of_fmap. split.
  - intros [[k l] [-> Hin]]. apply list_elem_of_filter in Hin as [Hexp Hin].
    apply elem_of_map_to_list in Hin. simpl in *.
    exists l. split; [done | by apply Is_true_true].
  - intros (l & Hl & Hexp). exists (id, l). split; [done |].
    apply list_elem_of_filter. split; [by apply Is_true_true |].
    by apply elem_of_map_to_list.
Qed.

Lemma remove_all_spec (ids : list Z) b :
  let b' := foldl remove_message b ids in
  objects b' = objects b ∧
  posted_messages b' = posted_messages b ∧
  twitter b' = twitter b ∧ bluesky b' = bluesky b ∧ client b' = client b ∧
  (∀ k, tracked_messages b' !! k =
        if decide (k ∈ ids) then None else tracked_messages b !! k) ∧
  (∀ p, reaction_messages b' !! p =
        match reaction_messages b !! p with
        | Some o => if decide (o ∈ ids) then None else Some o
        | None => None
        end).
Proof.
  revert b. induction ids as [|id ids IH]; intros b; simpl.
  - repeat split; try done.
    intros p. by destruct (reaction_messages b !! p).
  - destruct (IH (remove_message b id)) as (Ho & Hp & Htw & Hbs & Hcl & Ht & Hr).
    repeat split; try done.
    + intros k. rewrite Ht. simpl.
      destruct (decide (k = id)) as [->|Hne].
      * rewrite lookup_delete_eq.
        rewrite (decide_True (P := id ∈ id :: ids)) by left.
        by case_decide.
      * rewrite lookup_delete_ne by done.
        destruct (decide (k ∈ ids)) as [?|?], (decide (k ∈ id :: ids)) as [?|?];
          try done; cons_contra.
    + intros p. rewrite Hr. simpl. rewrite forget_prompts_lookup.
      destruct (reaction_messages b !! p) as [o|] eqn:Hp'.
      * destruct (decide (o = id)) as [->|Hne].
        -- rewrite decide_True by done.
           by rewrite (decide_True (P := id ∈ id :: ids)) by left.
        -- rewrite decide_False by congruence.
           destruct (decide (o ∈ ids)) as [?|?], (decide (o ∈ id :: ids)) as [?|?];
             try done; cons_contra.
      * by rewrite decide_False by done.
Qed.

Lemma cleanup_at_spec ct b :
  let b' := cleanup_at cfg ct b in
  objects b' = objects b ∧
  posted_messages b' = posted_messages b ∧
  twitter b' = twitter b ∧ bluesky b' = bluesky b ∧ client b' = client b ∧
  (∀ k, tracked_messages b' !! k =
        match tracked_messages b !! k with
        | Some l => if expired cfg ct (objects b !!! l) then None else Some l
        | None => None
        end) ∧
  (∀ p, reaction_messages b' !! p =
        match reaction_messages b !! p with
        | Some o =>
            match tracked_messages b !! o with
            | Some l =>
                if expired cfg ct (objects b !!! l) then None else Some o
            | None => Some o
            end
        | None => None
        end).
Proof.
  unfold cleanup_at.
  destruct (remove_all_spec (expired_messages cfg ct b) b)
    as (Ho & Hp & Htw & Hbs & Hcl & Ht & Hr).
  assert (Hdec : ∀ k, if decide (k ∈ expired_messages cfg ct b)
    then ∃ l, tracked_messages b !! k = Some l ∧
              expired cfg ct (objects b !!! l) = true
    else ∀ l, tracked_messages b !! k = Some l →
              expired cfg ct (objects b !!! l) = false).
  { intros k. case_decide as Hin.
    - by apply elem_of_expired_messages.
    - intros l Hl. apply not_true_is_false. intros Hexp.
      apply Hin, elem_of_expired_messages. eauto. }
  repeat split; try done.
  - intros k. rewrite Ht. specialize (Hdec k).
    destruct (decide (k ∈ expired_messages cfg ct b)).
    + destruct Hdec as (l & -> & ->). done.
    + destruct (tracked_messages b !! k) as [l|]; [|done].
      by rewrite (Hdec l).
  - intros p. rewrite Hr.
    destruct (reaction_messages b !! p) as [o|]; [|done].
    specialize (Hdec o).
    destruct (decide (o ∈ expired_messages cfg ct b)).
    + destruct Hdec as (l & -> & ->). done.
    + destruct (tracked_messages b !! o) as [l|]; [|done].
      by rewrite (Hdec l).
Qed.

(** The sweeper never deletes a key that is not there. *)
Lemma forget_prompts_del_ok id (rm : gmap Z Z) :
  forget_prompts_del id (map_to_list rm) rm = Some (forget_prompts id rm).
Proof.
  unfold forget_prompts.
  assert (Hgen : ∀ (items : list (Z * Z)) (acc : gmap Z Z),
    NoDup items.*1 →
    (∀ k o, (k, o) ∈ items → is_Some (acc !! k)) →
    forget_prompts_del id items acc =
    Some (foldl (λ acc item, if decide (item.2 = id)
                             then delete item.1 acc else acc) acc items)).
  { induction items as [|[k o] items IH]; intros acc Hnodup Hin; [done |].
    apply NoDup_cons in Hnodup as [Hk Hnodup]. simpl in *.
    destruct (decide (o = id)) as [->|Hne].
    - unfold del. destruct (Hin k id) as [v ->]; [by left |].
      apply IH; [done |]. intros k' o' Hin'.
      rewrite lookup_delete_ne; [apply (Hin k' o'); by right |].
      intros ->. apply Hk. apply list_elem_of_fmap. by exists (k', o').
    - apply IH; [done |]. intros k' o' Hin'. apply (Hin k' o'). by right. }
  apply Hgen; [apply NoDup_fst_map_to_list |].
  intros k o Hin. apply elem_of_map_to_list in Hin. eauto.
Qed.

Lemma cleanup_del_ok ct b :
  cleanup_del (expired_messages cfg ct b) b = Some (cleanup_at cfg ct b).
Proof.
  unfold cleanup_at.
  assert (Hgen : ∀ ids b0,
    NoDup ids →
    (∀ id, id ∈ ids → is_Some (tracked_messages b0 !! id)) →
    cleanup_del ids b0 = Some (foldl remove_message b0 ids)).
  { induction ids as [|id ids IH]; intros b0 Hnodup Hin; [done |].
    apply NoDup_cons in Hnodup as [Hid Hnodup]. simpl.
    rewrite forget_prompts_del_ok. unfold del.
    destruct (Hin id) as [l ->]; [by left |].
    apply IH; [done |]. intros id' Hin'. simpl.
    rewrite lookup_delete_ne; [apply Hin; by right | by intros ->]. }
  apply Hgen.
  - unfold expired_messages. apply NoDup_fmap_fst.
    + intros k l1 l2 [_ H1]%list_elem_of_filter [_ H2]%list_elem_of_filter.
      apply elem_of_map_to_list in H1, H2. congruence.
    + apply NoDup_filter, NoDup_map_to_list.
  - intros id Hin. apply elem_of_expired_messages in Hin as (l & -> & _). eauto.
Qed.

Lemma cleanup_at_refs_tracked ct b :
  refs_tracked b → refs_tracked (cleanup_at cfg ct b).
Proof.
  intros Hrefs p id.
  destruct (cleanup_at_spec ct b) as (_ & _ & _ & _ & _ & Ht & Hr).
  rewrite Hr, Ht.
  destruct (reaction_messages b !! p) as [o|] eqn:Hp; [|done].
  destruct (Hrefs p o Hp) as [l Hl]. rewrite Hl.
  destruct (expired cfg ct (objects b !!! l)) eqn:Hexp; [done |].
  intros [= <-]. rewrite Hl, Hexp. eauto.
Qed.

Lemma cleanup_at_keys_agree ct b :
  keys_agree b → keys_agree (cleanup_at cfg ct b).
Proof.
  intros Hkeys id l.
  destruct (cleanup_at_spec ct b) as (Ho & _ & _ & _ & _ & Ht & _).
  rewrite Ht, Ho.
  destruct (tracked_messages b !! id) as [l'|] eqn:Hid; [|done].
  destruct (expired cfg ct (objects b !!! l')); [done |].
  intros [= <-]. by apply Hkeys.
Qed.

(** What any number of sweeper iterations leaves alone. *)
Lemma swept_frame b b' :
  swept cfg b b' →
  objects b' = objects b ∧
  posted_messages b' = posted_messages b ∧
  twitter b' = twitter b ∧ bluesky b' = bluesky b ∧ client b' = client b ∧
  (∀ k l, tracked_messages b' !! k = Some l →
          tracked_messages b !! k = Some l) ∧
  (∀ p o, reaction_messages b' !! p = Some o →
          reaction_messages b !! p = Some o).
Proof.
  induction 1 as [b|ct b b' _ IH]; [done |].
  destruct IH as (Ho & Hp & Htw & Hbs & Hcl & Ht & Hr).
  destruct (cleanup_at_spec ct b) as (Ho' & Hp' & Htw' & Hbs' & Hcl' & Ht' & Hr').
  repeat split; try congruence.
  - intros k l Hk. apply Ht in Hk. rewrite Ht' in Hk.
    destruct (tracked_messages b !! k) as [l'|]; [|done].
    by destruct (expired cfg ct (objects b !!! l')).
  - intros p o Hpo. apply Hr in Hpo. rewrite Hr' in Hpo.
    destruct (reaction_messages b !! p) as [o'|]; [|done].
    destruct (tracked_messages b !! o') as [l'|]; [|done].
    by destruct (expired cfg ct (objects b !!! l')).
Qed.

Lemma swept_trans b1 b2 b3 :
  swept cfg b1 b2 → swept cfg b2 b3 → swept cfg b1 b3.
Proof.
  induction 1 as [|ct b b' _ IH]; [done |].
  intros H3. eapply swept_step. by apply IH.
Qed.

Lemma swept_refs_tracked b b' :
  swept cfg b b' → refs_tracked b → refs_tracked b'.
Proof.
  induction 1 as [|ct b b' _ IH]; [done |].
  intros Hrefs. by apply IH, cleanup_at_refs_tracked.
Qed.

Lemma swept_keys_agree b b' :
  swept cfg b b' → keys_agree b → keys_agree b'.
Proof.
  induction 1 as [|ct b b' _ IH]; [done |].
  intros Hkeys. by apply IH, cleanup_at_keys_agree.
Qed.

(** ** Rules for the sweeper and for [await] *)

Lemma wp_cleanup_expired (Q : outcome unit → Sys W → Prop) s :
  (∀ ct w, Q (Ok tt) {| bot := cleanup_at cfg ct (bot s); world := w;
                        trace := trace s |}) →
  wp (cleanup_expired E cfg) Q s.
Proof.
  intros HQ. unfold cleanup_expired.
  apply wp_bind, wp_ask. simpl. apply wp_modify. simpl. apply HQ.
Qed.

Lemma times_cleanup_spec n s :
  ∃ b' w, times n (cleanup_expired E cfg) s =
            (Ok tt, {| bot := b'; world := w; trace := trace s |}) ∧
          swept cfg (bot s) b'.
Proof.
  revert s. induction n as [|n IH]; intros s; simpl.
  - exists (bot s), (world s). split; [by destruct s | constructor].
  - unfold bind at 1. unfold cleanup_expired at 1.
    unfold bind at 1, ask, modify.
    destruct (now E (world s)) as [ct w1]. simpl.
    destruct (IH {| bot := cleanup_at cfg ct (bot s); world := w1;
                    trace := trace s |}) as (b' & w & -> & Hswept).
    exists b', w. split; [done |]. by eapply swept_step.
Qed.

Lemma suspend_spec s :
  ∃ b' w, suspend E cfg s =
            (Ok tt, {| bot := b'; world := w; trace := trace s |}) ∧
          swept cfg (bot s) b'.
Proof.
  unfold suspend, bind, ask.
  destruct (yield E (world s)) as [n w1].
  destruct (times_cleanup_spec n {| bot := bot s; world := w1;
                                    trace := trace s |})
    as (b' & w & -> & Hswept).
  by exists b', w.
Qed.

Lemma wp_await {A} c (o : W → reply A * W) Q s :
  (∀ a w1 b' w, o (world s) = (Returns a, w1) → swept cfg (bot s) b' →
     Q (Ok a) {| bot := b'; world := w;
                 trace := trace s ++ [Called c None] |}) →
  (∀ msg w1 b' w, o (world s) = (Fails msg, w1) → swept cfg (bot s) b' →
     Q (Raise (Fault msg))
       {| bot := b'; world := w;
          trace := trace s ++ [Called c (Some msg)] |}) →
  wp (await E cfg c o) Q s.
Proof.
  intros Hok Hfail. unfold wp, await, invoke.
  destruct (o (world s)) as [[a|msg] w1] eqn:Ho.
  - destruct (suspend_spec {| bot := bot s; world := w1;
                              trace := trace s ++ [Called c None] |})
      as (b' & w & -> & Hswept).
    simpl. by eapply Hok.
  - destruct (suspend_spec {| bot := bot s; world := w1;
                              trace := trace s ++ [Called c (Some msg)] |})
      as (b' & w & -> & Hswept).
    simpl. by eapply Hfail.
Qed.

(** ** Symbolic execution *)

Ltac wp_simpl :=
  cbn [bot world trace fst snd objects tracked_messages posted_messages
       reaction_messages twitter bluesky client set_objects
       set_tracked_messages set_posted_messages set_reaction_messages] in *.

(** Brings two traces to the same shape before they are compared. *)
Ltac same_trace H :=
  rewrite <- ?app_assoc in H; rewrite <- ?app_assoc;
  cbn [app] in H; cbn [app]; exact H.

Ltac wp_step :=
  lazymatch goal with
  | |- wp (bind _ _) _ _ => apply wp_bind
  | |- wp (ret _) _ _ => apply wp_ret
  | |- wp (raise _) _ _ => apply wp_raise
  | |- wp (try_except _ _) _ _ => apply wp_try
  | |- wp (gets _) _ _ => apply wp_gets
  | |- wp (modify _) _ _ => apply wp_modify
  | |- wp (update _ _) _ _ => apply wp_modify
  | |- wp (emit _) _ _ => apply wp_emit
  | |- wp (ask _) _ _ => apply wp_ask
  | |- wp (field _ _) _ _ => apply wp_field
  | |- wp (invoke _ _) _ _ => apply wp_invoke; intros
  | |- wp (await _ _ _ _) _ _ => apply wp_await; intros
  | |- wp (getitem _ _) _ _ => apply wp_getitem; intros
  end;
  repeat match goal with u : unit |- _ => destruct u end;
  wp_simpl.

Lemma wp_notify_group chat message (Q : outcome unit → Sys W → Prop) s :
  (∀ err b' w, swept cfg (bot s) b' →
     Q (Ok tt) {| bot := b'; world := w;
                  trace := trace s ++
                           [Called (SendMessage chat message) err] |}) →
  wp (notify_group E cfg chat message) Q s.
Proof.
  intros HQ. unfold notify_group. wp_step. wp_step.
  - by apply HQ.
  - wp_step. by apply HQ.
Qed.

Lemma wp_post_farcaster l mf st (Q : outcome (list str) → Sys W → Prop) s :
  (∀ evs w, block cfg (bot s) Farcaster evs →
     Q (Ok (st ++ block_lines cfg (bot s) Farcaster evs))
       {| bot := bot s; world := w; trace := trace s ++ evs |}) →
  wp (post_farcaster E cfg l mf st) Q s.
Proof.
  intros HQ. unfold post_farcaster. wp_step. wp_step.
  specialize (HQ) as HQ'. unfold block, block_lines, enabled in HQ'.
  destruct (farcaster_enabled (PLATFORMS_CONFIG cfg) && client (bot s)).
  - wp_step. wp_step. wp_step. wp_step. wp_step.
    + wp_step. apply (HQ' [Called _ None]).
      split; [by repeat constructor | done].
    + wp_step. apply (HQ' [Called _ (Some msg)]).
      split; [by repeat constructor | done].
  - wp_step. specialize (HQ' [] (world s)).
    rewrite !app_nil_r in HQ'. destruct s. by apply HQ'.
Qed.

Lemma wp_post_twitter l mf st (Q : outcome (list str) → Sys W → Prop) s :
  (∀ evs w, block cfg (bot s) Twitter evs →
     Q (Ok (st ++ block_lines cfg (bot s) Twitter evs))
       {| bot := bot s; world := w; trace := trace s ++ evs |}) →
  wp (post_twitter E cfg l mf st) Q s.
Proof.
  intros HQ. unfold post_twitter. wp_step. wp_step.
  specialize (HQ) as HQ'. unfold block, block_lines, enabled in HQ'.
  destruct (twitter_enabled (PLATFORMS_CONFIG cfg) && twitter (bot s)).
  - wp_step. wp_step. destruct mf as [f|].
    + wp_step. wp_step.
      * wp_step. wp_step. wp_step. wp_step. wp_step.
        -- wp_step. rewrite <- app_assoc.
           apply (HQ' [Called _ None; Called _ None]).
           split; [by repeat constructor | done].
        -- wp_step. rewrite <- app_assoc.
           apply (HQ' [Called _ None; Called _ (Some msg)]).
           split; [by repeat constructor | done].
      * wp_step. apply (HQ' [Called _ (Some msg)]).
        split; [by repeat constructor | done].
    + wp_step. wp_step. wp_step. wp_step. wp_step.
      * wp_step. apply (HQ' [Called _ None]).
        split; [by repeat constructor | done].
      * wp_step. apply (HQ' [Called _ (Some msg)]).
        split; [by repeat constructor | done].
  - wp_step. specialize (HQ' [] (world s)).
    rewrite !app_nil_r in HQ'. destruct s. by apply HQ'.
Qed.

Lemma wp_post_bluesky l mf st (Q : outcome (list str) → Sys W → Prop) s :
  (∀ evs w, block cfg (bot s) Bluesky evs →
     Q (Ok (st ++ block_lines cfg (bot s) Bluesky evs))
       {| bot := bot s; world := w; trace := trace s ++ evs |}) →
  wp (post_bluesky E cfg l mf st) Q s.
Proof.
  intros HQ. unfold post_bluesky. wp_step. wp_step.
  specialize (HQ) as HQ'. unfold block, block_lines, enabled in HQ'.
  destruct (bluesky_enabled (PLATFORMS_CONFIG cfg) && bluesky (bot s)).
  - wp_step. wp_step. wp_step. wp_step. destruct mf as [f|].
    + wp_step.
      * wp_step. apply (HQ' [Called _ None]).
        split; [by repeat constructor | done].
      * wp_step. apply (HQ' [Called _ (Some msg)]).
        split; [by repeat constructor | done].
    + wp_step.
      * wp_step. apply (HQ' [Called _ None]).
        split; [by repeat constructor | done].
      * wp_step. apply (HQ' [Called _ (Some msg)]).
        split; [by repeat constructor | done].
  - wp_step. specialize (HQ' [] (world s)).
    rewrite !app_nil_r in HQ'. destruct s. by apply HQ'.
Qed.

(** The fan-out makes the calls of the three blocks in their order and
    then sends the report assembled from their lines. *)
Lemma wp_fan_out l chat mf (Q : outcome unit → Sys W → Prop) s :
  (∀ evF evT evB err b' w,
     block cfg (bot s) Farcaster evF →
     block cfg (bot s) Twitter evT →
     block cfg (bot s) Bluesky evB →
     swept cfg (bot s) b' →
     Q (Ok tt)
       {| bot := b'; world := w;
          trace := trace s ++ (evF ++ evT ++ evB) ++
            [Called (SendMessage chat
               (final_report (block_lines cfg (bot s) Farcaster evF ++
                              block_lines cfg (bot s) Twitter evT ++
                              block_lines cfg (bot s) Bluesky evB))) err] |}) →
  wp (fan_out E cfg l chat mf) Q s.
Proof.
  intros HQ. unfold fan_out.
  wp_step. apply wp_post_farcaster. intros evF w1 HF. wp_simpl.
  wp_step. apply wp_post_twitter. intros evT w2 HT. wp_simpl.
  wp_step. apply wp_post_bluesky. intros evB w3 HB. wp_simpl.
  apply wp_notify_group. intros err b' w Hswept. wp_simpl.
  rewrite <- !app_assoc. simpl app at 3.
  specialize (HQ evF evT evB err b' w HF HT HB Hswept).
  by rewrite <- !app_assoc in HQ.
Qed.

Lemma swept_enabled b b' p : swept cfg b b' → enabled cfg b' p = enabled cfg b p.
Proof.
  intros Hswept.
  destruct (swept_frame _ _ Hswept) as (_ & _ & Htw & Hbs & Hcl & _).
  unfold enabled. by rewrite Htw, Hbs, Hcl.
Qed.

Lemma swept_block b b' p evs :
  swept cfg b b' → block cfg b' p evs → block cfg b p evs.
Proof. intros Hswept. unfold block. by rewrite (swept_enabled _ _ _ Hswept). Qed.

Lemma swept_block_lines b b' p evs :
  swept cfg b b' → block_lines cfg b' p evs = block_lines cfg b p evs.
Proof. intros Hswept. unfold block_lines. by rewrite (swept_enabled _ _ _ Hswept). Qed.

Lemma swept_objects b b' : swept cfg b b' → objects b' = objects b.
Proof. intros Hswept. by destruct (swept_frame _ _ Hswept) as (? & _). Qed.

(** The two ways through [cross_post]: the media reference, if there is
    one, resolves and the fan-out runs to its report; or [get_file]
    raises and only the general error is notified. *)
Lemma wp_cross_post l (Q : outcome unit → Sys W → Prop) s :
  let d := objects (bot s) !!! l in
  (∀ pre evF evT evB err0 err b' w,
     match media d with
     | None => pre = []
     | Some m => (∃ f w1, get_file E (file_id m) (world s) = (Returns f, w1)) ∧
                 pre = [Called (GetFile (file_id m)) None]
     end →
     block cfg (bot s) Farcaster evF →
     block cfg (bot s) Twitter evT →
     block cfg (bot s) Bluesky evB →
     swept cfg (bot s) b' →
     Q (Ok tt)
       {| bot := b'; world := w;
          trace := trace s ++ [CrossPost (message_id d)] ++ pre ++
            [Called (SendMessage (chat_id d) initiating) err0] ++
            (evF ++ evT ++ evB) ++
            [Called (SendMessage (chat_id d)
               (final_report (block_lines cfg (bot s) Farcaster evF ++
                              block_lines cfg (bot s) Twitter evT ++
                              block_lines cfg (bot s) Bluesky evB))) err] |}) →
  (∀ m msg w1 err b' w,
     media d = Some m →
     get_file E (file_id m) (world s) = (Fails msg, w1) →
     swept cfg (bot s) b' →
     Q (Ok tt)
       {| bot := b'; world := w;
          trace := trace s ++
            [CrossPost (message_id d);
             Called (GetFile (file_id m)) (Some msg);
             Called (SendMessage (chat_id d) (general_error (Fault msg)))
                    err] |}) →
  wp (cross_post E cfg l) Q s.
Proof.
  intros d Hdone Hfault. unfold cross_post.
  do 8 wp_step. unfold resolve_media. do 2 wp_step. fold d.
  destruct (media d) as [m|] eqn:Hmedia.
  - wp_step. wp_step.
    + rename H into Hfile, H0 into H01.
      wp_step. wp_step. apply wp_notify_group. intros err0 b2 w2 H12. wp_simpl.
      apply wp_fan_out. intros evF evT evB err b3 w3 HF HT HB H23. wp_simpl.
      assert (H02 : swept cfg (bot s) b2) by (by eapply swept_trans).
      assert (H03 : swept cfg (bot s) b3) by (by eapply swept_trans).
      rewrite !(swept_block_lines _ _ _ _ H02).
      apply (swept_block _ _ _ _ H02) in HF, HT, HB.
      assert (HQ := Hdone [Called (GetFile (file_id m)) None]
                      evF evT evB err0 err b3 w3
                      (conj (ex_intro _ a (ex_intro _ w1 Hfile)) eq_refl)
                      HF HT HB H03).
      same_trace HQ.
    + rename H into Hfile, H0 into H01.
      apply wp_notify_group. intros err b2 w2 H12. wp_simpl.
      assert (H02 : swept cfg (bot s) b2) by (by eapply swept_trans).
      assert (HQ := Hfault m msg w1 err b2 w2 eq_refl Hfile H02).
      same_trace HQ.
  - wp_step. wp_step. apply wp_notify_group. intros err0 b2 w2 H12. wp_simpl.
    apply wp_fan_out. intros evF evT evB err b3 w3 HF HT HB H23. wp_simpl.
    assert (H03 : swept cfg (bot s) b3) by (by eapply swept_trans).
    rewrite !(swept_block_lines _ _ _ _ H12).
    apply (swept_block _ _ _ _ H12) in HF, HT, HB.
    assert (HQ := Hdone [] evF evT evB err0 err b3 w3 eq_refl HF HT HB H03).
    same_trace HQ.
Qed.

(** ** The report *)




Lemma block_calls b p evs : block cfg b p evs → Forall (calls p) evs.
Proof.
  unfold block. destruct (enabled cfg b p); [by intros [? _] | by intros ->].
Qed.




(** ** The dispatcher *)

Lemma notify_group_ok chat message s :
  (notify_group E cfg chat message s).1 = Ok tt.
Proof.
  change (wp (notify_group E cfg chat message) (λ r _, r = Ok tt) s).
  apply wp_notify_group. done.
Qed.

Lemma cross_post_ok l s : (cross_post E cfg l s).1 = Ok tt.
Proof.
  change (wp (cross_post E cfg l) (λ r _, r = Ok tt) s).
  apply wp_cross_post; done.
Qed.

(** When [get_file] raises, the trace of [cross_post] is the entry, the
    failed call and the notification of the general error. *)
Lemma cross_post_fault l s m msg w1 :
  let d := objects (bot s) !!! l in
  media d = Some m →
  get_file E (file_id m) (world s) = (Fails msg, w1) →
  ∃ err,
    trace (cross_post E cfg l s).2 =
      trace s ++ [CrossPost (message_id d);
                  Called (GetFile (file_id m)) (Some msg);
                  Called (SendMessage (chat_id d) (general_error (Fault msg)))
                         err] ∧
    swept cfg (bot s) (bot (cross_post E cfg l s).2).
Proof.
  intros d Hmedia Hfile.
  change (wp (cross_post E cfg l)
            (λ _ s', ∃ err,
               trace s' =
                 trace s ++ [CrossPost (message_id d);
                             Called (GetFile (file_id m)) (Some msg);
                             Called (SendMessage (chat_id d)
                                       (general_error (Fault msg))) err] ∧
               swept cfg (bot s) (bot s')) s).
  apply wp_cross_post; fold d.
  - intros pre evF evT evB err0 err b' w Hpre _ _ _ _.
    rewrite Hmedia in Hpre. destruct Hpre as [(f & w2 & Hf) _]. congruence.
  - intros m' msg' w2 err b' w Hm' Hf' Hswept.
    assert (m' = m) as -> by congruence.
    assert (msg' = msg) as -> by congruence.
    by exists err.
Qed.


(** ** The handlers follow their paths *)

Lemma block_is_call b p evs : block cfg b p evs → Forall is_call evs.
Proof.
  intros Hblock. apply block_calls in Hblock.
  eapply Forall_impl; [exact Hblock |]. by intros [c err|].
Qed.

Lemma handle_callback_path query s :
  callback_path E cfg (tg.query_message_id query) (tg.from_user_id query)
    (bot s) (trace s)
    (handle_callback E cfg query s).1 (handle_callback E cfg query s).2.
Proof.
  set (p := tg.query_message_id query). set (u := tg.from_user_id query).
  change (wp (handle_callback E cfg query)
            (callback_path E cfg p u (bot s) (trace s)) s).
  unfold handle_callback. fold p u.
  wp_step. apply wp_await; [intros [] w1 b1 w _ H01 | intros msg w1 b1 w _ H01];
    wp_simpl; [|by apply answer_fault].
  wp_step. wp_step.
  destruct (reaction_messages b1 !! p) as [id|] eqn:Hp;
    [|wp_step; by apply unknown_prompt].
  do 3 wp_step.
  apply wp_getitem; [intros l Hid | intros Hid]; wp_simpl;
    [|by eapply untracked].
  wp_step. wp_step.
  destruct (bool_decide (u ∈ reactions (objects b1 !!! l))) eqn:Hseen.
  { wp_step. apply bool_decide_eq_true in Hseen. by eapply duplicate. }
  apply bool_decide_eq_false in Hseen.
  wp_step. wp_step. fold (approved u l b1).
  wp_step. wp_step.
  change (Z.of_nat (size (reactions (objects (approved u l b1) !!! l))))
    with (reaction_count l (approved u l b1)).
  change (REQUIRED_REACTIONS cfg - reaction_count l (approved u l b1))
    with (remaining cfg l (approved u l b1)).
  set (b2 := approved u l b1). set (n := remaining cfg l b2).
  set (count := reaction_count l b2).
  match goal with
  | |- wp (bind _ ?k) ?Q _ =>
      assert (Hrest : ∀ b3 evs w',
        edited cfg p n b2 b3 evs →
        wp (k tt) Q {| bot := b3; world := w';
                       trace := (trace s ++ [Called QueryAnswer None]) ++ evs |})
  end.
  { intros b3 evs w' Hedit. do 4 wp_step.
    fold (gate_open cfg id l count b3).
    destruct (gate_open cfg id l count b3) eqn:Hgate.
    - do 4 wp_step.
      destruct (Z.leb_spec ((now E w').1 - timestamp (objects b3 !!! l))
                  (timedelta_hours (EXPIRATION_HOURS cfg))) as [Hage|Hage].
      + wp_step.
        assert (Hpub : ∀ evs' b4 w4, Forall is_call evs' → swept cfg b3 b4 →
          wp (update l (set_posted true) ;;;
              modify (set_posted_messages (union {[id]})) ;;;
              await E cfg (EditText p crossposted_text)
                (edit_text E p crossposted_text))
             (callback_path E cfg p u (bot s) (trace s))
             {| bot := b4; world := w4;
                trace := ((trace s ++ [Called QueryAnswer None]) ++ evs) ++
                         CrossPost (message_id (objects b3 !!! l)) :: evs' |}).
        { intros evs' b4 w4 Hcalls H34. do 4 wp_step.
          fold (marked id l b4).
          apply wp_await; [intros [] w5 b6 w6 _ H56 | intros msg w5 b6 w6 _ H56];
            wp_simpl.
          - assert (HQ := published E cfg p u (bot s) (trace s) id l b1 b3 evs
                            w' b4 evs' b6 None w6 H01 Hp Hid Hseen Hedit Hgate
                            Hage H34 Hcalls H56).
            same_trace HQ.
          - assert (HQ := published E cfg p u (bot s) (trace s) id l b1 b3 evs
                            w' b4 evs' b6 (Some msg) w6 H01 Hp Hid Hseen Hedit
                            Hgate Hage H34 Hcalls H56).
            same_trace HQ. }
        apply wp_cross_post; wp_simpl.
        * intros pre evF evT evB err0 err b4 w4 Hpre HF HT HB H34.
          cbn [app]. apply Hpub; [|done].
          apply Forall_app. split.
          { destruct (media (objects b3 !!! l)); [destruct Hpre as [_ ->] | subst pre];
              by repeat constructor. }
          apply Forall_cons. split; [done |].
          apply Forall_app. split; [|by repeat constructor].
          rewrite !Forall_app. repeat split; by eapply block_is_call.
        * intros m msg w5 err b4 w4 Hmedia Hfile H34.
          cbn [app]. apply Hpub; [|done].
          by repeat constructor.
      + wp_step.
        assert (HQ := too_late E cfg p u (bot s) (trace s) id l b1 b3 evs w'
                        (now E w').2
                        H01 Hp Hid Hseen Hedit Hgate Hage).
        same_trace HQ.
    - wp_step.
      assert (HQ := not_ready E cfg p u (bot s) (trace s) id l b1 b3 evs w'
                      H01 Hp Hid Hseen Hedit Hgate).
      same_trace HQ. }
  wp_step. destruct (Z.ltb_spec 0 n) as [Hn|Hn].
  - apply wp_await; [intros [] w3 b3 w4 _ H23 | intros msg w3 b3 w4 _ H23];
      wp_simpl.
    + apply Hrest. by apply edited_done.
    + assert (HQ := edit_fault E cfg p u (bot s) (trace s) id l b1 b3 msg w4
                      H01 Hp Hid Hseen Hn H23).
      same_trace HQ.
  - wp_step.
    assert (HQ := Hrest b2 [] w (edited_skip cfg p n b2 Hn)).
    by rewrite app_nil_r in HQ.
Qed.

Lemma handle_message_path upd s :
  message_path E cfg upd s
    (handle_message E cfg upd s).1 (handle_message E cfg upd s).2.
Proof.
  change (wp (handle_message E cfg upd) (message_path E cfg upd s) s).
  unfold handle_message.
  destruct (tg.message upd) as [message|] eqn:Hm.
  2: { apply wp_ret, ignored. unfold tagged. by rewrite Hm. }
  destruct (tg.text message) as [txt|] eqn:Ht.
  2: { apply wp_ret, ignored. unfold tagged. by rewrite Hm, Ht. }
  destruct (bool_decide (txt = [])) eqn:Hempty.
  { apply wp_ret, ignored. unfold tagged. by rewrite Hm, Ht, Hempty. }
  destruct (contains topost txt) eqn:Htopost; cbn [negb].
  2: { apply wp_ret, ignored. unfold tagged.
       by rewrite Hm, Ht, Hempty, Htopost. }
  assert (Htag : tagged upd = Some (message, txt)).
  { unfold tagged. by rewrite Hm, Ht, Hempty, Htopost. }
  wp_step.
  apply wp_await; [intros sent w1 b1 w Hr H01 | intros msg w1 b1 w Hr H01];
    wp_simpl; [|by eapply reply_fault].
  do 3 wp_step. unfold alloc. do 8 wp_step.
  exact (tracked E cfg upd s message txt b1 sent w1 w (now E w).2 Htag Hr H01).
Qed.

(** ** Invariants *)

Lemma dispatches_app id t1 t2 :
  dispatches id (t1 ++ t2) = (dispatches id t1 + dispatches id t2)%nat.
Proof. unfold dispatches. by rewrite filter_app, length_app. Qed.

Lemma dispatches_calls id evs : Forall is_call evs → dispatches id evs = 0%nat.
Proof.
  unfold dispatches. induction 1 as [|e evs He _ IH]; [done |].
  rewrite filter_cons_False; [done |]. by destruct e.
Qed.

Lemma dispatches_cons_cross id mid evs :
  dispatches id (CrossPost mid :: evs) =
  ((if decide (mid = id) then 1 else 0) + dispatches id evs)%nat.
Proof.
  unfold dispatches. destruct (decide (mid = id)) as [->|Hne].
  - by rewrite filter_cons_True.
  - rewrite filter_cons_False; [done | congruence].
Qed.

Lemma edited_swept p n b2 b3 evs :
  edited cfg p n b2 b3 evs → swept cfg b2 b3 ∧ Forall is_call evs.
Proof.
  destruct 1; (split; [|by repeat constructor]); [constructor | done].
Qed.

Lemma once_calls b (w : W) t b' (w' : W) evs :
  once {| bot := b; world := w; trace := t |} →
  posted_messages b' = posted_messages b →
  Forall is_call evs →
  once {| bot := b'; world := w'; trace := t ++ evs |}.
Proof.
  intros Honce Hpm Hcalls id. specialize (Honce id). simpl in *.
  rewrite dispatches_app, (dispatches_calls _ _ Hcalls), Hpm, Nat.add_0_r.
  done.
Qed.

Lemma approved_refs_tracked u l b : refs_tracked b → refs_tracked (approved u l b).
Proof. done. Qed.

Lemma alter_keys_agree f l b :
  (∀ d, message_id (f d) = message_id d) →
  keys_agree b → keys_agree (set_objects (alter f l) b).
Proof.
  intros Hf Hkeys id l' Hid. simpl in *.
  destruct (Hkeys id l' Hid) as (d & Hd & Hmid).
  destruct (decide (l' = l)) as [->|Hne].
  - exists (f d). rewrite lookup_alter_eq, Hd. by rewrite Hf.
  - exists d. by rewrite lookup_alter_ne.
Qed.

Lemma approved_keys_agree u l b : keys_agree b → keys_agree (approved u l b).
Proof. by apply alter_keys_agree. Qed.

Lemma marked_refs_tracked id l b : refs_tracked b → refs_tracked (marked id l b).
Proof. done. Qed.

Lemma marked_keys_agree id l b : keys_agree b → keys_agree (marked id l b).
Proof. intros Hkeys. by apply (alter_keys_agree (set_posted true)). Qed.

Lemma registered_refs_tracked message txt ct sent b :
  refs_tracked b → refs_tracked (registered message txt ct sent b).
Proof.
  intros Hrefs p id. unfold registered. simpl.
  destruct (decide (p = sent)) as [->|Hne].
  - rewrite lookup_insert_eq. intros [= <-]. rewrite lookup_insert_eq. eauto.
  - rewrite lookup_insert_ne by done. intros Hp.
    destruct (decide (id = tg.message_id message)) as [->|Hid].
    + rewrite lookup_insert_eq. eauto.
    + rewrite lookup_insert_ne by done. by eapply Hrefs.
Qed.

Lemma registered_keys_agree message txt ct sent b :
  keys_agree b → keys_agree (registered message txt ct sent b).
Proof.
  intros Hkeys id l. unfold registered. simpl.
  destruct (decide (id = tg.message_id message)) as [->|Hid].
  - rewrite lookup_insert_eq. intros [= <-].
    exists (new_data message txt ct). by rewrite lookup_insert_eq.
  - rewrite lookup_insert_ne by done. intros Hl.
    destruct (Hkeys id l Hl) as (d & Hd & Hmid).
    exists d. split; [|done]. rewrite lookup_insert_ne; [done |].
    intros <-. apply (is_fresh (dom (objects b))).
    apply elem_of_dom. eauto.
Qed.

Lemma dispatches_cons_call id c err evs :
  dispatches id (Called c err :: evs) = dispatches id evs.
Proof. unfold dispatches. by rewrite filter_cons_False. Qed.

Lemma swept_posted_messages b b' :
  swept cfg b b' → posted_messages b' = posted_messages b.
Proof. intros Hswept. by destruct (swept_frame _ _ Hswept) as (_ & ? & _). Qed.

Lemma good_swept b (w : W) t b' (w' : W) evs :
  good {| bot := b; world := w; trace := t |} →
  swept cfg b b' →
  Forall is_call evs →
  good {| bot := b'; world := w'; trace := t ++ evs |}.
Proof.
  intros (Hrefs & Hkeys & Honce) Hswept Hcalls.
  split; [|split]; simpl in *.
  - by eapply swept_refs_tracked.
  - by eapply swept_keys_agree.
  - eapply once_calls; [done | | done].
    by destruct (swept_frame _ _ Hswept) as (_ & ? & _).
Qed.

Lemma good_approved u l b (w : W) t :
  good {| bot := b; world := w; trace := t |} →
  good {| bot := approved u l b; world := w; trace := t |}.
Proof.
  intros (Hrefs & Hkeys & Honce).
  split; [|split]; [done | by apply approved_keys_agree | done].
Qed.

(** The object of a tracked message carries the id under which it is
    tracked, also after the approval has been added. *)
Lemma approved_message_id u l b id :
  keys_agree b → tracked_messages b !! id = Some l →
  message_id (objects (approved u l b) !!! l) = id.
Proof.
  intros Hkeys Hid. destruct (Hkeys id l Hid) as (d & Hd & Hmid).
  simpl. erewrite lookup_total_correct; [|by rewrite lookup_alter_eq, Hd].
  done.
Qed.

Lemma callback_path_good p u s r s' :
  good s →
  callback_path E cfg p u (bot s) (trace s) r s' →
  good s'.
Proof.
  destruct s as [b w t]. simpl. intros Hgood Hpath.
  destruct Hpath as
    [ msg b1 w1 H01 | b1 w1 H01 Hp | id b1 w1 H01 Hp Hid
    | id l b1 w1 H01 Hp Hid Hseen
    | id l b1 b3 msg w1 H01 Hp Hid Hseen Hn H23
    | id l b1 b3 evs w1 H01 Hp Hid Hseen Hedit Hgate
    | id l b1 b3 evs w0 w1 H01 Hp Hid Hseen Hedit Hgate Hage
    | id l b1 b3 evs w0 b4 evs' b6 err w1 H01 Hp Hid Hseen Hedit Hgate Hage
        H34 Hcalls H56 ];
    try (eapply good_swept; [exact Hgood | done | by repeat constructor]).
  - (* the edit raised *)
    assert (H1 := good_swept _ w _ _ w [Called QueryAnswer None] Hgood H01
                    ltac:(by repeat constructor)).
    apply good_approved with (u := u) (l := l) in H1.
    assert (H3 := good_swept _ _ _ _ w1 [Called (EditText p (needed_text
                      (remaining cfg l (approved u l b1)))) (Some msg)]
                    H1 H23 ltac:(by repeat constructor)).
    by rewrite <- app_assoc in H3.
  - (* the gate stays closed *)
    destruct (edited_swept _ _ _ _ _ Hedit) as [H23 Hevs].
    assert (H1 := good_swept _ w _ _ w [Called QueryAnswer None] Hgood H01
                    ltac:(by repeat constructor)).
    apply good_approved with (u := u) (l := l) in H1.
    assert (H3 := good_swept _ _ _ _ w1 evs H1 H23 Hevs).
    by rewrite <- app_assoc in H3.
  - (* the gate opens too late *)
    destruct (edited_swept _ _ _ _ _ Hedit) as [H23 Hevs].
    assert (H1 := good_swept _ w _ _ w [Called QueryAnswer None] Hgood H01
                    ltac:(by repeat constructor)).
    apply good_approved with (u := u) (l := l) in H1.
    assert (H3 := good_swept _ _ _ _ w1 evs H1 H23 Hevs).
    by rewrite <- app_assoc in H3.
  - (* the message is cross-posted *)
    destruct (edited_swept _ _ _ _ _ Hedit) as [H23 Hevs].
    destruct Hgood as (Hrefs & Hkeys & Honce). simpl in *.
    assert (Hkeys1 : keys_agree b1) by (by eapply swept_keys_agree).
    assert (Hmid : message_id (objects b3 !!! l) = id).
    { rewrite (swept_objects _ _ H23). by apply approved_message_id. }
    assert (Hpm3 : posted_messages b3 = posted_messages b).
    { rewrite (swept_posted_messages _ _ H23). simpl.
      apply (swept_posted_messages _ _ H01). }
    assert (Hpm6 : posted_messages b6 = {[id]} ∪ posted_messages b).
    { rewrite (swept_posted_messages _ _ H56). simpl.
      by rewrite (swept_posted_messages _ _ H34), Hpm3. }
    assert (Hfresh : id ∉ posted_messages b).
    { unfold gate_open in Hgate. rewrite Hpm3 in Hgate.
      apply andb_prop in Hgate as [_ Hgate].
      apply negb_true_iff, bool_decide_eq_false in Hgate. done. }
    split; [|split]; simpl.
    + eapply swept_refs_tracked; [exact H56 |]. apply marked_refs_tracked.
      eapply swept_refs_tracked; [exact H34 |].
      eapply swept_refs_tracked; [exact H23 |]. apply approved_refs_tracked.
      by eapply swept_refs_tracked.
    + eapply swept_keys_agree; [exact H56 |]. apply marked_keys_agree.
      eapply swept_keys_agree; [exact H34 |].
      eapply swept_keys_agree; [exact H23 |]. by apply approved_keys_agree.
    + intros id'. destruct (Honce id') as [Hle Hzero]. simpl in *.
      rewrite Hpm6, Hmid.
      rewrite dispatches_app, dispatches_cons_call, dispatches_app,
        dispatches_cons_cross, dispatches_app, dispatches_cons_call.
      rewrite (dispatches_calls _ _ Hevs), (dispatches_calls _ _ Hcalls).
      change (dispatches id' []) with 0%nat.
      destruct (decide (id = id')) as [<-|Hne].
      * rewrite (Hzero Hfresh). split; [lia |].
        intros Hnotin. exfalso. by apply Hnotin, elem_of_union_l, elem_of_singleton.
      * split; [lia |]. intros Hnotin. rewrite Hzero; [lia |].
        intros Hin. by apply Hnotin, elem_of_union_r.
Qed.

Lemma message_path_good upd s r s' :
  good s → message_path E cfg upd s r s' → good s'.
Proof.
  intros Hgood Hpath. destruct s as [b w t].
  destruct Hpath as [Htag | message txt msg b1 w2 w1 Htag _ H01
                    | message txt b1 sent w2 w0 w1 Htag _ H01]; simpl in *.
  - done.
  - eapply good_swept; [exact Hgood | done | by repeat constructor].
  - assert (H1 := good_swept _ w _ _ w1
                    [Called (ReplyText (tg.message_id message) prompt_text)
                            None]
                    Hgood H01 ltac:(by repeat constructor)).
    destruct H1 as (Hrefs & Hkeys & Honce).
    split; [|split]; simpl in *.
    + by apply registered_refs_tracked.
    + by apply registered_keys_agree.
    + done.
Qed.

Lemma step_good o s : good s → good (step E cfg o s).2.
Proof.
  intros Hgood. destruct o as [upd|query|]; simpl.
  - unfold try_except.
    assert (Hpath := handle_message_path upd s).
    apply (message_path_good _ _ _ _ Hgood) in Hpath.
    by destruct (handle_message E cfg upd s) as [[[]|e] s'].
  - unfold try_except.
    assert (Hpath := handle_callback_path query s).
    apply (callback_path_good _ _ _ _ _ Hgood) in Hpath.
    by destruct (handle_callback E cfg query s) as [[[]|e] s'].
  - change (wp (cleanup_expired E cfg) (λ _ s', good s') s).
    apply wp_cleanup_expired. intros ct w.
    destruct s as [b w0 t].
    assert (H1 := good_swept _ _ _ (cleanup_at cfg ct b) w [] Hgood
                    ltac:(eapply swept_step; constructor)
                    ltac:(constructor)).
    by rewrite app_nil_r in H1.
Qed.

Lemma run_good ops s : good s → good (run E cfg ops s).
Proof.
  revert s. induction ops as [|o ops IH]; intros s Hgood; [done |].
  simpl. by apply IH, step_good.
Qed.

Lemma boot_good tw bs fc (w : W) : good (boot tw bs fc w).
Proof.
  split; [|split].
  - intros p id Hp. cbn in Hp. by rewrite lookup_empty in Hp.
  - intros id l Hid. cbn in Hid. by rewrite lookup_empty in Hid.
  - intros id. split; [apply Nat.le_0_l | done].
Qed.

(** ** The sweeper and the handlers do not disturb each other *)

Lemma alter_field {A} (f : message_data → message_data)
    (g : message_data → A) l (m : gmap loc message_data) l' :
  (∀ d, g (f d) = g d) → g (alter f l m !!! l') = g (m !!! l').
Proof.
  intros Hf. rewrite lookup_total_alter. case_decide; [subst | done].
  rewrite lookup_total_alt. destruct (m !! l'); simpl; [apply Hf | done].
Qed.

Lemma remove_all_set_objects h ids b :
  foldl remove_message (set_objects h b) ids =
  set_objects h (foldl remove_message b ids).
Proof.
  revert b. induction ids as [|id ids IH]; intros b; [done |].
  simpl. rewrite <- IH. reflexivity.
Qed.

Lemma remove_all_set_posted_messages h ids b :
  foldl remove_message (set_posted_messages h b) ids =
  set_posted_messages h (foldl remove_message b ids).
Proof.
  revert b. induction ids as [|id ids IH]; intros b; [done |].
  simpl. rewrite <- IH. reflexivity.
Qed.

Lemma cleanup_at_alter ct f l b :
  (∀ d, timestamp (f d) = timestamp d) →
  cleanup_at cfg ct (set_objects (alter f l) b) =
  set_objects (alter f l) (cleanup_at cfg ct b).
Proof.
  intros Hf. unfold cleanup_at. rewrite remove_all_set_objects. f_equal.
  unfold expired_messages. simpl. f_equal. apply (f_equal (fmap fst)).
  apply list_filter_iff.
  intros [k l']. unfold expired. simpl.
  by rewrite (alter_field f timestamp).
Qed.

Lemma cleanup_at_set_posted_messages ct h b :
  cleanup_at cfg ct (set_posted_messages h b) =
  set_posted_messages h (cleanup_at cfg ct b).
Proof. unfold cleanup_at. by rewrite remove_all_set_posted_messages. Qed.

Lemma swept_approved u l b b' :
  swept cfg b b' → swept cfg (approved u l b) (approved u l b').
Proof.
  induction 1 as [|ct b b' _ IH]; [constructor |].
  apply swept_step with ct. unfold approved at 1.
  by rewrite cleanup_at_alter.
Qed.

Lemma swept_marked id l b b' :
  swept cfg b b' → swept cfg (marked id l b) (marked id l b').
Proof.
  induction 1 as [|ct b b' _ IH]; [constructor |].
  apply swept_step with ct. unfold marked at 1.
  by rewrite cleanup_at_set_posted_messages, cleanup_at_alter.
Qed.

(** ** What a callback does to the bot it started with *)

Lemma gate_open_ext id l count b b' :
  objects b' = objects b → posted_messages b' = posted_messages b →
  gate_open cfg id l count b' = gate_open cfg id l count b.
Proof. intros Ho Hpm. unfold gate_open. by rewrite Ho, Hpm. Qed.

(** A callback ends in one of three ways, each up to what the sweeper
    removed meanwhile: the bot is as before; the approval was recorded;
    or the approval was recorded, [cross_post] was entered once, and the
    message was marked as posted. *)
Lemma callback_outcome p u b t r s' :
  callback_path E cfg p u b t r s' →
  (∃ evs, trace s' = t ++ evs ∧ Forall is_call evs ∧
     (swept cfg b (bot s') ∨
      (∃ id l, reaction_messages b !! p = Some id ∧
               tracked_messages b !! id = Some l ∧
               (u ∉ reactions (objects b !!! l)) ∧
               swept cfg (approved u l b) (bot s')))) ∨
  (∃ id l w0 evs evs',
     reaction_messages b !! p = Some id ∧
     tracked_messages b !! id = Some l ∧
     (u ∉ reactions (objects b !!! l)) ∧
     gate_open cfg id l (reaction_count l (approved u l b))
               (approved u l b) = true ∧
     (now E w0).1 - timestamp (objects b !!! l) ≤
       timedelta_hours (EXPIRATION_HOURS cfg) ∧
     trace s' = t ++ evs ++ CrossPost (message_id (objects b !!! l)) :: evs' ∧
     Forall is_call evs ∧ Forall is_call evs' ∧
     swept cfg (marked id l (approved u l b)) (bot s')).
Proof.
  intros Hpath.
  destruct Hpath as
    [ msg b1 w1 H01 | b1 w1 H01 Hp | id b1 w1 H01 Hp Hid
    | id l b1 w1 H01 Hp Hid Hseen
    | id l b1 b3 msg w1 H01 Hp Hid Hseen Hn H23
    | id l b1 b3 evs w1 H01 Hp Hid Hseen Hedit Hgate
    | id l b1 b3 evs w0 w1 H01 Hp Hid Hseen Hedit Hgate Hage
    | id l b1 b3 evs w0 b4 evs' b6 err w1 H01 Hp Hid Hseen Hedit Hgate Hage
        H34 Hcalls H56 ];
    try (left; eexists; split; [reflexivity |];
         split; [by repeat constructor | by left]);
    destruct (swept_frame _ _ H01) as (Ho1 & Hpm1 & _ & _ & _ & Ht1 & Hr1);
    apply Hr1 in Hp; apply Ht1 in Hid; rewrite Ho1 in Hseen;
    pose proof (swept_approved u l _ _ H01) as H02.
  - left. eexists. split; [reflexivity |].
    split; [by repeat constructor |]. right. exists id, l.
    repeat split; try done. by eapply swept_trans.
  - destruct (edited_swept _ _ _ _ _ Hedit) as [H23 Hevs].
    left. exists (Called QueryAnswer None :: evs). split; [done |].
    split; [by constructor |]. right. exists id, l.
    repeat split; try done. by eapply swept_trans.
  - destruct (edited_swept _ _ _ _ _ Hedit) as [H23 Hevs].
    left. exists (Called QueryAnswer None :: evs). split; [done |].
    split; [by constructor |]. right. exists id, l.
    repeat split; try done. by eapply swept_trans.
  - destruct (edited_swept _ _ _ _ _ Hedit) as [H23 Hevs].
    assert (H03 : swept cfg (approved u l b) b3) by (by eapply swept_trans).
    destruct (swept_frame _ _ H03) as (Ho3 & Hpm3 & _).
    right. exists id, l, w0, (Called QueryAnswer None :: evs),
      (evs' ++ [Called (EditText p crossposted_text) err]).
    split; [done |]. split; [done |]. split; [done |].
    split.
    { rewrite <- Hgate. rewrite (gate_open_ext _ _ _ _ _ Ho3 Hpm3).
      unfold reaction_count, approved. simpl. by rewrite Ho1. }
    split.
    { rewrite Ho3 in Hage. unfold approved in Hage. simpl in Hage.
      by rewrite (alter_field (add_reaction u) timestamp) in Hage. }
    split.
    { simpl. rewrite Ho3. unfold approved. simpl.
      by rewrite (alter_field (add_reaction u) message_id). }
    split; [by constructor |].
    split; [apply Forall_app; split; [done | by repeat constructor] |].
    eapply swept_trans; [|exact H56].
    apply swept_marked. by eapply swept_trans.
Qed.

(** ** The handler from the answer on *)

Lemma await_spec {A} c (o : W → reply A * W) s :
  swept cfg (bot s) (bot (await E cfg c o s).2) ∧
  match (o (world s)).1 with
  | Returns a =>
      (await E cfg c o s).1 = Ok a ∧
      trace (await E cfg c o s).2 = trace s ++ [Called c None]
  | Fails msg =>
      (await E cfg c o s).1 = Raise (Fault msg) ∧
      trace (await E cfg c o s).2 = trace s ++ [Called c (Some msg)]
  end.
Proof.
  change (wp (await E cfg c o)
            (λ r s', swept cfg (bot s) (bot s') ∧
                     match (o (world s)).1 with
                     | Returns a =>
                         r = Ok a ∧ trace s' = trace s ++ [Called c None]
                     | Fails msg =>
                         r = Raise (Fault msg) ∧
                         trace s' = trace s ++ [Called c (Some msg)]
                     end) s).
  apply wp_await; intros ? ? ? ? Ho Hswept; rewrite Ho; done.
Qed.

(** The handler is its first line followed by [after_answer]. *)
Lemma handle_callback_after_answer query s :
  match (await E cfg QueryAnswer (answer E) s).1 with
  | Ok _ =>
      after_answer E cfg query (await E cfg QueryAnswer (answer E) s).2
        (handle_callback E cfg query s).1 (handle_callback E cfg query s).2
  | Raise e =>
      handle_callback E cfg query s =
        (Raise e, (await E cfg QueryAnswer (answer E) s).2)
  end.
Proof.
  destruct (handle_callback E cfg query s) as [r s'] eqn:Hrun.
  unfold handle_callback in Hrun. unfold bind at 1 in Hrun.
  destruct (await E cfg QueryAnswer (answer E) s) as [[[]|e] s1];
    cbn [fst snd]; [|done].
  set (p := tg.query_message_id query) in *.
  set (u := tg.from_user_id query) in *.
  match type of Hrun with
  | ?m s1 = _ =>
      assert (Hwp : wp m (after_answer E cfg query s1) s1);
        [|unfold wp in Hwp; by rewrite Hrun in Hwp]
  end.
  clear Hrun r s'. unfold after_answer. fold p u.
  wp_step. wp_step.
  destruct (reaction_messages (bot s1) !! p) as [id|] eqn:Hp;
    [|by wp_step].
  do 3 wp_step. unfold getitem.
  destruct (tracked_messages (bot s1) !! id) as [l|] eqn:Hid;
    [|by wp_step].
  wp_step. wp_step. wp_step.
  destruct (bool_decide (u ∈ reactions (objects (bot s1) !!! l))) eqn:Hseen;
    [by wp_step |].
  wp_step. wp_step. fold (approved u l (bot s1)).
  wp_step. wp_step.
  change (Z.of_nat (size (reactions (objects (approved u l (bot s1)) !!! l))))
    with (reaction_count l (approved u l (bot s1))).
  set (b2 := approved u l (bot s1)). set (count := reaction_count l b2).
  assert (Hts : timestamp (objects b2 !!! l) =
                timestamp (objects (bot s1) !!! l)).
  { unfold b2, approved. simpl.
    by rewrite (alter_field (add_reaction u) timestamp). }
  assert (Hmid : message_id (objects b2 !!! l) =
                 message_id (objects (bot s1) !!! l)).
  { unfold b2, approved. simpl.
    by rewrite (alter_field (add_reaction u) message_id). }
  wp_step. destruct (Z.ltb_spec 0 (REQUIRED_REACTIONS cfg - count)) as [Hn|Hn].
  - (* reactions are still needed *)
    apply wp_await; [intros [] w3 b3 w4 _ H23 | intros msg w3 b3 w4 _ H23];
      wp_simpl.
    + do 4 wp_step.
      rewrite (proj2 (Z.leb_gt _ _)) by lia. cbn [andb]. wp_step.
      by exists None.
    + by exists (Some msg).
  - (* the threshold is reached *)
    do 5 wp_step.
    fold (gate_open cfg id l count b2).
    destruct (gate_open cfg id l count b2) eqn:Hgate; [|by wp_step].
    do 4 wp_step. rewrite Hts.
    destruct (Z.leb_spec ((now E (world s1)).1 -
                          timestamp (objects (bot s1) !!! l))
                (timedelta_hours (EXPIRATION_HOURS cfg))) as [Hage|Hage];
      [|by wp_step].
    match goal with
    | |- wp (bind _ ?k) ?Q _ =>
        assert (Hpub : ∀ evs' b4 w4,
          Forall is_call evs' → swept cfg b2 b4 →
          wp (k tt) Q
            {| bot := b4; world := w4;
               trace := trace s1 ++
                        CrossPost (message_id (objects (bot s1) !!! l)) ::
                        evs' |})
    end.
    { intros evs' b4 w4 Hcalls H24. do 4 wp_step.
      fold (marked id l b4).
      assert (H46 : ∀ b6, swept cfg (marked id l b4) b6 →
                          swept cfg (marked id l b2) b6).
      { intros b6 H56. eapply swept_trans; [|exact H56].
        by apply swept_marked. }
      apply wp_await; [intros [] w5 b6 w6 _ H56 | intros msg w5 b6 w6 _ H56];
        wp_simpl.
      - exists evs', None. rewrite <- app_assoc. simpl.
        repeat split; [done | by apply H46].
      - exists evs', (Some msg). rewrite <- app_assoc. simpl.
        repeat split; [done | by apply H46]. }
    wp_step. apply wp_cross_post; wp_simpl; rewrite ?Hmid.
    + intros pre evF evT evB err0 err b4 w4 Hpre HF HT HB H24.
      cbn [app]. apply Hpub; [|done].
      apply Forall_app. split.
      { destruct (media (objects b2 !!! l)); [destruct Hpre as [_ ->] | subst pre];
          by repeat constructor. }
      apply Forall_cons. split; [done |].
      apply Forall_app. split; [|by repeat constructor].
      rewrite !Forall_app. repeat split; by eapply block_is_call.
    + intros m msg w5 err b4 w4 Hmedia Hfile H24.
      cbn [app]. apply Hpub; [|done].
      by repeat constructor.
Qed.

(** A callback ends in one of three ways, as [callback_outcome] says,
    and the clock reading that let it enter [cross_post] is the one made
    in the world in which the answer returned. *)
Lemma handle_callback_outcome query s :
  let p := tg.query_message_id query in
  let u := tg.from_user_id query in
  let s1 := (await E cfg QueryAnswer (answer E) s).2 in
  let s' := (handle_callback E cfg query s).2 in
  (∃ evs, trace s' = trace s ++ evs ∧ Forall is_call evs ∧
     (swept cfg (bot s) (bot s') ∨
      (∃ id l, reaction_messages (bot s) !! p = Some id ∧
               tracked_messages (bot s) !! id = Some l ∧
               (u ∉ reactions (objects (bot s) !!! l)) ∧
               swept cfg (approved u l (bot s)) (bot s')))) ∨
  (∃ id l evs evs',
     reaction_messages (bot s) !! p = Some id ∧
     tracked_messages (bot s) !! id = Some l ∧
     (u ∉ reactions (objects (bot s) !!! l)) ∧
     gate_open cfg id l (reaction_count l (approved u l (bot s)))
               (approved u l (bot s)) = true ∧
     (now E (world s1)).1 - timestamp (objects (bot s) !!! l) ≤
       timedelta_hours (EXPIRATION_HOURS cfg) ∧
     trace s' =
       trace s ++ evs ++ CrossPost (message_id (objects (bot s) !!! l)) :: evs' ∧
     Forall is_call evs ∧ Forall is_call evs' ∧
     swept cfg (marked id l (approved u l (bot s))) (bot s') ∧
     (await E cfg QueryAnswer (answer E) s).1 = Ok tt).
Proof.
  intros p u s1 s'.
  pose proof (handle_callback_after_answer query s) as Hafter.
  destruct (await_spec QueryAnswer (answer E) s) as [H01 Hfirst].
  fold s1 in Hafter, H01, Hfirst. fold s' in Hafter.
  destruct (swept_frame _ _ H01) as (Ho1 & Hpm1 & _ & _ & _ & Ht1 & Hr1).
  destruct ((answer E (world s)).1) as [[]|msg];
    destruct Hfirst as [Hr Htrace]; rewrite Hr in Hafter.
  2: { left. exists [Called QueryAnswer (Some msg)].
       unfold s'. rewrite Hafter. simpl.
       split; [done |]. split; [by repeat constructor | by left]. }
  unfold after_answer in Hafter. fold p u in Hafter.
  destruct (reaction_messages (bot s1) !! p) as [id|] eqn:Hp.
  2: { destruct Hafter as [_ ->]. left. exists [Called QueryAnswer None].
       split; [done |]. split; [by repeat constructor | by left]. }
  destruct (tracked_messages (bot s1) !! id) as [l|] eqn:Hid.
  2: { destruct Hafter as [_ ->]. left. exists [Called QueryAnswer None].
       split; [done |]. split; [by repeat constructor | by left]. }
  apply Hr1 in Hp. apply Ht1 in Hid.
  case_bool_decide as Hseen.
  { destruct Hafter as [_ ->]. left. exists [Called QueryAnswer None].
    split; [done |]. split; [by repeat constructor | by left]. }
  rewrite Ho1 in Hseen.
  pose proof (swept_approved u l _ _ H01) as H02.
  assert (Hb2 : objects (approved u l (bot s1)) =
                objects (approved u l (bot s)) ∧
                posted_messages (approved u l (bot s1)) =
                posted_messages (approved u l (bot s))).
  { unfold approved. simpl. by rewrite Ho1, Hpm1. }
  destruct Hb2 as [Ho2 Hpm2].
  assert (Hcount : reaction_count l (approved u l (bot s1)) =
                   reaction_count l (approved u l (bot s))).
  { unfold reaction_count. by rewrite Ho2. }
  rewrite Hcount, (gate_open_ext _ _ _ _ _ Ho2 Hpm2), Ho1 in Hafter.
  case_match.
  { destruct Hafter as (err & _ & Htr & H23). left.
    eexists [Called QueryAnswer None; Called (EditText p _) err].
    split; [by rewrite Htr, Htrace, <- app_assoc |].
    split; [by repeat constructor |]. right. exists id, l.
    repeat split; try done. by eapply swept_trans. }
  case_match.
  2: { destruct Hafter as [_ ->]. left. exists [Called QueryAnswer None].
       split; [done |]. split; [by repeat constructor |]. right.
       by exists id, l. }
  case_match.
  2: { destruct Hafter as [_ ->]. left. exists [Called QueryAnswer None].
       split; [done |]. split; [by repeat constructor |]. right.
       by exists id, l. }
  destruct Hafter as (evs & err & _ & Htr & Hcalls & H26).
  right. exists id, l, [Called QueryAnswer None],
    (evs ++ [Called (EditText p crossposted_text) err]).
  split; [done |]. split; [done |]. split; [done |]. split; [done |].
  split; [by apply Z.leb_le |].
  split; [by rewrite Htr, Htrace, <- app_assoc |].
  split; [by repeat constructor |].
  split; [apply Forall_app; split; [done | by repeat constructor] |].
  split; [|done].
  eapply swept_trans; [|exact H26]. by apply swept_marked.
Qed.

(** The callback of a user who has not reacted yet, when
    [query.answer()] has returned and the sweeper has not removed the
    message meanwhile: what the handler does, by the number of reactions
    reached, the marks of the message and the reading of the clock at
    line 330. *)
Lemma callback_after_answer query s id l d :
  let p := tg.query_message_id query in
  let u := tg.from_user_id query in
  let count := Z.of_nat (S (size (reactions d))) in
  let s1 := (await E cfg QueryAnswer (answer E) s).2 in
  (await E cfg QueryAnswer (answer E) s).1 = Ok tt →
  reaction_messages (bot s1) !! p = Some id →
  tracked_messages (bot s1) !! id = Some l →
  objects (bot s) !! l = Some d →
  u ∉ reactions d →
  let r := (handle_callback E cfg query s).1 in
  let s' := (handle_callback E cfg query s).2 in
  if 0 <? REQUIRED_REACTIONS cfg - count then
    ∃ err,
      trace s' =
        trace s ++
        [Called QueryAnswer None;
         Called (EditText p (needed_text (REQUIRED_REACTIONS cfg - count)))
                err] ∧
      r = match err with None => Ok tt | Some msg => Raise (Fault msg) end ∧
      objects (bot s') = alter (add_reaction u) l (objects (bot s)) ∧
      posted_messages (bot s') = posted_messages (bot s)
  else if negb (posted d) && negb (bool_decide (id ∈ posted_messages (bot s)))
  then
    if (now E (world s1)).1 - timestamp d <=?
       timedelta_hours (EXPIRATION_HOURS cfg)
    then
      ∃ evs err,
        trace s' =
          trace s ++
          [Called QueryAnswer None; CrossPost (message_id d)] ++ evs ++
          [Called (EditText p crossposted_text) err] ∧
        Forall is_call evs ∧
        r = match err with None => Ok tt | Some msg => Raise (Fault msg) end ∧
        objects (bot s') =
          alter (set_posted true) l
            (alter (add_reaction u) l (objects (bot s))) ∧
        posted_messages (bot s') = {[id]} ∪ posted_messages (bot s)
    else
      trace s' = trace s ++ [Called QueryAnswer None] ∧ r = Ok tt ∧
      objects (bot s') = alter (add_reaction u) l (objects (bot s)) ∧
      posted_messages (bot s') = posted_messages (bot s)
  else
    trace s' = trace s ++ [Called QueryAnswer None] ∧ r = Ok tt ∧
    objects (bot s') = alter (add_reaction u) l (objects (bot s)) ∧
    posted_messages (bot s') = posted_messages (bot s).
Proof.
  intros p u count s1 Hans Hp1 Hid1 Hd Hnew r s'.
  pose proof (handle_callback_after_answer query s) as Hafter.
  destruct (await_spec QueryAnswer (answer E) s) as [H01 Hfirst].
  fold s1 in Hafter, H01, Hfirst. fold r s' in Hafter.
  rewrite Hans in Hafter, Hfirst.
  assert (Htrace : trace s1 = trace s ++ [Called QueryAnswer None]).
  { destruct ((answer E (world s)).1) as [[]|msg];
      by destruct Hfirst as [? ?]. }
  clear Hfirst.
  pose proof (swept_objects _ _ H01) as Ho1.
  pose proof (swept_posted_messages _ _ H01) as Hpm1.
  unfold after_answer in Hafter. fold p u in Hafter.
  rewrite Hp1, Hid1, Ho1, (lookup_total_correct _ _ _ Hd) in Hafter.
  rewrite bool_decide_false in Hafter by done.
  assert (Hd2 : objects (approved u l (bot s1)) !!! l = add_reaction u d).
  { apply lookup_total_correct. unfold approved. simpl.
    by rewrite Ho1, lookup_alter_eq, Hd. }
  assert (Hcount : reaction_count l (approved u l (bot s1)) = count).
  { unfold reaction_count. rewrite Hd2. simpl. unfold count.
    rewrite size_union, size_singleton; [done |].
    by apply disjoint_singleton_l. }
  assert (Hgate : gate_open cfg id l count (approved u l (bot s1)) =
                  (REQUIRED_REACTIONS cfg <=? count) &&
                  (negb (posted d) &&
                   negb (bool_decide (id ∈ posted_messages (bot s))))).
  { unfold gate_open. rewrite Hd2. simpl. rewrite Hpm1.
    by rewrite andb_assoc. }
  rewrite Hcount, Hgate in Hafter.
  assert (Ho2 : ∀ b3, swept cfg (approved u l (bot s1)) b3 →
            objects b3 = alter (add_reaction u) l (objects (bot s)) ∧
            posted_messages b3 = posted_messages (bot s)).
  { intros b3 H23.
    rewrite (swept_objects _ _ H23), (swept_posted_messages _ _ H23).
    simpl. by rewrite Ho1. }
  destruct (Z.ltb_spec 0 (REQUIRED_REACTIONS cfg - count)) as [Hn|Hn].
  - destruct Hafter as (err & Hr & Htr & H23).
    destruct (Ho2 _ H23) as [Ho3 Hpm3].
    exists err. rewrite Htr, Htrace, <- app_assoc. by repeat split.
  - rewrite (proj2 (Z.leb_le _ _)) in Hafter by lia. cbn [andb] in Hafter.
    destruct (negb (posted d) &&
              negb (bool_decide (id ∈ posted_messages (bot s)))).
    2: { destruct Hafter as [Hr ->]. simpl.
         destruct (Ho2 _ (swept_refl _ _)) as [Ho3 Hpm3]. by repeat split. }
    destruct (_ <=? _).
    2: { destruct Hafter as [Hr ->]. simpl.
         destruct (Ho2 _ (swept_refl _ _)) as [Ho3 Hpm3]. by repeat split. }
    destruct Hafter as (evs & err & Hr & Htr & Hcalls & H26).
    exists evs, err.
    rewrite (swept_objects _ _ H26), (swept_posted_messages _ _ H26).
    destruct (Ho2 _ (swept_refl _ _)) as [Ho3 Hpm3]. simpl.
    rewrite Htr, Htrace, <- app_assoc. simpl in Ho3, Hpm3.
    rewrite Ho3, Hpm3. by repeat split.
Qed.

(** ** The world moves only by questions and calls *)

Lemma tracks_ret {A} (a : A) : tracks E (ret a).
Proof. intros s. apply rtc_refl. Qed.

Lemma tracks_raise {A} e : tracks E (raise (A := A) e).
Proof. intros s. apply rtc_refl. Qed.

Lemma tracks_gets {A} (f : CrossPostBot → A) : tracks E (gets f).
Proof. intros s. apply rtc_refl. Qed.

Lemma tracks_modify f : tracks E (modify f).
Proof. intros s. apply rtc_refl. Qed.

Lemma tracks_emit e : tracks E (emit e).
Proof. intros s. apply rtc_refl. Qed.

Lemma tracks_bind {A B} (m : M W A) (f : A → M W B) :
  tracks E m → (∀ a, tracks E (f a)) → tracks E (bind m f).
Proof.
  intros Hm Hf s. unfold bind. specialize (Hm s).
  destruct (m s) as [[a|e] s1]; simpl in *; [|done].
  eapply rtc_trans; [exact Hm | apply Hf].
Qed.

Lemma tracks_try {A} (m : M W A) (h : exn → M W A) :
  tracks E m → (∀ e, tracks E (h e)) → tracks E (try_except m h).
Proof.
  intros Hm Hh s. unfold try_except. specialize (Hm s).
  destruct (m s) as [[a|e] s1]; simpl in *; [done |].
  eapply rtc_trans; [exact Hm | apply Hh].
Qed.

Lemma tracks_ask {A} (o : W → A * W) :
  (∀ w, moves E w (o w).2) → tracks E (ask o).
Proof.
  intros Ho s. unfold ask. specialize (Ho (world s)).
  destruct (o (world s)) as [a w]. by apply rtc_once.
Qed.

Lemma tracks_invoke {A} c (o : W → reply A * W) :
  (∀ w, moves E w (o w).2) → tracks E (invoke c o).
Proof.
  intros Ho s. unfold invoke. specialize (Ho (world s)).
  destruct (o (world s)) as [[a|msg] w]; by apply rtc_once.
Qed.

Lemma tracks_times n (m : M W unit) : tracks E m → tracks E (times n m).
Proof.
  intros Hm. induction n as [|n IH]; simpl; [apply tracks_ret |].
  apply tracks_bind; [done | by intros _].
Qed.

Lemma tracks_cleanup_expired : tracks E (cleanup_expired E cfg).
Proof.
  unfold cleanup_expired. apply tracks_bind.
  - apply tracks_ask. intros w. constructor.
  - intros ct. apply tracks_modify.
Qed.

Lemma tracks_suspend : tracks E (suspend E cfg).
Proof.
  unfold suspend. apply tracks_bind.
  - apply tracks_ask. intros w. constructor.
  - intros n. apply tracks_times, tracks_cleanup_expired.
Qed.

Lemma tracks_await {A} c (o : W → reply A * W) :
  (∀ w, moves E w (o w).2) → tracks E (await E cfg c o).
Proof.
  intros Ho s. unfold await.
  pose proof (tracks_invoke c o Ho s) as H1.
  destruct (invoke c o s) as [r s1].
  pose proof (tracks_suspend s1) as H2.
  destruct (suspend E cfg s1) as [r2 s2]. simpl in *.
  by eapply rtc_trans.
Qed.

Ltac tracks_step :=
  first
    [ apply tracks_ret | apply tracks_raise | apply tracks_gets
    | apply tracks_modify | apply tracks_emit
    | apply tracks_ask; intros; constructor
    | apply tracks_invoke; intros; constructor
    | apply tracks_await; intros; constructor
    | apply tracks_bind; [|intros]
    | apply tracks_try; [|intros]
    | case_match ].

Lemma tracks_notify_group chat message :
  tracks E (notify_group E cfg chat message).
Proof. unfold notify_group. repeat tracks_step. Qed.

Lemma tracks_cross_post l : tracks E (cross_post E cfg l).
Proof.
  unfold cross_post, resolve_media, fan_out, post_farcaster, post_twitter,
    post_bluesky, field.
  repeat first [apply tracks_notify_group | tracks_step].
Qed.

Lemma tracks_handle_message upd : tracks E (handle_message E cfg upd).
Proof. unfold handle_message, alloc. repeat tracks_step. Qed.

Lemma tracks_handle_callback query : tracks E (handle_callback E cfg query).
Proof.
  unfold handle_callback, getitem, field, update.
  repeat first [apply tracks_cross_post | tracks_step].
Qed.

Lemma step_after o s : after E (world s) (world (step E cfg o s).2).
Proof.
  destruct o as [upd|query|]; simpl.
  - apply tracks_try; [apply tracks_handle_message | intros; apply tracks_ret].
  - apply tracks_try; [apply tracks_handle_callback | intros; apply tracks_ret].
  - apply tracks_cleanup_expired.
Qed.

Lemma run_after ops s : after E (world s) (world (run E cfg ops s)).
Proof.
  revert s. induction ops as [|o ops IH]; intros s; [apply rtc_refl |].
  simpl. eapply rtc_trans; [apply step_after | apply IH].
Qed.

(** ** A message that is too old is never posted *)






(** ** The claims about the dispatcher *)






(** C6, as the code has it.  When [get_file] raises for the media of the
    post, [cross_post] returns without calling any platform client: it
    records its entry, the failed call, and the notification of the
    general error, and nothing else. *)
Theorem cross_post_media_fault_aborts l s m msg w1 :
  let d := objects (bot s) !!! l in
  media d = Some m →
  get_file E (file_id m) (world s) = (Fails msg, w1) →
  (cross_post E cfg l s).1 = Ok tt ∧
  ∃ evs err,
    trace (cross_post E cfg l s).2 = trace s ++ evs ∧
    evs = [CrossPost (message_id d);
           Called (GetFile (file_id m)) (Some msg);
           Called (SendMessage (chat_id d) (general_error (Fault msg))) err] ∧
    ∀ p, attempts p evs = [].
Proof.
  intros d Hmedia Hfile. split; [apply cross_post_ok |].
  destruct (cross_post_fault l s m msg w1 Hmedia Hfile) as (err & Htrace & _).
  eexists _, err. split; [exact Htrace |]. split; [reflexivity |].
  intros p. reflexivity.
Qed.

(** C8.  [cross_post] returns normally whatever the calls it makes do,
    and so does [notify_group].  A fault outside the platform blocks,
    that of [get_file], ends in one notification, the line of the
    general error with the first 100 characters of the message. *)
Theorem cross_post_never_raises l s :
  (cross_post E cfg l s).1 = Ok tt ∧
  (∀ chat message, (notify_group E cfg chat message s).1 = Ok tt) ∧
  (∀ m msg w1,
     media (objects (bot s) !!! l) = Some m →
     get_file E (file_id m) (world s) = (Fails msg, w1) →
     ∃ err,
       trace (cross_post E cfg l s).2 =
         trace s ++
         [CrossPost (message_id (objects (bot s) !!! l));
          Called (GetFile (file_id m)) (Some msg);
          Called (SendMessage (chat_id (objects (bot s) !!! l))
                    ([0x274C%N] ++ lit " General crosspost error: " ++
                     take 100 msg)) err]).
Proof.
  split; [apply cross_post_ok |]. split; [intros; apply notify_group_ok |].
  intros m msg w1 Hmedia Hfile.
  destruct (cross_post_fault l s m msg w1 Hmedia Hfile) as (err & Htrace & _).
  by exists err.
Qed.

(** ** The claims about approvals *)




(** ** The claims about the registries *)

Lemma step_trace o s : ∃ evs, trace (step E cfg o s).2 = trace s ++ evs.
Proof.
  destruct o as [upd|query|]; simpl.
  - unfold try_except.
    assert (Hpath := handle_message_path upd s).
    destruct (handle_message E cfg upd s) as [[[]|e] s']; simpl in *;
      destruct Hpath; simpl; eauto using app_nil_r.
    all: by exists [].
  - unfold try_except.
    assert (Hpath := handle_callback_path query s).
    apply callback_outcome in Hpath.
    destruct (handle_callback E cfg query s) as [[[]|e] s']; simpl in *;
      destruct Hpath as [(evs & Htrace & _)
                        | (id & l & w0 & evs & evs' & _ & _ & _ & _ & _ & Htrace & _)];
      eauto.
  - change (wp (cleanup_expired E cfg)
              (λ _ s', ∃ evs, trace s' = trace s ++ evs) s).
    apply wp_cleanup_expired. intros ct w. exists []. simpl.
    by rewrite app_nil_r.
Qed.

Lemma run_trace ops s : ∃ evs, trace (run E cfg ops s) = trace s ++ evs.
Proof.
  revert s. induction ops as [|o ops IH]; intros s; simpl.
  - exists []. by rewrite app_nil_r.
  - destruct (IH (step E cfg o s).2) as (evs2 & ->).
    destruct (step_trace o s) as (evs1 & ->).
    exists (evs1 ++ evs2). by rewrite app_assoc.
Qed.

Lemma run_app ops ops' s :
  run E cfg (ops ++ ops') s = run E cfg ops' (run E cfg ops s).
Proof. apply foldl_app. Qed.

(** C1.  In every run of the bot, with any updates in any order, any
    answers of the outside, and the sweeper running between the updates
    and whenever a handler is suspended, [cross_post] is entered at most
    once for each message id.  Once it has been entered for an id,
    nothing that follows enters it for this id again. *)
Theorem cross_post_at_most_once ops tw bs fc (w : W) id :
  (dispatches id (trace (run E cfg ops (boot tw bs fc w))) ≤ 1)%nat ∧
  ∀ ops',
    dispatches id (trace (run E cfg ops (boot tw bs fc w))) = 1%nat →
    dispatches id (trace (run E cfg (ops ++ ops') (boot tw bs fc w))) = 1%nat.
Proof.
  split.
  - by destruct (run_good ops _ (boot_good tw bs fc w)) as (_ & _ & Honce);
      destruct (Honce id).
  - intros ops' Hone.
    destruct (run_good (ops ++ ops') _ (boot_good tw bs fc w))
      as (_ & _ & Honce).
    destruct (Honce id) as [Hle _].
    rewrite run_app in *.
    destruct (run_trace ops' (run E cfg ops (boot tw bs fc w))) as (evs & Heq).
    rewrite Heq, dispatches_app in *. lia.
Qed.

(** C10.  In every run of the bot, every prompt in [reaction_messages]
    points to a message in [tracked_messages]; and a callback handled
    next never raises the [KeyError] of a failed lookup in
    [tracked_messages], although the sweeper may run between the
    answer of the query and that lookup. *)
Theorem prompts_point_to_tracked ops tw bs fc (w : W) :
  (∀ p id,
     reaction_messages (bot (run E cfg ops (boot tw bs fc w))) !! p = Some id →
     is_Some (tracked_messages (bot (run E cfg ops (boot tw bs fc w))) !! id)) ∧
  ∀ query key,
    (handle_callback E cfg query (run E cfg ops (boot tw bs fc w))).1 ≠
    Raise (KeyError key).
Proof.
  destruct (run_good ops _ (boot_good tw bs fc w)) as (Hrefs & _ & _).
  split; [exact Hrefs |].
  intros query key Hraise.
  assert (Hpath := handle_callback_path query (run E cfg ops (boot tw bs fc w))).
  rewrite Hraise in Hpath.
  inversion Hpath as
    [ | | id b1 w1 H01 Hp Hid | | | | | ? ? ? ? ? ? ? ? ? ? ? ? ? ? ? ? ? ? ? ? Herr ];
    subst.
  - destruct (swept_refs_tracked _ _ H01 Hrefs _ _ Hp) as [l Hl]. congruence.
  - by destruct err.
Qed.

(** C4, as the code has it.  One iteration of the sweeper removes a
    tracked message exactly when its age is more than the window,
    whether it has been posted or not, and with it every prompt that
    points to it; it keeps the others, and changes neither the objects
    nor [posted_messages]. *)
Theorem sweep_removes_by_age s :
  let ct := (now E (world s)).1 in
  let window := timedelta_hours (EXPIRATION_HOURS cfg) in
  let b' := bot (cleanup_expired E cfg s).2 in
  (∀ id l,
     tracked_messages (bot s) !! id = Some l →
     tracked_messages b' !! id =
       if decide (window < ct - timestamp (objects (bot s) !!! l))
       then None else Some l) ∧
  (∀ p id l,
     reaction_messages (bot s) !! p = Some id →
     tracked_messages (bot s) !! id = Some l →
     reaction_messages b' !! p =
       if decide (window < ct - timestamp (objects (bot s) !!! l))
       then None else Some id) ∧
  (∀ id, tracked_messages (bot s) !! id = None →
         tracked_messages b' !! id = None) ∧
  objects b' = objects (bot s) ∧
  posted_messages b' = posted_messages (bot s).
Proof.
  intros ct window b'.
  assert (Hb' : b' = cleanup_at cfg ct (bot s)).
  { unfold b', cleanup_expired, bind, ask, modify, ct.
    by destruct (now E (world s)). }
  rewrite Hb'.
  destruct (cleanup_at_spec ct (bot s)) as (Ho & Hpm & _ & _ & _ & Ht & Hr).
  assert (Hexp : ∀ d, expired cfg ct d =
                      bool_decide (window < ct - timestamp d)).
  { intros d. unfold expired, window.
    destruct (Z.ltb_spec (timedelta_hours (EXPIRATION_HOURS cfg))
                (ct - timestamp d));
      [by rewrite bool_decide_true | by rewrite bool_decide_false by lia]. }
  split; [|split; [|split; [|done]]].
  - intros id l Hid. rewrite Ht, Hid, Hexp. by case_bool_decide; case_decide.
  - intros p id l Hp Hid. rewrite Hr, Hp, Hid, Hexp.
    by case_bool_decide; case_decide.
  - intros id Hid. by rewrite Ht, Hid.
Qed.

(** A tagged message: the handler is the reply with the prompt, then
    one reading of the clock, then the three stores. *)
Lemma handle_message_after_reply upd s message txt :
  tagged upd = Some (message, txt) →
  handle_message E cfg upd s =
    match (await E cfg (ReplyText (tg.message_id message) prompt_text)
             (reply_text E (tg.message_id message) prompt_text) s).1 with
    | Ok sent =>
        let s1 := (await E cfg (ReplyText (tg.message_id message) prompt_text)
                     (reply_text E (tg.message_id message) prompt_text) s).2 in
        (Ok tt,
         {| bot := registered message txt (now E (world s1)).1 sent (bot s1);
            world := (now E (world s1)).2;
            trace := trace s1 |})
    | Raise e =>
        (Raise e,
         (await E cfg (ReplyText (tg.message_id message) prompt_text)
            (reply_text E (tg.message_id message) prompt_text) s).2)
    end.
Proof.
  intros Htag. unfold tagged in Htag. unfold handle_message.
  destruct (tg.message upd) as [message'|]; [|done].
  destruct (tg.text message') as [txt'|]; [|done].
  destruct (bool_decide (txt' = [])); [done |].
  destruct (contains topost txt'); [|done].
  simplify_eq. cbn [negb]. unfold bind at 1.
  destruct (await E cfg (ReplyText (tg.message_id message) prompt_text)
              (reply_text E (tg.message_id message) prompt_text) s)
    as [[sent|e] s1]; [|done].
  cbn [fst snd]. unfold alloc, bind, ask, gets, modify, ret.
  by destruct (now E (world s1)).
Qed.

(** C9, as the code has it.  Tracking a tagged message never fails
    because of its id.  Whether or not the id is already tracked, once
    the reply with the prompt has been sent the handler returns
    normally, [tracked_messages] maps the id to a new object with no
    reactions and [posted] unset, and the new prompt points to the id.
    The time of creation of the object is the time that the clock shows
    when the reply has returned (line 274), in the world in which the
    handler goes on after waiting for the reply.  An entry that was
    there before is overwritten. *)
Theorem handle_message_overwrites upd s message txt sent w1 :
  tagged upd = Some (message, txt) →
  reply_text E (tg.message_id message) prompt_text (world s) =
    (Returns sent, w1) →
  (handle_message E cfg upd s).1 = Ok tt ∧
  ∃ l,
    objects (bot s) !! l = None ∧
    objects (bot (handle_message E cfg upd s).2) =
      <[l := {| message_id := tg.message_id message;
                chat_id := tg.chat_id message;
                text := strip (replace topost [] txt);
                media := media_of message;
                reactions := ∅;
                timestamp :=
                  (now E
                     (world
                        (await E cfg
                           (ReplyText (tg.message_id message) prompt_text)
                           (reply_text E (tg.message_id message) prompt_text)
                           s).2)).1;
                posted := false |}]> (objects (bot s)) ∧
    tracked_messages (bot (handle_message E cfg upd s).2)
      !! tg.message_id message = Some l ∧
    reaction_messages (bot (handle_message E cfg upd s).2) !! sent =
      Some (tg.message_id message) ∧
    world (handle_message E cfg upd s).2 =
      (now E
         (world
            (await E cfg (ReplyText (tg.message_id message) prompt_text)
               (reply_text E (tg.message_id message) prompt_text) s).2)).2.
Proof.
  intros Htag Hreply.
  rewrite (handle_message_after_reply upd s message txt Htag).
  destruct (await_spec (ReplyText (tg.message_id message) prompt_text)
              (reply_text E (tg.message_id message) prompt_text) s)
    as [H01 Hfirst].
  rewrite Hreply in Hfirst. destruct Hfirst as [-> _]. cbn [fst snd].
  split; [done |].
  pose proof (swept_objects _ _ H01) as Ho.
  match type of Ho with objects (bot ?s1) = _ =>
    exists (fresh (dom (objects (bot s1))))
  end.
  unfold registered. simpl. rewrite Ho, !lookup_insert_eq.
  split; [|done].
  apply not_elem_of_dom, is_fresh.
Qed.

(** * Further properties of the code *)

(** ** The sweeper *)

(** X1.  One iteration of the sweeper never raises [KeyError]: every
    [del] of lines 421 and 422 finds its key, whatever the registries
    hold, and the iteration computes [cleanup_at]. *)
Theorem sweeper_del_finds_its_keys ct b :
  cleanup_del (expired_messages cfg ct b) b = Some (cleanup_at cfg ct b).
Proof. apply cleanup_del_ok. Qed.

Lemma bot_eq b b' :
  objects b = objects b' → tracked_messages b = tracked_messages b' →
  posted_messages b = posted_messages b' →
  reaction_messages b = reaction_messages b' →
  twitter b = twitter b' → bluesky b = bluesky b' → client b = client b' →
  b = b'.
Proof. destruct b, b'; simpl; intros; by subst. Qed.

Lemma expired_mono ct1 ct2 d :
  ct1 ≤ ct2 → expired cfg ct1 d = true → expired cfg ct2 d = true.
Proof.
  unfold expired. intros Hle Hexp%Z.ltb_lt. apply Z.ltb_lt. lia.
Qed.

(** X2.  An iteration of the sweeper at a time [ct2] makes up for every
    earlier iteration: sweeping at [ct1] and then at [ct2] leaves the bot
    that sweeping at [ct2] alone leaves.  In particular a second
    iteration at the same time changes nothing. *)
Theorem sweep_absorbs_earlier_sweep ct1 ct2 b :
  ct1 ≤ ct2 →
  cleanup_at cfg ct2 (cleanup_at cfg ct1 b) = cleanup_at cfg ct2 b.
Proof.
  intros Hle.
  destruct (cleanup_at_spec ct1 b) as (Ho1 & Hpm1 & Htw1 & Hbs1 & Hcl1 & Ht1 & Hr1).
  destruct (cleanup_at_spec ct2 b) as (Ho2 & Hpm2 & Htw2 & Hbs2 & Hcl2 & Ht2 & Hr2).
  destruct (cleanup_at_spec ct2 (cleanup_at cfg ct1 b))
    as (Ho & Hpm & Htw & Hbs & Hcl & Ht & Hr).
  apply bot_eq; try congruence.
  - apply map_eq. intros k. rewrite Ht, Ht1, Ht2, Ho1.
    destruct (tracked_messages b !! k) as [l|]; [|done].
    destruct (expired cfg ct1 (objects b !!! l)) eqn:Hexp; [|done].
    by rewrite (expired_mono _ _ _ Hle Hexp).
  - apply map_eq. intros p. rewrite Hr, Hr1, Hr2.
    destruct (reaction_messages b !! p) as [o|]; [|done].
    destruct (tracked_messages b !! o) as [l|] eqn:Hl.
    + destruct (expired cfg ct1 (objects b !!! l)) eqn:Hexp.
      * by rewrite (expired_mono _ _ _ Hle Hexp).
      * by rewrite Ht1, Hl, Hexp, Ho1.
    + by rewrite Ht1, Hl.
Qed.

(** ** What a run never undoes *)

Lemma grown_refl d : grown d d.
Proof. by repeat split. Qed.

Lemma grown_trans d1 d2 d3 : grown d1 d2 → grown d2 d3 → grown d1 d3.
Proof.
  intros (? & ? & ? & ? & ? & Hr1 & ?) (? & ? & ? & ? & ? & Hr2 & ?).
  repeat split; try congruence; [by etrans | auto].
Qed.

Lemma extends_refl b : extends b b.
Proof.
  split; [|done]. intros l d Hd. exists d. split; [done | apply grown_refl].
Qed.

Lemma extends_trans b1 b2 b3 : extends b1 b2 → extends b2 b3 → extends b1 b3.
Proof.
  intros (Ho1 & Hpm1 & Htw1 & Hbs1 & Hcl1) (Ho2 & Hpm2 & Htw2 & Hbs2 & Hcl2).
  split; [|repeat split; [by etrans | congruence..]].
  intros l d Hd. destruct (Ho1 l d Hd) as (d' & Hd' & Hg).
  destruct (Ho2 l d' Hd') as (d'' & Hd'' & Hg').
  exists d''. split; [done | by eapply grown_trans].
Qed.

Lemma swept_extends b b' : swept cfg b b' → extends b b'.
Proof.
  intros Hswept.
  destruct (swept_frame _ _ Hswept) as (Ho & Hpm & Htw & Hbs & Hcl & _).
  split; [|by rewrite Hpm]. intros l d Hd. rewrite Ho.
  exists d. split; [done | apply grown_refl].
Qed.

Lemma alter_extends f l b :
  (∀ d, grown d (f d)) → extends b (set_objects (alter f l) b).
Proof.
  intros Hf. split; [|done]. intros l' d Hd. simpl.
  destruct (decide (l' = l)) as [->|Hne].
  - exists (f d). by rewrite lookup_alter_eq, Hd.
  - exists d. rewrite lookup_alter_ne by done. split; [done | apply grown_refl].
Qed.

Lemma approved_extends u l b : extends b (approved u l b).
Proof.
  apply alter_extends. intros d. repeat split; try done.
  simpl. apply union_subseteq_r.
Qed.

Lemma marked_extends id l b : extends b (marked id l b).
Proof.
  unfold marked.
  eapply extends_trans; [apply (alter_extends (set_posted true) l) |].
  - intros d. by repeat split.
  - split; [|simpl; repeat split; try done; apply union_subseteq_r].
    intros l' d Hd. exists d. split; [done | apply grown_refl].
Qed.

Lemma registered_extends message txt ct sent b :
  extends b (registered message txt ct sent b).
Proof.
  split; [|done]. intros l d Hd. unfold registered. simpl. exists d.
  split; [|apply grown_refl]. rewrite lookup_insert_ne; [done |].
  intros <-. apply (is_fresh (dom (objects b))). apply elem_of_dom. eauto.
Qed.

Lemma callback_path_extends p u b t r s' :
  callback_path E cfg p u b t r s' → extends b (bot s').
Proof.
  intros Hpath. apply callback_outcome in Hpath.
  destruct Hpath as
    [(evs & _ & _ & [Hswept | (id & l & _ & _ & _ & Hswept)])
    | (id & l & w0 & evs & evs' & _ & _ & _ & _ & _ & _ & _ & _ & Hswept)].
  - by apply swept_extends.
  - eapply extends_trans; [apply approved_extends | by apply swept_extends].
  - eapply extends_trans; [apply approved_extends |].
    eapply extends_trans; [apply marked_extends | by apply swept_extends].
Qed.

Lemma message_path_extends upd s r s' :
  message_path E cfg upd s r s' → extends (bot s) (bot s').
Proof.
  destruct 1 as [Htag | message txt msg b1 w2 w1 Htag _ H01
                | message txt b1 sent w2 w0 w1 Htag _ H01]; simpl.
  - apply extends_refl.
  - by apply swept_extends.
  - eapply extends_trans; [by apply swept_extends | apply registered_extends].
Qed.

Lemma step_extends o s : extends (bot s) (bot (step E cfg o s).2).
Proof.
  destruct o as [upd|query|]; simpl.
  - unfold try_except. assert (Hpath := handle_message_path upd s).
    apply message_path_extends in Hpath.
    by destruct (handle_message E cfg upd s) as [[[]|e] s'].
  - unfold try_except. assert (Hpath := handle_callback_path query s).
    apply callback_path_extends in Hpath.
    by destruct (handle_callback E cfg query s) as [[[]|e] s'].
  - change (wp (cleanup_expired E cfg) (λ _ s', extends (bot s) (bot s')) s).
    apply wp_cleanup_expired. intros ct w. simpl.
    apply swept_extends. eapply swept_step. constructor.
Qed.

Lemma run_extends ops s : extends (bot s) (bot (run E cfg ops s)).
Proof.
  revert s. induction ops as [|o ops IH]; intros s; simpl;
    [apply extends_refl |].
  eapply extends_trans; [apply step_extends | apply IH].
Qed.

(** X3.  No operation of the bot, in any run, deletes a [message_data]
    object or rewrites what was stored when the message was tracked: its
    id, chat, text, media reference and time of creation stay as they
    are.  Its reactions are never taken back, and [posted], once set,
    stays set. *)
Theorem tracked_data_only_grows ops s l d :
  objects (bot s) !! l = Some d →
  ∃ d', objects (bot (run E cfg ops s)) !! l = Some d' ∧
        message_id d' = message_id d ∧ chat_id d' = chat_id d ∧
        text d' = text d ∧ media d' = media d ∧
        timestamp d' = timestamp d ∧
        reactions d ⊆ reactions d' ∧
        (posted d = true → posted d' = true).
Proof.
  intros Hd. destruct (run_extends ops s) as (Ho & _).
  destruct (Ho l d Hd) as (d' & Hd' & Hg). by exists d'.
Qed.

(** X4.  No operation removes an id from [posted_messages]: neither
    handler does, and the sweeper, which forgets a message after the
    window, keeps its id there.  The platform clients are never replaced
    either. *)
Theorem posted_messages_never_shrinks ops s :
  posted_messages (bot s) ⊆ posted_messages (bot (run E cfg ops s)) ∧
  twitter (bot (run E cfg ops s)) = twitter (bot s) ∧
  bluesky (bot (run E cfg ops s)) = bluesky (bot s) ∧
  client (bot (run E cfg ops s)) = client (bot s).
Proof. by destruct (run_extends ops s) as (_ & ?). Qed.

Lemma recorded_swept b (w : W) t b' (w' : W) evs :
  recorded {| bot := b; world := w; trace := t |} →
  swept cfg b b' → Forall is_call evs →
  recorded {| bot := b'; world := w'; trace := t ++ evs |}.
Proof.
  intros [Hflag Hset] Hswept Hcalls. simpl in *.
  destruct (swept_frame _ _ Hswept) as (Ho & Hpm & _).
  split; simpl; rewrite ?Ho, Hpm; [done |].
  intros id Hid.
  rewrite dispatches_app, (dispatches_calls _ _ Hcalls), Nat.add_0_r. auto.
Qed.

Lemma recorded_approved u l b (w : W) t :
  recorded {| bot := b; world := w; trace := t |} →
  recorded {| bot := approved u l b; world := w; trace := t |}.
Proof.
  intros [Hflag Hset]. split; [|done]. simpl in *. intros l' d'.
  destruct (decide (l' = l)) as [->|Hne].
  - rewrite lookup_alter_eq. destruct (objects b !! l) as [d|] eqn:Hd; [|done].
    intros [= <-]. simpl. by apply (Hflag l).
  - rewrite lookup_alter_ne by done. apply Hflag.
Qed.

Lemma callback_path_recorded p u s r s' :
  good s → recorded s →
  callback_path E cfg p u (bot s) (trace s) r s' →
  recorded s'.
Proof.
  destruct s as [b w t], s' as [b' w' t']. simpl.
  intros (Hrefs & Hkeys & Honce) Hrec Hpath. apply callback_outcome in Hpath.
  simpl in *.
  destruct Hpath as
    [(evs & -> & Hcalls & [Hswept | (id & l & _ & _ & _ & Hswept)])
    | (id & l & w0 & evs & evs' & Hp & Hid & Hseen & Hgate & _ & -> & Hcalls
       & Hcalls' & Hswept)].
  - by eapply recorded_swept.
  - eapply recorded_swept; [|exact Hswept | done].
    apply recorded_approved, Hrec.
  - destruct (Hkeys id l Hid) as (d & Hd & Hmid).
    rewrite (lookup_total_correct _ _ _ Hd), Hmid.
    destruct (swept_frame _ _ Hswept) as (Ho & Hpm & _). simpl in *.
    assert (Hfresh : id ∉ posted_messages b).
    { unfold gate_open in Hgate. simpl in Hgate.
      apply andb_prop in Hgate as [_ Hgate].
      by apply negb_true_iff, bool_decide_eq_false in Hgate. }
    destruct Hrec as [Hflag Hset]. simpl in *.
    split; simpl; rewrite ?Ho, ?Hpm; simpl.
    + intros l' d'. destruct (decide (l' = l)) as [->|Hne].
      * rewrite !lookup_alter_eq, Hd. intros [= <-] _. simpl.
        rewrite Hmid. by apply elem_of_union_l, elem_of_singleton.
      * rewrite !lookup_alter_ne by done. intros Hd' Hposted.
        apply elem_of_union_r. by eapply Hflag.
    + intros id' Hid'.
      rewrite dispatches_app, dispatches_app, dispatches_cons_cross.
      rewrite (dispatches_calls _ _ Hcalls), (dispatches_calls _ _ Hcalls').
      destruct (decide (id = id')) as [<-|Hne].
      * destruct (Honce id) as [_ Hzero]. simpl in Hzero.
        rewrite (Hzero Hfresh). lia.
      * apply elem_of_union in Hid' as [Hid'%elem_of_singleton|Hid'];
          [congruence |].
        rewrite (Hset id' Hid'). lia.
Qed.

Lemma message_path_recorded upd s r s' :
  recorded s → message_path E cfg upd s r s' → recorded s'.
Proof.
  intros Hrec Hpath. destruct s as [b w t].
  destruct Hpath as [Htag | message txt msg b1 w2 w1 Htag _ H01
                    | message txt b1 sent w2 w0 w1 Htag _ H01]; simpl in *.
  - done.
  - eapply recorded_swept; [exact Hrec | done | by repeat constructor].
  - assert (H1 := recorded_swept _ w _ _ w1
                    [Called (ReplyText (tg.message_id message) prompt_text)
                            None]
                    Hrec H01 ltac:(by repeat constructor)).
    destruct H1 as [Hflag Hset]. split; [|done]. simpl in *.
    intros l d. unfold registered. simpl.
    destruct (decide (l = fresh (dom (objects b1)))) as [->|Hne].
    + rewrite lookup_insert_eq. by intros [= <-].
    + rewrite lookup_insert_ne by done. apply Hflag.
Qed.

Lemma step_recorded o s :
  good s → recorded s → recorded (step E cfg o s).2.
Proof.
  intros Hgood Hrec. destruct o as [upd|query|]; simpl.
  - unfold try_except. assert (Hpath := handle_message_path upd s).
    apply (message_path_recorded _ _ _ _ Hrec) in Hpath.
    by destruct (handle_message E cfg upd s) as [[[]|e] s'].
  - unfold try_except. assert (Hpath := handle_callback_path query s).
    apply (callback_path_recorded _ _ _ _ _ Hgood Hrec) in Hpath.
    by destruct (handle_callback E cfg query s) as [[[]|e] s'].
  - change (wp (cleanup_expired E cfg) (λ _ s', recorded s') s).
    apply wp_cleanup_expired. intros ct w. destruct s as [b w0 t].
    assert (H1 := recorded_swept _ _ _ (cleanup_at cfg ct b) w [] Hrec
                    ltac:(eapply swept_step; constructor)
                    ltac:(constructor)).
    by rewrite app_nil_r in H1.
Qed.

Lemma run_recorded ops s :
  good s → recorded s → recorded (run E cfg ops s).
Proof.
  revert s. induction ops as [|o ops IH]; intros s Hgood Hrec; [done |].
  simpl. apply IH; [by apply step_good | by apply step_recorded].
Qed.

Lemma boot_recorded tw bs fc (w : W) : recorded (boot tw bs fc w).
Proof.
  split.
  - intros l d Hd. cbn in Hd. by rewrite lookup_empty in Hd.
  - intros id Hid. cbn in Hid. by apply not_elem_of_empty in Hid.
Qed.

(** X5.  In every run of the bot an object whose [posted] flag is set
    carries an id that is in [posted_messages]: the two marks of lines
    333 and 334 never disagree in this direction, so the test of the
    flag at line 327 never decides the gate on its own. *)
Theorem posted_flag_is_recorded ops tw bs fc (w : W) l d :
  objects (bot (run E cfg ops (boot tw bs fc w))) !! l = Some d →
  posted d = true →
  message_id d ∈ posted_messages (bot (run E cfg ops (boot tw bs fc w))).
Proof.
  destruct (run_recorded ops _ (boot_good tw bs fc w) (boot_recorded tw bs fc w))
    as [Hflag _].
  apply Hflag.
Qed.

(** X6.  In every run of the bot, after each operation,
    [posted_messages] holds exactly the ids for which [cross_post] has
    been entered: no id is marked as posted without a dispatch, and no
    dispatch is left unmarked, whatever the platform clients and
    Telegram answered. *)
Theorem posted_messages_are_the_dispatched ops tw bs fc (w : W) id :
  id ∈ posted_messages (bot (run E cfg ops (boot tw bs fc w))) ↔
  dispatches id (trace (run E cfg ops (boot tw bs fc w))) = 1%nat.
Proof.
  destruct (run_recorded ops _ (boot_good tw bs fc w) (boot_recorded tw bs fc w))
    as [_ Hset].
  destruct (run_good ops _ (boot_good tw bs fc w)) as (_ & _ & Honce).
  split; [apply Hset |].
  intros Hone. destruct (Honce id) as [_ Hzero].
  destruct (decide (id ∈ posted_messages
                      (bot (run E cfg ops (boot tw bs fc w))))) as [|Hnot];
    [done |].
  rewrite (Hzero Hnot) in Hone. discriminate.
Qed.

(** ** [handle_message]: the tag and the stored text *)

Lemma startswith_spec pat (s : str) : startswith pat s = true ↔ ∃ post, s = pat ++ post.
Proof.
  revert s. induction pat as [|p pat IH]; intros s.
  - split; [intros _; by exists s | done].
  - destruct s as [|c s]; simpl.
    + split; [done | by intros [post ?]].
    + rewrite andb_true_iff, N.eqb_eq, IH. split.
      * intros [-> [post ->]]. by exists post.
      * intros [post [= -> ->]]. split; [done | by exists post].
Qed.

(** [contains pat s] is the test for a substring. *)
Lemma contains_spec pat (s : str) :
  contains pat s = true ↔ ∃ pre post, s = pre ++ pat ++ post.
Proof.
  induction s as [|c s IH].
  - cbn [contains]. rewrite orb_false_r, startswith_spec. split.
    + intros [post Hs]. by exists [], post.
    + intros (pre & post & Hs). destruct pre; [by exists post | done].
  - cbn [contains]. rewrite orb_true_iff, startswith_spec, IH. split.
    + intros [[post Hs] | (pre & post & ->)];
        [by exists [], post | by exists (c :: pre), post].
    + intros (pre & post & Hs). destruct pre as [|c' pre]; simpl in Hs.
      * left. by exists post.
      * right. injection Hs as -> ->. by exists pre, post.
Qed.

Lemma tagged_spec upd message pre post :
  tg.message upd = Some message →
  tg.text message = Some (pre ++ topost ++ post) →
  tagged upd = Some (message, pre ++ topost ++ post).
Proof.
  intros Hm Ht. unfold tagged. rewrite Hm, Ht.
  rewrite bool_decide_false.
  - rewrite (proj2 (contains_spec _ _)); [done | by exists pre, post].
  - intros Hnil. apply (f_equal length) in Hnil.
    rewrite !length_app in Hnil. change (length topost) with 7%nat in Hnil.
    simpl in Hnil. lia.
Qed.

(** X7.  [handle_message] does nothing at all with an update that has
    no message, no text, or a text in which the tag does not occur as a
    substring: it makes no call, tracks nothing, and returns. *)
Theorem untagged_message_is_ignored upd s :
  (∀ message txt pre post,
     tg.message upd = Some message → tg.text message = Some txt →
     txt ≠ pre ++ topost ++ post) →
  handle_message E cfg upd s = (Ok tt, s).
Proof.
  intros Hno. unfold handle_message.
  destruct (tg.message upd) as [message|] eqn:Hm; [|done].
  destruct (tg.text message) as [txt|] eqn:Ht; [|done].
  case_bool_decide; [done |].
  destruct (contains topost txt) eqn:Hc; [|done].
  apply contains_spec in Hc as (pre & post & ->).
  destruct (Hno _ _ _ _ eq_refl Ht eq_refl).
Qed.

(** X8.  A text with the tag anywhere in it makes [handle_message] send
    one reply, the prompt, to the message.  The registries are written
    only after that reply: when it raises, the handler raises the same
    fault and nothing has been tracked. *)
Theorem tag_anywhere_asks_for_approval upd s message pre post :
  tg.message upd = Some message →
  tg.text message = Some (pre ++ topost ++ post) →
  ∃ err,
    trace (handle_message E cfg upd s).2 =
      trace s ++ [Called (ReplyText (tg.message_id message) prompt_text) err] ∧
    (handle_message E cfg upd s).1 =
      match err with None => Ok tt | Some msg => Raise (Fault msg) end ∧
    (err ≠ None → swept cfg (bot s) (bot (handle_message E cfg upd s).2)).
Proof.
  intros Hm Ht. assert (Htag := tagged_spec _ _ _ _ Hm Ht).
  assert (Hpath := handle_message_path upd s).
  destruct (handle_message E cfg upd s) as [r s']. simpl in *.
  destruct Hpath as [Htag' | message' txt' msg b1 w2 w3 Htag' Hreply' H01
                    | message' txt' b1 sent' w2 w0 w3 Htag' Hreply' H01];
    [congruence | |]; simplify_eq.
  - exists (Some msg). simpl. by repeat split.
  - exists None. simpl. by repeat split.
Qed.

Lemma handle_message_tracks upd s message txt sent w1 :
  tagged upd = Some (message, txt) →
  reply_text E (tg.message_id message) prompt_text (world s) =
    (Returns sent, w1) →
  ∃ ct l,
    tracked_messages (bot (handle_message E cfg upd s).2)
      !! tg.message_id message = Some l ∧
    objects (bot (handle_message E cfg upd s).2) !! l =
      Some (new_data message txt ct).
Proof.
  intros Htag Hreply.
  assert (Hpath := handle_message_path upd s).
  destruct (handle_message E cfg upd s) as [r s']. simpl in *.
  destruct Hpath as [Htag' | message' txt' msg b1 w2 w3 Htag' Hreply' H01
                    | message' txt' b1 sent' w2 w0 w3 Htag' Hreply' H01];
    [congruence | |]; simplify_eq; [congruence |].
  exists (now E w0).1, (fresh (dom (objects b1))).
  unfold registered. simpl. by rewrite !lookup_insert_eq.
Qed.

Lemma lstrip_spec (s : str) :
  ∃ ws, s = ws ++ lstrip s ∧ Forall (λ c, isspace c = true) ws ∧
        ∀ c rest, lstrip s = c :: rest → isspace c = false.
Proof.
  induction s as [|c s (ws & Hs & Hws & Hhead)]; simpl.
  - by exists [].
  - destruct (isspace c) eqn:Hc.
    + exists (c :: ws). simpl. split; [by f_equal |].
      split; [by constructor | exact Hhead].
    + exists []. split; [done |]. split; [constructor |].
      by intros c' rest [= <- _].
Qed.

Lemma lstrip_spaces ws : Forall (λ c, isspace c = true) ws → lstrip ws = [].
Proof. induction 1 as [|c ws Hc _ IH]; [done |]. simpl. by rewrite Hc. Qed.

Lemma strip_head (s : str) c rest : strip s = c :: rest → isspace c = false.
Proof.
  unfold strip. intros Hs.
  destruct (lstrip_spec s) as (_ & _ & _ & Hhead).
  destruct (lstrip_spec (rev (lstrip s))) as (ws & Hu & _ & _).
  apply (f_equal (@rev N)) in Hs. rewrite rev_involutive in Hs.
  rewrite Hs in Hu. apply (f_equal (@rev N)) in Hu.
  rewrite rev_involutive, rev_app_distr, rev_involutive in Hu.
  by eapply Hhead.
Qed.

Lemma strip_last (s : str) c front : strip s = front ++ [c] → isspace c = false.
Proof.
  unfold strip. intros Hs.
  destruct (lstrip_spec (rev (lstrip s))) as (_ & _ & _ & Hhead).
  apply (f_equal (@rev N)) in Hs.
  rewrite rev_involutive, rev_app_distr in Hs.
  exact (Hhead _ _ Hs).
Qed.

Lemma length_lstrip (s : str) : (length (lstrip s) ≤ length s)%nat.
Proof.
  destruct (lstrip_spec s) as (ws & Hs & _).
  rewrite Hs at 2. rewrite length_app. lia.
Qed.

Lemma length_strip (s : str) : (length (strip s) ≤ length s)%nat.
Proof.
  unfold strip. rewrite length_rev.
  etrans; [apply length_lstrip |]. rewrite length_rev. apply length_lstrip.
Qed.

Lemma length_replace_from pat k (s : str) :
  (length (replace_from pat [] k s) ≤ length s - k)%nat.
Proof.
  revert k. induction s as [|c s IH]; intros k; [done |].
  cbn [replace_from]. destruct k as [|k].
  - destruct (startswith pat (c :: s)).
    + simpl. specialize (IH (pred (length pat))). lia.
    + simpl. specialize (IH O). lia.
  - specialize (IH k). simpl. lia.
Qed.

(** Removing the occurrences of a pattern that occurs shortens the
    string by at least the length of the pattern. *)
Lemma length_replace pat (s : str) :
  contains pat s = true →
  (length (replace pat [] s) + length pat ≤ length s)%nat.
Proof.
  unfold replace. induction s as [|c s IH]; cbn [contains replace_from].
  - rewrite orb_false_r. intros [post Hs]%startswith_spec.
    destruct pat; [simpl; lia | done].
  - destruct (startswith pat (c :: s)) eqn:Hstart.
    + intros _. apply startswith_spec in Hstart as [post Hs].
      apply (f_equal length) in Hs. rewrite length_app in Hs. simpl in *.
      pose proof (length_replace_from pat (pred (length pat)) s). lia.
    + simpl. intros Hc. specialize (IH Hc). lia.
Qed.

(** X9.  The text stored for a tracked message begins and ends with a
    character that is no whitespace, if it has any character, and it is
    shorter than the text of the message by the length of the tag at
    least. *)
Theorem stored_text_is_trimmed upd s message txt sent w1 :
  tagged upd = Some (message, txt) →
  reply_text E (tg.message_id message) prompt_text (world s) =
    (Returns sent, w1) →
  ∃ l d,
    tracked_messages (bot (handle_message E cfg upd s).2)
      !! tg.message_id message = Some l ∧
    objects (bot (handle_message E cfg upd s).2) !! l = Some d ∧
    (∀ c rest, text d = c :: rest → isspace c = false) ∧
    (∀ c front, text d = front ++ [c] → isspace c = false) ∧
    (length (text d) + length topost ≤ length txt)%nat.
Proof.
  intros Htag Hreply.
  destruct (handle_message_tracks upd s message txt sent w1 Htag Hreply)
    as (ct & l & Hl & Hd).
  exists l, (new_data message txt ct). split; [done |]. split; [done |].
  simpl. split; [apply strip_head |]. split; [apply strip_last |].
  assert (Hc : contains topost txt = true).
  { unfold tagged in Htag.
    destruct (tg.message upd) as [m|]; [|done].
    destruct (tg.text m) as [x|]; [|done].
    case_bool_decide; [done |].
    destruct (contains topost x) eqn:Hc; [|done]. congruence. }
  pose proof (length_strip (replace topost [] txt)).
  pose proof (length_replace topost txt Hc) as Hlen.
  change (length topost) with 7%nat in Hlen. lia.
Qed.

Lemma replace_topost_spaces ws rest :
  Forall (λ c, isspace c = true) ws →
  replace_from topost [] O (ws ++ rest) = ws ++ replace_from topost [] O rest.
Proof.
  induction 1 as [|c ws Hc _ IH]; [done |].
  cbn [app replace_from].
  assert (Hstart : startswith topost (c :: ws ++ rest) = false).
  { change topost with [35; 116; 111; 112; 111; 115; 116]%N.
    cbn [startswith]. destruct (N.eqb_spec 35 c) as [<-|]; [|done].
    by vm_compute in Hc. }
  by rewrite Hstart, IH.
Qed.

(** X10.  A message whose text is the tag alone, with or without
    whitespace around it, is tracked like any other, with the empty
    text: nothing in [handle_message] looks at what is left of the text
    once the tag is removed. *)
Theorem tag_alone_is_tracked_with_empty_text upd s message ws1 ws2 sent w1 :
  tg.message upd = Some message →
  tg.text message = Some (ws1 ++ topost ++ ws2) →
  Forall (λ c, isspace c = true) ws1 →
  Forall (λ c, isspace c = true) ws2 →
  reply_text E (tg.message_id message) prompt_text (world s) =
    (Returns sent, w1) →
  ∃ l d,
    tracked_messages (bot (handle_message E cfg upd s).2)
      !! tg.message_id message = Some l ∧
    objects (bot (handle_message E cfg upd s).2) !! l = Some d ∧
    text d = [].
Proof.
  intros Hm Ht Hws1 Hws2 Hreply.
  assert (Htag := tagged_spec _ _ _ _ Hm Ht).
  destruct (handle_message_tracks upd s message _ sent w1 Htag Hreply)
    as (ct & l & Hl & Hd).
  exists l, (new_data message (ws1 ++ topost ++ ws2) ct).
  split; [done |]. split; [done |]. cbn [text new_data].
  unfold replace. rewrite replace_topost_spaces by done.
  assert (Hrest : replace_from topost [] O (topost ++ ws2) = ws2).
  { change topost with [35; 116; 111; 112; 111; 115; 116]%N.
    cbn -[isspace].
    change [35; 116; 111; 112; 111; 115; 116]%N with topost.
    rewrite <- (app_nil_r ws2) at 1.
    by rewrite replace_topost_spaces, app_nil_r. }
  rewrite Hrest. unfold strip.
  by rewrite (lstrip_spaces (ws1 ++ ws2)) by (by apply Forall_app).
Qed.

(** ** [handle_callback]: approvals that count *)

(** X11.  A callback on a message that is no prompt of the bot is
    answered and nothing else: no other call is made and nothing is
    recorded. *)
Theorem unknown_prompt_is_only_answered query s :
  reaction_messages (bot s) !! tg.query_message_id query = None →
  ∃ err,
    trace (handle_callback E cfg query s).2 =
      trace s ++ [Called QueryAnswer err] ∧
    (handle_callback E cfg query s).1 =
      match err with None => Ok tt | Some msg => Raise (Fault msg) end ∧
    swept cfg (bot s) (bot (handle_callback E cfg query s).2).
Proof.
  intros Hp.
  assert (Hpath := handle_callback_path query s).
  destruct (handle_callback E cfg query s) as [r s']. simpl in *.
  destruct Hpath as
    [ msg b1 w1 H01 | b1 w1 H01 Hp1 | id1 b1 w1 H01 Hp1 Hid1
    | id1 l1 b1 w1 H01 Hp1 Hid1 Hseen1
    | id1 l1 b1 b3 msg w1 H01 Hp1 Hid1 Hseen1 Hn H23
    | id1 l1 b1 b3 evs w1 H01 Hp1 Hid1 Hseen1 Hedit Hgate
    | id1 l1 b1 b3 evs w0 w1 H01 Hp1 Hid1 Hseen1 Hedit Hgate Hage
    | id1 l1 b1 b3 evs w0 b4 evs' b6 err w1 H01 Hp1 Hid1 Hseen1 Hedit
        Hgate Hage H34 Hcalls H56 ];
    simpl;
    [ by exists (Some msg) | by exists None | .. ];
    exfalso;
    destruct (swept_frame _ _ H01) as (_ & _ & _ & _ & _ & _ & Hr1);
    apply Hr1 in Hp1; congruence.
Qed.

(** X12.  When [query.answer()] raises, the handler is left at its
    first line: the approval is not recorded, although the user has
    pressed the button. *)
Theorem failed_answer_loses_approval query s msg w1 :
  answer E (world s) = (Fails msg, w1) →
  (handle_callback E cfg query s).1 = Raise (Fault msg) ∧
  trace (handle_callback E cfg query s).2 =
    trace s ++ [Called QueryAnswer (Some msg)] ∧
  swept cfg (bot s) (bot (handle_callback E cfg query s).2).
Proof.
  intros Hans.
  change (wp (handle_callback E cfg query)
            (λ r s', r = Raise (Fault msg) ∧
                     trace s' = trace s ++ [Called QueryAnswer (Some msg)] ∧
                     swept cfg (bot s) (bot s')) s).
  unfold handle_callback. wp_step.
  apply wp_await; [intros [] w2 b1 w Hans' H01 | intros msg' w2 b1 w Hans' H01];
    wp_simpl; [congruence |].
  rewrite Hans in Hans'. by simplify_eq.
Qed.


(** X14.  When [query.answer()] has returned, the sweeper has not
    removed the message while the handler waited for it, and the clock,
    read at line 330 in the world in which the answer returned, shows a
    time within the window of the message: the approval of a user who
    has not reacted yet, which brings the count to [REQUIRED_REACTIONS],
    of a message that is not marked as posted, enters [cross_post] once,
    without any edit that asks for more reactions, and then marks the
    message: [posted] is set and the id is added to [posted_messages],
    whatever the platform clients and Telegram answered during the
    dispatch, so also when every platform failed.  The last call is the
    edit of the prompt to the final text, and the handler raises only if
    that edit raises. *)
Theorem approval_at_threshold_publishes query s id l d w1 :
  answer E (world s) = (Returns tt, w1) →
  reaction_messages (bot (await E cfg QueryAnswer (answer E) s).2)
    !! tg.query_message_id query = Some id →
  tracked_messages (bot (await E cfg QueryAnswer (answer E) s).2) !! id =
    Some l →
  objects (bot s) !! l = Some d →
  tg.from_user_id query ∉ reactions d →
  REQUIRED_REACTIONS cfg ≤ Z.of_nat (size (reactions d)) + 1 →
  posted d = false →
  id ∉ posted_messages (bot s) →
  (now E (world (await E cfg QueryAnswer (answer E) s).2)).1 - timestamp d ≤
    timedelta_hours (EXPIRATION_HOURS cfg) →
  ∃ evs err,
    trace (handle_callback E cfg query s).2 =
      trace s ++
      [Called QueryAnswer None; CrossPost (message_id d)] ++ evs ++
      [Called (EditText (tg.query_message_id query) crossposted_text) err] ∧
    Forall is_call evs ∧
    (handle_callback E cfg query s).1 =
      match err with None => Ok tt | Some msg => Raise (Fault msg) end ∧
    objects (bot (handle_callback E cfg query s).2) !! l =
      Some {| message_id := message_id d; chat_id := chat_id d;
              text := text d; media := media d;
              reactions := {[tg.from_user_id query]} ∪ reactions d;
              timestamp := timestamp d; posted := true |} ∧
    posted_messages (bot (handle_callback E cfg query s).2) =
      {[id]} ∪ posted_messages (bot s).
Proof.
  intros Hanswer Hp1 Hid1 Hd Hnew Hcount Hposted Hfresh Hage.
  assert (Hans : (await E cfg QueryAnswer (answer E) s).1 = Ok tt).
  { destruct (await_spec QueryAnswer (answer E) s) as [_ Hfirst].
    rewrite Hanswer in Hfirst. by destruct Hfirst. }
  assert (Hlemma := callback_after_answer query s id l d Hans Hp1 Hid1 Hd Hnew).
  cbv zeta in Hlemma.
  rewrite (proj2 (Z.ltb_ge _ _)) in Hlemma by lia.
  rewrite Hposted, bool_decide_false in Hlemma by done.
  cbn [negb andb] in Hlemma.
  rewrite (proj2 (Z.leb_le _ _)) in Hlemma by done.
  destruct Hlemma as (evs & err & Htrace & Hcalls & Hr & Ho & Hpm).
  exists evs, err. rewrite Ho, !lookup_alter_eq, Hd. done.
Qed.

(** ** The calls of a dispatch *)

Lemma wp_post_farcaster_concerns l mf st
    (Q : outcome (list str) → Sys W → Prop) s :
  (∀ r evs w, Forall (concerns (objects (bot s) !!! l) mf) evs →
     Q (Ok r) {| bot := bot s; world := w; trace := trace s ++ evs |}) →
  wp (post_farcaster E cfg l mf st) Q s.
Proof.
  intros HQ. unfold post_farcaster. wp_step. wp_step.
  destruct (farcaster_enabled (PLATFORMS_CONFIG cfg) && client (bot s)).
  - wp_step. wp_step. wp_step. wp_step. wp_step.
    + wp_step. apply (HQ _ [Called _ None]). by repeat constructor.
    + wp_step. apply (HQ _ [Called _ (Some msg)]). by repeat constructor.
  - wp_step. specialize (HQ st [] (world s)).
    rewrite app_nil_r in HQ. destruct s. by apply HQ.
Qed.

Lemma wp_post_twitter_concerns l mf st
    (Q : outcome (list str) → Sys W → Prop) s :
  (∀ r evs w, Forall (concerns (objects (bot s) !!! l) mf) evs →
     Q (Ok r) {| bot := bot s; world := w; trace := trace s ++ evs |}) →
  wp (post_twitter E cfg l mf st) Q s.
Proof.
  intros HQ. unfold post_twitter. wp_step. wp_step.
  destruct (twitter_enabled (PLATFORMS_CONFIG cfg) && twitter (bot s)).
  - wp_step. wp_step. destruct mf as [f|].
    + wp_step. wp_step.
      * wp_step. wp_step. wp_step. wp_step. wp_step.
        -- wp_step. rewrite <- app_assoc.
           apply (HQ _ [Called _ None; Called _ None]).
           by repeat constructor.
        -- wp_step. rewrite <- app_assoc.
           apply (HQ _ [Called _ None; Called _ (Some msg)]).
           by repeat constructor.
      * wp_step. apply (HQ _ [Called _ (Some msg)]). by repeat constructor.
    + wp_step. wp_step. wp_step. wp_step. wp_step.
      * wp_step. apply (HQ _ [Called _ None]). by repeat constructor.
      * wp_step. apply (HQ _ [Called _ (Some msg)]). by repeat constructor.
  - wp_step. specialize (HQ st [] (world s)).
    rewrite app_nil_r in HQ. destruct s. by apply HQ.
Qed.

Lemma wp_post_bluesky_concerns l mf st
    (Q : outcome (list str) → Sys W → Prop) s :
  (∀ r evs w, Forall (concerns (objects (bot s) !!! l) mf) evs →
     Q (Ok r) {| bot := bot s; world := w; trace := trace s ++ evs |}) →
  wp (post_bluesky E cfg l mf st) Q s.
Proof.
  intros HQ. unfold post_bluesky. wp_step. wp_step.
  destruct (bluesky_enabled (PLATFORMS_CONFIG cfg) && bluesky (bot s)).
  - wp_step. wp_step. wp_step. wp_step. destruct mf as [f|].
    + wp_step.
      * wp_step. apply (HQ _ [Called _ None]). by repeat constructor.
      * wp_step. apply (HQ _ [Called _ (Some msg)]). by repeat constructor.
    + wp_step.
      * wp_step. apply (HQ _ [Called _ None]). by repeat constructor.
      * wp_step. apply (HQ _ [Called _ (Some msg)]). by repeat constructor.
  - wp_step. specialize (HQ st [] (world s)).
    rewrite app_nil_r in HQ. destruct s. by apply HQ.
Qed.

Lemma wp_fan_out_concerns l mf (Q : outcome unit → Sys W → Prop) s :
  let d := objects (bot s) !!! l in
  (∀ evs b' w, Forall (concerns d mf) evs → swept cfg (bot s) b' →
     Q (Ok tt) {| bot := b'; world := w; trace := trace s ++ evs |}) →
  wp (fan_out E cfg l (chat_id d) mf) Q s.
Proof.
  intros d HQ. unfold fan_out.
  wp_step. apply wp_post_farcaster_concerns. intros r1 evF w1 HF. wp_simpl.
  wp_step. apply wp_post_twitter_concerns. intros r2 evT w2 HT. wp_simpl.
  wp_step. apply wp_post_bluesky_concerns. intros r3 evB w3 HB. wp_simpl.
  apply wp_notify_group. intros err b' w Hswept. wp_simpl.
  rewrite <- !app_assoc. apply HQ; [|done].
  rewrite !Forall_app. repeat split; try done. by repeat constructor.
Qed.

(** X15.  Every call that [cross_post] makes for a message is about
    this message: the notifications go to its chat, [get_file] is asked
    for its media reference, and every call to a platform client
    carries its stored text, together with the file that the reference
    resolved to, or without a file when the message has no media. *)
Theorem cross_post_concerns_its_message l s :
  let d := objects (bot s) !!! l in
  ∃ media_file evs,
    trace (cross_post E cfg l s).2 = trace s ++ evs ∧
    Forall (concerns d media_file) evs ∧
    resolved E d (world s) media_file.
Proof.
  intros d.
  change (wp (cross_post E cfg l)
            (λ _ s', ∃ media_file evs,
               trace s' = trace s ++ evs ∧
               Forall (concerns d media_file) evs ∧
               resolved E d (world s) media_file) s).
  unfold cross_post. do 8 wp_step. unfold resolve_media. do 2 wp_step.
  fold d. unfold resolved.
  destruct (media d) as [m|] eqn:Hmedia.
  - wp_step. wp_step.
    + rename H into Hfile, H0 into H01.
      wp_step. wp_step. apply wp_notify_group. intros err0 b2 w2 H12. wp_simpl.
      assert (Hd2 : objects b2 !!! l = d).
      { by rewrite (swept_objects _ _ H12), (swept_objects _ _ H01). }
      pose proof (wp_fan_out_concerns l (Some a)) as Hfan.
      cbv zeta in Hfan. wp_simpl.
      match goal with
      | |- wp _ ?Q ?s2 => specialize (Hfan Q s2)
      end.
      wp_simpl. rewrite Hd2 in Hfan. apply Hfan.
      intros evs b3 w3 Hevs H23. wp_simpl.
      exists (Some a), ([CrossPost (message_id d);
                         Called (GetFile (file_id m)) None;
                         Called (SendMessage (chat_id d) initiating) err0]
                        ++ evs).
      split; [by rewrite <- !app_assoc |].
      rewrite Hfile. split; [|done].
      apply Forall_app. split; [|done].
      repeat constructor. by exists m.
    + rename H into Hfile, H0 into H01.
      apply wp_notify_group. intros err b2 w2 H12. wp_simpl.
      exists None, [CrossPost (message_id d);
                    Called (GetFile (file_id m)) (Some msg);
                    Called (SendMessage (chat_id d)
                              (general_error (Fault msg))) err].
      split; [by rewrite <- !app_assoc |].
      rewrite Hfile. split; [|done].
      repeat constructor. by exists m.
  - wp_step. wp_step. apply wp_notify_group. intros err0 b2 w2 H12. wp_simpl.
    assert (Hd2 : objects b2 !!! l = d) by (by rewrite (swept_objects _ _ H12)).
    pose proof (wp_fan_out_concerns l None) as Hfan.
    cbv zeta in Hfan.
    match goal with
    | |- wp _ ?Q ?s2 => specialize (Hfan Q s2)
    end.
    wp_simpl. rewrite Hd2 in Hfan. apply Hfan.
    intros evs b3 w3 Hevs H23. wp_simpl.
    exists None, ([CrossPost (message_id d);
                   Called (SendMessage (chat_id d) initiating) err0] ++ evs).
    split; [by rewrite <- !app_assoc |].
    split; [|done].
    apply Forall_app. split; [|done].
    by repeat constructor.
Qed.

(** X16.  The Twitter block uploads the media before it creates the
    tweet.  When the upload raises, no tweet is created, not even one
    without the media: the line of Twitter is the error of the upload.
    When the upload returns, the tweet is created with the stored text
    and the id of the uploaded media, and the line of Twitter is decided
    by that call. *)
Theorem tweet_follows_its_upload l f st s :
  enabled cfg (bot s) Twitter = true →
  match media_upload E f (world s) with
  | (Fails msg, w1) =>
      post_twitter E cfg l (Some f) st s =
        (Ok (st ++ [error_line "Twitter" (take 100 msg)]),
         {| bot := bot s; world := w1;
            trace := trace s ++ [Called (MediaUpload f) (Some msg)] |})
  | (Returns media_id, w1) =>
      ∃ err,
        trace (post_twitter E cfg l (Some f) st s).2 =
          trace s ++
          [Called (MediaUpload f) None;
           Called (CreateTweet (text (objects (bot s) !!! l))
                     (Some [media_id])) err] ∧
        (post_twitter E cfg l (Some f) st s).1 =
          Ok (st ++ [report_line Twitter err])
  end.
Proof.
  intros Hen. unfold enabled in Hen.
  unfold post_twitter, bind, gets, try_except, invoke, field, ret. simpl.
  rewrite Hen.
  destruct (media_upload E f (world s)) as [[media_id|msg] w1]; simpl; [|done].
  destruct (create_tweet E (text (objects (bot s) !!! l)) (Some [media_id]) w1)
    as [[[]|msg] w2]; simpl.
  - exists None. by rewrite <- app_assoc.
  - exists (Some msg). by rewrite <- app_assoc.
Qed.

Lemma permitted_other b c err :
  platform_of c = None → permitted cfg b (Called c err).
Proof. intros Hc p Hp. simpl in Hp. congruence. Qed.

Lemma permitted_cross b id : permitted cfg b (CrossPost id).
Proof. by intros p []. Qed.

Lemma block_permitted b b' p evs :
  (∀ q, enabled cfg b q = enabled cfg b' q) →
  block cfg b p evs → Forall (permitted cfg b') evs.
Proof.
  intros Hen. unfold block. destruct (enabled cfg b p) eqn:Hp; [|by intros ->].
  intros [Hcalls _]. eapply Forall_impl; [exact Hcalls |].
  intros e He q Hq. rewrite <- Hen.
  destruct e as [c err|]; [|done]. simpl in *. congruence.
Qed.

Lemma wp_cross_post_permitted l b0 (Q : outcome unit → Sys W → Prop) s :
  (∀ q, enabled cfg (bot s) q = enabled cfg b0 q) →
  (∀ evs b' w, Forall (permitted cfg b0) evs → swept cfg (bot s) b' →
     Q (Ok tt) {| bot := b'; world := w; trace := trace s ++ evs |}) →
  wp (cross_post E cfg l) Q s.
Proof.
  intros Hen HQ. apply wp_cross_post.
  - intros pre evF evT evB err0 err b' w Hpre HF HT HB Hswept.
    apply HQ; [|done].
    apply Forall_app. split; [repeat constructor; apply permitted_cross |].
    apply Forall_app. split.
    { destruct (media (objects (bot s) !!! l)) as [m|];
        [destruct Hpre as [_ ->] | subst pre]; repeat constructor.
      by apply permitted_other. }
    apply Forall_app. split; [repeat constructor; by apply permitted_other |].
    apply Forall_app. split; [|repeat constructor; by apply permitted_other].
    rewrite !Forall_app. repeat split; by eapply block_permitted.
  - intros m msg w1 err b' w Hmedia Hfile Hswept.
    apply (HQ [_; _; _]); [|done].
    repeat constructor; [apply permitted_cross | by apply permitted_other..].
Qed.

Lemma handle_callback_permitted query s :
  ∃ evs, trace (handle_callback E cfg query s).2 = trace s ++ evs ∧
         Forall (permitted cfg (bot s)) evs.
Proof.
  set (p := tg.query_message_id query). set (u := tg.from_user_id query).
  change (wp (handle_callback E cfg query)
            (λ _ s', ∃ evs, trace s' = trace s ++ evs ∧
                            Forall (permitted cfg (bot s)) evs) s).
  assert (Hone : ∀ c err, platform_of c = None →
            Forall (permitted cfg (bot s)) [Called c err]).
  { intros c err Hc. repeat constructor. by apply permitted_other. }
  unfold handle_callback. fold p u.
  wp_step. apply wp_await; [intros [] w1 b1 w _ H01 | intros msg w1 b1 w _ H01];
    wp_simpl; [|eexists; split; [reflexivity | by apply Hone]].
  wp_step. wp_step.
  destruct (reaction_messages b1 !! p) as [id|];
    [|wp_step; eexists; split; [reflexivity | by apply Hone]].
  do 3 wp_step.
  apply wp_getitem; [intros l Hid | intros Hid]; wp_simpl;
    [|eexists; split; [reflexivity | by apply Hone]].
  wp_step. wp_step.
  destruct (bool_decide (u ∈ reactions (objects b1 !!! l)));
    [wp_step; eexists; split; [reflexivity | by apply Hone] |].
  wp_step. wp_step. fold (approved u l b1). wp_step. wp_step.
  match goal with
  | |- wp (bind _ ?k) ?Q _ =>
      assert (Hrest : ∀ b3 evs w',
        swept cfg (approved u l b1) b3 →
        Forall (permitted cfg (bot s)) evs →
        wp (k tt) Q {| bot := b3; world := w';
                       trace := (trace s ++ [Called QueryAnswer None]) ++ evs |})
  end.
  { intros b3 evs w' H23 Hevs. do 4 wp_step.
    match goal with
    | |- wp (if ?c then _ else _) _ _ => destruct c
    end.
    2: { wp_step. eexists. split; [by rewrite <- app_assoc |].
         apply Forall_app. split; [by apply Hone | done]. }
    do 4 wp_step.
    match goal with
    | |- wp (if ?c then _ else _) _ _ => destruct c
    end.
    2: { wp_step. eexists. split; [by rewrite <- app_assoc |].
         apply Forall_app. split; [by apply Hone | done]. }
    wp_step. apply (wp_cross_post_permitted l (bot s)).
    { intros q. rewrite (swept_enabled _ _ _ H23). simpl.
      apply (swept_enabled _ _ _ H01). }
    intros evs' b4 w4 Hevs' H34. wp_simpl. do 4 wp_step.
    apply wp_await; [intros [] w5 b6 w6 _ H56 | intros msg w5 b6 w6 _ H56];
      wp_simpl.
    - eexists. split; [by rewrite <- !app_assoc |].
      rewrite !Forall_app. repeat split; try done; by apply Hone.
    - eexists. split; [by rewrite <- !app_assoc |].
      rewrite !Forall_app. repeat split; try done; by apply Hone. }
  wp_step.
  match goal with
  | |- wp (if ?c then _ else _) _ _ => destruct c
  end.
  - apply wp_await; [intros [] w3 b3 w4 _ H23 | intros msg w3 b3 w4 _ H23];
      wp_simpl.
    + apply Hrest; [done | by apply Hone].
    + eexists. split; [by rewrite <- !app_assoc |].
      apply Forall_app. split; by apply Hone.
  - wp_step.
    assert (HQ := Hrest (approved u l b1) [] w (swept_refl _ _)
                    (Forall_nil_2 _)).
    by rewrite app_nil_r in HQ.
Qed.

Lemma extends_enabled b b' p :
  extends b b' → enabled cfg b' p = enabled cfg b p.
Proof.
  intros (_ & _ & Htw & Hbs & Hcl). unfold enabled. by rewrite Htw, Hbs, Hcl.
Qed.

Lemma step_permitted o s :
  ∃ evs, trace (step E cfg o s).2 = trace s ++ evs ∧
         Forall (permitted cfg (bot s)) evs.
Proof.
  destruct o as [upd|query|]; simpl.
  - unfold try_except.
    assert (Hpath := handle_message_path upd s).
    destruct (handle_message E cfg upd s) as [r s']. simpl in *.
    assert (∃ evs, trace s' = trace s ++ evs ∧
                   Forall (permitted cfg (bot s)) evs) as Hgoal.
    { destruct Hpath as [Htag | message txt msg b1 w2 w1 Htag _ H01
                        | message txt b1 sent w2 w0 w1 Htag _ H01]; simpl.
      - exists []. by rewrite app_nil_r.
      - eexists. split; [reflexivity |]. repeat constructor.
        by apply permitted_other.
      - eexists. split; [reflexivity |]. repeat constructor.
        by apply permitted_other. }
    by destruct r as [[]|e].
  - unfold try_except.
    assert (Hgoal := handle_callback_permitted query s).
    by destruct (handle_callback E cfg query s) as [[[]|e] s'].
  - change (wp (cleanup_expired E cfg)
              (λ _ s', ∃ evs, trace s' = trace s ++ evs ∧
                              Forall (permitted cfg (bot s)) evs) s).
    apply wp_cleanup_expired. intros ct w. exists []. simpl.
    by rewrite app_nil_r.
Qed.

Lemma run_permitted ops s :
  ∃ evs, trace (run E cfg ops s) = trace s ++ evs ∧
         Forall (permitted cfg (bot s)) evs.
Proof.
  revert s. induction ops as [|o ops IH]; intros s; simpl.
  - exists []. by rewrite app_nil_r.
  - destruct (IH (step E cfg o s).2) as (evs2 & -> & Hevs2).
    destruct (step_permitted o s) as (evs1 & -> & Hevs1).
    exists (evs1 ++ evs2). split; [by rewrite app_assoc |].
    apply Forall_app. split; [done |].
    eapply Forall_impl; [exact Hevs2 |].
    intros e He q Hq. rewrite <- (extends_enabled _ _ q (step_extends o s)).
    by apply He.
Qed.

Lemma attempts_not_permitted b p evs :
  enabled cfg b p = false → Forall (permitted cfg b) evs → attempts p evs = [].
Proof.
  intros Hp. unfold attempts. induction 1 as [|e evs He _ IH]; [done |].
  rewrite filter_cons_False; [done |].
  intros Hcalls. specialize (He p Hcalls). congruence.
Qed.

(** X17.  In no run of the bot is the client of a platform called when
    the platform is switched off in [PLATFORMS_CONFIG] or its client is
    [None]: whatever updates arrive and whatever the outside answers,
    the trace holds no call to that platform. *)
Theorem disabled_platform_is_never_called ops tw bs fc (w : W) p :
  enabled cfg (init tw bs fc) p = false →
  attempts p (trace (run E cfg ops (boot tw bs fc w))) = [].
Proof.
  intros Hp. destruct (run_permitted ops (boot tw bs fc w)) as (evs & -> & Hevs).
  simpl. by eapply attempts_not_permitted.
Qed.

(** ** The threshold *)

Lemma endorsed_extends b (w : W) t b' (w' : W) t' :
  endorsed cfg {| bot := b; world := w; trace := t |} →
  extends b b' →
  (∀ id, dispatches id t' ≠ 0%nat → dispatches id t ≠ 0%nat) →
  endorsed cfg {| bot := b'; world := w'; trace := t' |}.
Proof.
  intros Hend (Ho & _) Hold id Hid. simpl in *.
  destruct (Hend id (Hold id Hid)) as (l & d & Hd & Hmid & Hposted & Hcount).
  destruct (Ho l d Hd) as (d' & Hd' & Hm & _ & _ & _ & _ & Hr & Hp).
  exists l, d'. split; [done |]. split; [congruence |]. split; [auto |].
  apply subseteq_size in Hr. lia.
Qed.

Lemma callback_path_endorsed p u s r s' :
  good s → endorsed cfg s →
  callback_path E cfg p u (bot s) (trace s) r s' →
  endorsed cfg s'.
Proof.
  destruct s as [b w t], s' as [b' w' t']. simpl.
  intros (Hrefs & Hkeys & Honce) Hend Hpath.
  assert (Hext := callback_path_extends _ _ _ _ _ _ Hpath).
  apply callback_outcome in Hpath. simpl in *.
  destruct Hpath as
    [(evs & -> & Hcalls & _)
    | (id & l & w0 & evs & evs' & Hp & Hid & Hseen & Hgate & _ & -> & Hcalls
       & Hcalls' & Hswept)].
  - eapply endorsed_extends; [exact Hend | done |].
    intros id. by rewrite dispatches_app, (dispatches_calls _ _ Hcalls),
      Nat.add_0_r.
  - destruct (Hkeys id l Hid) as (d & Hd & Hmid).
    rewrite (lookup_total_correct _ _ _ Hd), Hmid.
    intros id' Hid'. simpl in *.
    destruct (decide (id' = id)) as [->|Hne].
    + exists l, (set_posted true (add_reaction u d)).
      rewrite (swept_objects _ _ Hswept). simpl.
      rewrite !lookup_alter_eq, Hd. split; [done |]. split; [done |].
      split; [done |].
      unfold gate_open, reaction_count, approved in Hgate. simpl in Hgate.
      rewrite (lookup_total_correct _ _ (add_reaction u d)) in Hgate
        by (by rewrite lookup_alter_eq, Hd).
      apply andb_prop in Hgate as [Hgate _].
      apply andb_prop in Hgate as [Hgate _].
      by apply Z.leb_le in Hgate.
    + apply (endorsed_extends b w t b' w' t Hend Hext (λ _ H, H) id').
      simpl. revert Hid'.
      rewrite dispatches_app, dispatches_app, dispatches_cons_cross,
        (dispatches_calls _ _ Hcalls), (dispatches_calls _ _ Hcalls').
      rewrite decide_False by congruence. lia.
Qed.

Lemma step_endorsed o s :
  good s → endorsed cfg s → endorsed cfg (step E cfg o s).2.
Proof.
  intros Hgood Hend. destruct o as [upd|query|]; simpl.
  - unfold try_except. assert (Hpath := handle_message_path upd s).
    assert (Hext := message_path_extends _ _ _ _ Hpath).
    destruct (handle_message E cfg upd s) as [r s']. simpl in *.
    assert (endorsed cfg s') as Hs'.
    { destruct s as [b w t], s' as [b' w' t']. simpl in *.
      eapply endorsed_extends; [exact Hend | done |].
      intros id.
      inversion Hpath; subst;
        try rewrite dispatches_app, dispatches_cons_call; simpl;
        rewrite ?Nat.add_0_r; done. }
    by destruct r as [[]|e].
  - unfold try_except. assert (Hpath := handle_callback_path query s).
    apply (callback_path_endorsed _ _ _ _ _ Hgood Hend) in Hpath.
    by destruct (handle_callback E cfg query s) as [[[]|e] s'].
  - change (wp (cleanup_expired E cfg) (λ _ s', endorsed cfg s') s).
    apply wp_cleanup_expired. intros ct w. destruct s as [b w0 t].
    eapply endorsed_extends; [exact Hend | | done].
    apply swept_extends. eapply swept_step. constructor.
Qed.

Lemma run_endorsed ops s :
  good s → endorsed cfg s → endorsed cfg (run E cfg ops s).
Proof.
  revert s. induction ops as [|o ops IH]; intros s Hgood Hend; [done |].
  simpl. apply IH; [by apply step_good | by apply step_endorsed].
Qed.

Lemma step_reactions o s (U : gset Z) :
  (∀ l d, objects (bot s) !! l = Some d → reactions d ⊆ U) →
  ∀ l d, objects (bot (step E cfg o s).2) !! l = Some d →
         reactions d ⊆ U ∪ approvers [o].
Proof.
  intros HU. destruct o as [upd|query|]; simpl.
  - unfold try_except. assert (Hpath := handle_message_path upd s).
    destruct (handle_message E cfg upd s) as [r s']. simpl in *.
    assert (∀ l d, objects (bot s') !! l = Some d → reactions d ⊆ U) as Hs'.
    { destruct Hpath as [Htag | message txt msg b1 w2 w1 Htag _ H01
                        | message txt b1 sent w2 w0 w1 Htag _ H01]; simpl.
      - done.
      - by rewrite (swept_objects _ _ H01).
      - intros l d. unfold registered. simpl.
        destruct (decide (l = fresh (dom (objects b1)))) as [->|Hne].
        + rewrite lookup_insert_eq. intros [= <-]. simpl.
          apply empty_subseteq.
        + rewrite lookup_insert_ne by done.
          rewrite (swept_objects _ _ H01). apply HU. }
    intros l d Hd. apply union_subseteq_l'.
    destruct r as [[]|e]; by eapply Hs'.
  - unfold try_except. assert (Hpath := handle_callback_path query s).
    apply callback_outcome in Hpath.
    destruct (handle_callback E cfg query s) as [r s']. simpl in *.
    assert (∀ l d, objects (bot s') !! l = Some d →
                   reactions d ⊆ U ∪ {[tg.from_user_id query]}) as Hs'.
    { intros l d.
      destruct Hpath as
        [(evs & _ & _ & [Hswept | (id & l1 & _ & _ & _ & Hswept)])
        | (id & l1 & w0 & evs & evs' & _ & _ & _ & _ & _ & _ & _ & _
           & Hswept)];
        rewrite (swept_objects _ _ Hswept); simpl.
      - intros Hd. apply union_subseteq_l'. by eapply HU.
      - destruct (decide (l = l1)) as [->|Hne].
        + rewrite lookup_alter_eq.
          destruct (objects (bot s) !! l1) as [d0|] eqn:Hd0; [|done].
          intros [= <-]. simpl. specialize (HU _ _ Hd0).
          apply union_least; [apply union_subseteq_r | by apply union_subseteq_l'].
        + rewrite lookup_alter_ne by done.
          intros Hd. apply union_subseteq_l'. by eapply HU.
      - destruct (decide (l = l1)) as [->|Hne].
        + rewrite !lookup_alter_eq.
          destruct (objects (bot s) !! l1) as [d0|] eqn:Hd0; [|done].
          intros [= <-]. simpl. specialize (HU _ _ Hd0).
          apply union_least; [apply union_subseteq_r | by apply union_subseteq_l'].
        + rewrite !lookup_alter_ne by done.
          intros Hd. apply union_subseteq_l'. by eapply HU. }
    intros l d Hd. unfold approvers. simpl.
    rewrite (right_id_L ∅ (∪)).
    destruct r as [[]|e]; by eapply Hs'.
  - change (wp (cleanup_expired E cfg)
              (λ _ s', ∀ l d, objects (bot s') !! l = Some d →
                              reactions d ⊆ U ∪ approvers [Sweep]) s).
    apply wp_cleanup_expired. intros ct w l d. simpl.
    destruct (cleanup_at_spec ct (bot s)) as (-> & _).
    intros Hd. apply union_subseteq_l'. by eapply HU.
Qed.

Lemma approvers_cons o ops : approvers (o :: ops) = approvers [o] ∪ approvers ops.
Proof.
  unfold approvers. destruct o as [upd|query|]; simpl.
  - by rewrite (left_id_L ∅ (∪)).
  - by rewrite (right_id_L ∅ (∪)).
  - by rewrite (left_id_L ∅ (∪)).
Qed.

Lemma run_reactions ops s (U : gset Z) :
  (∀ l d, objects (bot s) !! l = Some d → reactions d ⊆ U) →
  ∀ l d, objects (bot (run E cfg ops s)) !! l = Some d →
         reactions d ⊆ U ∪ approvers ops.
Proof.
  revert s U. induction ops as [|o ops IH]; intros s U HU l d; simpl.
  - intros Hd. apply union_subseteq_l'. by eapply HU.
  - intros Hd. rewrite approvers_cons, (assoc_L (∪)).
    eapply IH; [|exact Hd]. by apply step_reactions.
Qed.

(** X25.  In every run of the bot a message for which [cross_post] has
    been entered has at least [REQUIRED_REACTIONS] reactions, each of
    them the id of a user whose press of the button is among the
    updates handled, and it is flagged as posted: nothing is dispatched
    below the threshold. *)
Theorem never_posted_below_threshold ops tw bs fc (w : W) id :
  dispatches id (trace (run E cfg ops (boot tw bs fc w))) ≠ 0%nat →
  ∃ l d,
    objects (bot (run E cfg ops (boot tw bs fc w))) !! l = Some d ∧
    message_id d = id ∧ posted d = true ∧
    REQUIRED_REACTIONS cfg ≤ Z.of_nat (size (reactions d)) ∧
    reactions d ⊆ approvers ops.
Proof.
  intros Hid.
  assert (Hend : endorsed cfg (run E cfg ops (boot tw bs fc w))).
  { apply run_endorsed; [apply boot_good |]. by intros id' []. }
  destruct (Hend id Hid) as (l & d & Hd & Hmid & Hposted & Hcount).
  exists l, d. repeat split; try done.
  rewrite <- (left_id_L ∅ (∪) (approvers ops)).
  eapply run_reactions; [|exact Hd].
  intros l' d' Hd'. cbn in Hd'. by rewrite lookup_empty in Hd'.
Qed.


(** X27.  A callback enters [cross_post] for a message only through
    the gate: when the number of dispatches of an id grows during
    [handle_callback], the prompt of the query pointed to this id, the
    user had not reacted before, the reactions with this one reach
    [REQUIRED_REACTIONS], the message was marked as posted in neither
    way, and the clock, read at line 330 in the world in which
    [query.answer()] returned, showed a time within the window of the
    message. *)
Theorem dispatch_only_through_the_gate query s id :
  keys_agree (bot s) →
  dispatches id (trace (handle_callback E cfg query s).2) ≠
    dispatches id (trace s) →
  ∃ l d,
    reaction_messages (bot s) !! tg.query_message_id query = Some id ∧
    tracked_messages (bot s) !! id = Some l ∧
    objects (bot s) !! l = Some d ∧
    (tg.from_user_id query ∉ reactions d) ∧
    REQUIRED_REACTIONS cfg ≤ Z.of_nat (size (reactions d)) + 1 ∧
    posted d = false ∧
    (id ∉ posted_messages (bot s)) ∧
    (await E cfg QueryAnswer (answer E) s).1 = Ok tt ∧
    (now E (world (await E cfg QueryAnswer (answer E) s).2)).1 - timestamp d ≤
      timedelta_hours (EXPIRATION_HOURS cfg).
Proof.
  intros Hkeys.
  assert (Hpath := handle_callback_outcome query s). cbv zeta in Hpath.
  destruct (handle_callback E cfg query s) as [r s']. simpl in *.
  destruct Hpath as
    [(evs & -> & Hcalls & _)
    | (id1 & l & evs & evs' & Hp & Hid & Hseen & Hgate & Hage & -> & Hcalls
       & Hcalls' & _ & Hans)].
  { rewrite dispatches_app, (dispatches_calls _ _ Hcalls), Nat.add_0_r.
    by intros []. }
  destruct (Hkeys id1 l Hid) as (d & Hd & Hmid).
  rewrite (lookup_total_correct _ _ _ Hd) in *. rewrite Hmid.
  rewrite dispatches_app, dispatches_app, dispatches_cons_cross,
    (dispatches_calls _ _ Hcalls), (dispatches_calls _ _ Hcalls').
  destruct (decide (id1 = id)) as [->|Hne]; [|lia].
  intros _. exists l, d.
  unfold gate_open, reaction_count, approved in Hgate. simpl in Hgate.
  rewrite (lookup_total_correct _ _ (add_reaction (tg.from_user_id query) d))
    in Hgate by (by rewrite lookup_alter_eq, Hd).
  simpl in Hgate.
  apply andb_prop in Hgate as [Hgate Hpm].
  apply andb_prop in Hgate as [Hcount Hflag].
  apply Z.leb_le in Hcount. apply negb_true_iff in Hflag, Hpm.
  apply bool_decide_eq_false in Hpm.
  rewrite size_union, size_singleton in Hcount
    by (by apply disjoint_singleton_l).
  repeat split; try done. lia.
Qed.

End Proofs.

(** * Start-up *)

Section StartUpProofs.
Context {W : Type} (U : Setup W) (cfg : Config).

(** Unfolds the constructor and follows every answer of the outside. *)
Ltac start_up :=
  unfold __init__, _initialize_platforms, comp.bind, comp.catch, comp.ret,
    setup;
  destruct (twitter_enabled (PLATFORMS_CONFIG cfg)) eqn:Htw,
    (bluesky_enabled (PLATFORMS_CONFIG cfg)) eqn:Hbs,
    (farcaster_enabled (PLATFORMS_CONFIG cfg)) eqn:Hfc;
  cbn [outside setup_log fst snd];
  repeat (case_match; cbn [outside setup_log fst snd] in *; simplify_eq).

(** Decides membership in a list of calls that is written out. *)
Ltac in_calls H :=
  repeat (apply elem_of_app in H as [H|H]);
  repeat (apply elem_of_cons in H as [H|H]; [simplify_eq |]);
  try apply elem_of_nil in H; try done.

(** X18.  When the constructor of the bot returns, the bot has a
    Twitter client exactly when Twitter is switched on in
    [PLATFORMS_CONFIG], and a Bluesky client exactly when Bluesky is; it
    has a Farcaster client only if Farcaster is switched on; the
    registries are empty; and no set-up call was made for a platform
    that is switched off. *)
Theorem start_up_follows_the_flags (s0 : Starting W) b s1 :
  __init__ U cfg s0 = (comp.Value b, s1) →
  twitter b = twitter_enabled (PLATFORMS_CONFIG cfg) ∧
  bluesky b = bluesky_enabled (PLATFORMS_CONFIG cfg) ∧
  (client b = true → farcaster_enabled (PLATFORMS_CONFIG cfg) = true) ∧
  objects b = ∅ ∧ tracked_messages b = ∅ ∧
  posted_messages b = ∅ ∧ reaction_messages b = ∅ ∧
  ∃ made,
    setup_log s1 = setup_log s0 ++ made ∧
    ∀ c err, (c, err) ∈ made → switched_on cfg (setup_platform c) = true.
Proof.
  revert s1. start_up; intros s1 Hinit; simplify_eq; cbn;
    repeat (split; [done |]);
    (eexists; split; [rewrite <- ?app_assoc; try reflexivity;
                      symmetry; apply app_nil_r |]);
    intros c err Hin; in_calls Hin.
Qed.

(** X19.  Of the set-up calls only those of Farcaster may raise without
    stopping the bot from starting.  When the constructor returns
    although a call raised, that call was one of Farcaster's, the bot
    has no Farcaster client, and no run of this bot ever calls
    Farcaster.  When the constructor raises, it raises the exception of
    the last call it made, and that call was one of Twitter's or
    Bluesky's. *)
Theorem only_farcaster_may_fail_at_start_up (s0 : Starting W) :
  ∃ made,
    setup_log (__init__ U cfg s0).2 = setup_log s0 ++ made ∧
    match (__init__ U cfg s0).1 with
    | comp.Value b =>
        ∀ c msg, (c, Some msg) ∈ made →
          setup_platform c = Farcaster ∧ client b = false ∧
          ∀ (W' : Type) (E : Env W') ops (w : W'),
            attempts Farcaster
              (trace (run E cfg ops {| bot := b; world := w; trace := [] |}))
            = []
    | comp.Thrown msg =>
        ∃ c before,
          made = before ++ [(c, Some msg)] ∧ setup_platform c ≠ Farcaster
    end.
Proof.
  assert (Hnever : ∀ tw bs (W' : Type) (E : Env W') ops (w : W'),
    attempts Farcaster
      (trace (run E cfg ops {| bot := init tw bs false; world := w;
                               trace := [] |})) = []).
  { intros tw bs W' E ops w.
    destruct (run_permitted E cfg ops
                {| bot := init tw bs false; world := w; trace := [] |})
      as (evs & -> & Hevs).
    simpl. eapply attempts_not_permitted; [|exact Hevs].
    simpl. apply andb_false_r. }
  start_up; cbn;
    (eexists; split; [rewrite <- ?app_assoc; try reflexivity;
                      symmetry; apply app_nil_r |]);
    try (intros c msg' Hin; in_calls Hin;
         (split; [done |]; split; [done |]; apply Hnever));
    try (by eexists _, []);
    try (by eexists _, [_]);
    try (by eexists _, [_; _]);
    try (by eexists _, [_; _; _]).
Qed.
End StartUpProofs.

(** * The Twitter classes *)

Section TwitterProofs.
Context {W : Type} (net : twitter.Net W).

Ltac tw_unfold :=
  unfold twitter.create_tweet, twitter.upload_media, twitter.get_headers,
    twitter._refresh_token, twitter.try_log, twitter.request_, twitter.now,
    twitter.update, twitter.json_, twitter.getitem, twitter.raise_for_status,
    twitter.raising, twitter.datetime_add,
    comp.bind, comp.catch, comp.ret, comp.throw, comp.gets, comp.modify.

Ltac tw_cases :=
  repeat (case_match; simplify_eq;
          cbn [twitter.self twitter.world twitter.sent twitter.auth
               twitter.base_url twitter.set_access_token
               twitter.set_token_expiry fst snd] in *).

Lemma get_headers_base_url (s : twitter.State W) :
  twitter.base_url (twitter.self (twitter.get_headers net s).2) =
  twitter.base_url (twitter.self s).
Proof. tw_unfold. tw_cases; done. Qed.

Lemma call_method_base_url m (s : twitter.State W) :
  twitter.base_url (twitter.self s) = None →
  twitter.base_url (twitter.self (twitter.call_method net m s)) = None.
Proof.
  intros Hs. destruct m; cbn [twitter.call_method].
  - by rewrite get_headers_base_url.
  - unfold twitter.create_tweet, comp.bind.
    pose proof (get_headers_base_url s) as Hh.
    destruct (twitter.get_headers net s) as [[h|e] s1]; simpl in *;
      [|congruence].
    tw_unfold. tw_cases; congruence.
  - unfold twitter.upload_media, comp.bind.
    pose proof (get_headers_base_url s) as Hh.
    destruct (twitter.get_headers net s) as [[h|e] s1]; simpl in *;
      [|congruence].
    tw_unfold. tw_cases; congruence.
  - unfold twitter.search_tweets, twitter._make_request, comp.bind, comp.gets.
    by rewrite Hs.
  - unfold twitter.get_user_tweets, twitter._make_request, comp.bind,
      comp.gets.
    by rewrite Hs.
  - unfold twitter.get_tweet_metrics, twitter._make_request, comp.bind,
      comp.gets.
    by rewrite Hs.
Qed.

Lemma use_base_url ms (s : twitter.State W) :
  twitter.base_url (twitter.self s) = None →
  twitter.base_url (twitter.self (twitter.use net ms s)) = None.
Proof.
  revert s. induction ms as [|m ms IH]; intros s Hs; [done |].
  simpl. by apply IH, call_method_base_url.
Qed.

(** X20.  Whatever has been done with a [TwitterAPI] object since it was
    constructed, [search_tweets], [get_user_tweets] and
    [get_tweet_metrics] raise [AttributeError] for [base_url], which
    [_make_request] reads and nothing in the class sets.  They raise
    before they ask for headers: no request is sent, no token is
    fetched, and the object is left as it was. *)
Theorem requests_always_lack_a_base_url ms id secret (w : W) :
  let s := twitter.use net ms (twitter.fresh_api id secret w) in
  (∀ query max_results tweet_fields expansions,
     twitter.search_tweets net query max_results tweet_fields expansions s =
       (comp.Thrown (twitter.AttributeError "base_url"), s)) ∧
  (∀ user_id max_results tweet_fields,
     twitter.get_user_tweets net user_id max_results tweet_fields s =
       (comp.Thrown (twitter.AttributeError "base_url"), s)) ∧
  (∀ tweet_id,
     twitter.get_tweet_metrics net tweet_id s =
       (comp.Thrown (twitter.AttributeError "base_url"), s)).
Proof.
  intros s.
  assert (Hs : twitter.base_url (twitter.self s) = None)
    by (by apply use_base_url).
  repeat split; intros;
    unfold twitter.search_tweets, twitter.get_user_tweets,
      twitter.get_tweet_metrics, twitter._make_request, comp.bind, comp.gets;
    by rewrite Hs.
Qed.

(** X21.  While the object holds a token that is not empty and the
    clock reads a time before its expiry, [get_headers] sends nothing
    and changes nothing in the object: it reads the clock once and
    returns the headers with this token. *)
Theorem token_is_reused_until_it_expires (s : twitter.State W) expiry :
  twitter.truthy (twitter.access_token (twitter.auth (twitter.self s))) = true →
  twitter.token_expiry (twitter.auth (twitter.self s)) = Some expiry →
  (twitter.clock net (twitter.world s)).1 < expiry →
  twitter.get_headers net s =
    (comp.Value
       [("Authorization"%string,
         lit "Bearer " ++
         twitter.format (twitter.access_token (twitter.auth (twitter.self s))));
        ("Content-Type"%string, lit "application/json")],
     {| twitter.self := twitter.self s;
        twitter.world := (twitter.clock net (twitter.world s)).2;
        twitter.sent := twitter.sent s |}).
Proof.
  intros Htoken Hexpiry Hnow. tw_unfold. rewrite Htoken, Hexpiry. simpl.
  destruct (twitter.clock net (twitter.world s)) as [ct w]. simpl in *.
  by rewrite (proj2 (Z.leb_gt _ _)) by lia.
Qed.

(** X22.  When [get_headers] finds the token stale and the token
    request is answered with status 200 and a JSON object that has an
    [access_token], and when [expires_in] (7200 when the answer has
    none) makes a [timedelta] whose sum with the time read after the
    answer is a [datetime], the object takes this token, with the expiry
    set to that sum; exactly one request is sent, and the headers
    returned carry the new token. *)
Theorem stale_token_is_refreshed (s : twitter.State W) w1 response w2 data
    token lifetime :
  twitter.stale net s w1 →
  twitter.send net
    (twitter.PostToken (twitter.client_id (twitter.auth (twitter.self s)))
       (twitter.client_secret (twitter.auth (twitter.self s)))) w1 =
    (Returns response, w2) →
  twitter.status_code response = 200 →
  twitter.json response = Returns data →
  data !! "access_token"%string = Some token →
  twitter.timedelta_seconds
    (default (twitter.VInt 7200) (data !! "expires_in"%string)) =
    inr lifetime →
  0 ≤ (twitter.clock net w2).1 + lifetime ≤ twitter.datetime_max →
  twitter.get_headers net s =
    (comp.Value (twitter.bearer token),
     {| twitter.self :=
          twitter.set_token_expiry
            (Some ((twitter.clock net w2).1 + lifetime))
            (twitter.set_access_token token (twitter.self s));
        twitter.world := (twitter.clock net w2).2;
        twitter.sent :=
          twitter.sent s ++
          [twitter.PostToken
             (twitter.client_id (twitter.auth (twitter.self s)))
             (twitter.client_secret (twitter.auth (twitter.self s)))] |}).
Proof.
  intros Hstale Hsend Hstatus Hjson Htoken Hlife Hsum.
  assert (Hrefresh :
    twitter._refresh_token net
      {| twitter.self := twitter.self s; twitter.world := w1;
         twitter.sent := twitter.sent s |} =
    (comp.Value tt,
     {| twitter.self :=
          twitter.set_token_expiry
            (Some ((twitter.clock net w2).1 + lifetime))
            (twitter.set_access_token token (twitter.self s));
        twitter.world := (twitter.clock net w2).2;
        twitter.sent :=
          twitter.sent s ++
          [twitter.PostToken
             (twitter.client_id (twitter.auth (twitter.self s)))
             (twitter.client_secret (twitter.auth (twitter.self s)))] |})).
  { tw_unfold. cbn [twitter.self twitter.world twitter.sent].
    rewrite Hsend, Hstatus, Hjson. cbn. rewrite Htoken. cbn.
    destruct (twitter.clock net w2) as [ct w3]. cbn in *. rewrite Hlife.
    cbn. rewrite (proj2 (Z.leb_le _ _)) by lia.
    by rewrite (proj2 (Z.leb_le _ _)) by lia. }
  unfold twitter.get_headers, comp.bind at 1 2, comp.gets at 1.
  destruct Hstale as [[Hfalsy ->] | (Htruthy & expiry & Hexpiry & Hle & ->)].
  - rewrite Hfalsy. cbn [negb]. unfold comp.ret at 1. destruct s as [a w0 l].
    cbn [twitter.self twitter.world twitter.sent] in *.
    unfold comp.bind at 1. by rewrite Hrefresh.
  - rewrite Htruthy, Hexpiry. cbn [negb].
    unfold comp.bind at 1, twitter.now at 1.
    destruct (twitter.clock net (twitter.world s)) as [ct w0].
    cbn [fst snd] in *. unfold comp.ret at 1.
    rewrite (proj2 (Z.leb_le _ _)) by done.
    unfold comp.bind at 1. by rewrite Hrefresh.
Qed.



(** X24.  [create_tweet] returns only what a response with status 201
    carries: a response with any other status, 200 included, does not
    make it return.  The request of the tweet is the last one sent, and
    its headers carry the token that the object holds when the method
    returns. *)
Theorem create_tweet_needs_201 txt (s : twitter.State W) data :
  (twitter.create_tweet net txt s).1 = comp.Value data →
  ∃ before response w w',
    twitter.sent (twitter.create_tweet net txt s).2 =
      before ++
      [twitter.PostTweet
         (twitter.bearer
            (twitter.access_token
               (twitter.auth
                  (twitter.self (twitter.create_tweet net txt s).2)))) txt] ∧
    twitter.send net
      (twitter.PostTweet
         (twitter.bearer
            (twitter.access_token
               (twitter.auth
                  (twitter.self (twitter.create_tweet net txt s).2)))) txt) w =
      (Returns response, w') ∧
    twitter.status_code response = 201 ∧
    twitter.json response = Returns data.
Proof.
  tw_unfold. destruct s as [a w l].
  cbn [twitter.self twitter.world twitter.sent].
  tw_cases; cbn; intros Hvalue; simplify_eq;
    repeat match goal with
    | H : negb (_ =? _) = false |- _ =>
        apply negb_false_iff, Z.eqb_eq in H
    end;
    eexists _, _, _, _; (split; [reflexivity |]); split; eauto.
Qed.
End TwitterProofs.

(** * The claims on example runs *)

(** ** The dispatcher *)

(** Three platforms, the tweet raises "timeout": the report has three
    lines in the configured order, and Bluesky is still called. *)
Example report_with_timeout :
  trace (cross_post tweet_fault (all_platforms 1) 1%positive
           (one_photo tweet_fault (all_platforms 1))).2 =
  trace (one_photo tweet_fault (all_platforms 1)) ++
  [CrossPost 1;
   Called (GetFile (lit "large")) None;
   Called (SendMessage 7 initiating) None;
   Called (PostCast (lit "gm") (Some 9)) None;
   Called (MediaUpload 9) None;
   Called (CreateTweet (lit "gm") (Some [5])) (Some (lit "timeout"));
   Called (BlueskyPostWithMedia (lit "gm") 9) None;
   Called (SendMessage 7
             (final_report [success_line "Farcaster";
                            error_line "Twitter" (lit "timeout");
                            success_line "Bluesky"])) None].
Proof. vm_compute. reflexivity. Qed.



(** C6 fails on the code: with three platforms enabled, a post with a
    photo and a [get_file] that raises, [cross_post] calls no platform
    client at all. *)
Lemma media_fault_skips_publishers :
  enabled_platforms (all_platforms 1)
    (bot (one_photo file_fault (all_platforms 1))) =
    [Farcaster; Twitter; Bluesky] ∧
  media (objects (bot (one_photo file_fault (all_platforms 1))) !!! 1%positive)
    = Some {| type := photo; file_id := lit "large" |} ∧
  get_file file_fault (lit "large")
    (world (one_photo file_fault (all_platforms 1))) =
    (Fails (lit "file is too big"), 1%nat) ∧
  trace (cross_post file_fault (all_platforms 1) 1%positive
           (one_photo file_fault (all_platforms 1))).2 =
    trace (one_photo file_fault (all_platforms 1)) ++
    [CrossPost 1;
     Called (GetFile (lit "large")) (Some (lit "file is too big"));
     Called (SendMessage 7 (general_error (Fault (lit "file is too big"))))
            None] ∧
  attempts Farcaster
    (trace (cross_post file_fault (all_platforms 1) 1%positive
              (one_photo file_fault (all_platforms 1))).2) = [].
Proof. repeat split; vm_compute; reflexivity. Qed.

Lemma cross_post_media_fault_aborts_witness :
  (cross_post file_fault (all_platforms 1) 1%positive
     (one_photo file_fault (all_platforms 1))).1 = Ok tt.
Proof.
  apply (cross_post_media_fault_aborts file_fault (all_platforms 1) 1%positive
           (one_photo file_fault (all_platforms 1))
           {| type := photo; file_id := lit "large" |}
           (lit "file is too big") 1%nat);
    vm_compute; reflexivity.
Defined.

Lemma cross_post_never_raises_witness :
  ∃ err,
    trace (cross_post file_fault (all_platforms 1) 1%positive
             (one_photo file_fault (all_platforms 1))).2 =
    trace (one_photo file_fault (all_platforms 1)) ++
    [CrossPost 1;
     Called (GetFile (lit "large")) (Some (lit "file is too big"));
     Called (SendMessage 7
               ([0x274C%N] ++ lit " General crosspost error: " ++
                take 100 (lit "file is too big"))) err].
Proof.
  destruct (cross_post_never_raises file_fault (all_platforms 1) 1%positive
              (one_photo file_fault (all_platforms 1))) as (_ & _ & Hfault).
  apply (Hfault {| type := photo; file_id := lit "large" |}
           (lit "file is too big") 1%nat); vm_compute; reflexivity.
Defined.

(** ** Approvals *)

(** The scenario of one required reaction: the first approval posts, the
    approval of a second user does not post again. *)
Example second_approval_does_not_repost :
  dispatches 1
    (trace (run calm (all_platforms 1)
              [Message (tagged_text 1 7); Callback (like 1001 42)]
              (boot true true true 0%nat))) = 1%nat ∧
  dispatches 1
    (trace (run calm (all_platforms 1)
              [Message (tagged_text 1 7); Callback (like 1001 42);
               Callback (like 1001 43)]
              (boot true true true 0%nat))) = 1%nat.
Proof. split; vm_compute; reflexivity. Qed.

Lemma cross_post_at_most_once_witness :
  dispatches 1
    (trace (run busy (all_platforms 1)
              ([Message (tagged_text 1 7); Callback (like 1001 42)] ++
               [Callback (like 1001 43); Sweep; Callback (like 1001 44)])
              (boot true true true 0%nat))) = 1%nat.
Proof.
  apply (cross_post_at_most_once busy (all_platforms 1)
           [Message (tagged_text 1 7); Callback (like 1001 42)]
           true true true 0%nat 1).
  vm_compute. reflexivity.
Defined.

Lemma prompts_point_to_tracked_witness :
  is_Some (tracked_messages (bot (one_like busy (all_platforms 2))) !! 1).
Proof.
  apply (proj1 (prompts_point_to_tracked busy (all_platforms 2)
                  [Message (tagged_text 1 7); Callback (like 1001 42)]
                  true true true 0%nat) 1001 1).
  vm_compute. reflexivity.
Defined.







(** ** The registries *)

(** C4 fails on the code: message 1 is created at 0:00 and posted at
    1:30; the sweep at 2:05 removes it, and its prompt, although it has
    been posted. *)
Lemma sweeper_removes_posted_message :
  posted (objects (bot (one_like steady (all_platforms 1))) !!! 1%positive)
    = true ∧
  dispatches 1 (trace (one_like steady (all_platforms 1))) = 1%nat ∧
  tracked_messages (bot (one_like steady (all_platforms 1))) !! 1
    = Some 1%positive ∧
  reaction_messages (bot (one_like steady (all_platforms 1))) !! 1001
    = Some 1 ∧
  (now steady (world (one_like steady (all_platforms 1)))).1 = minutes 125 ∧
  tracked_messages
    (bot (cleanup_expired steady (all_platforms 1)
            (one_like steady (all_platforms 1))).2) !! 1 = None ∧
  reaction_messages
    (bot (cleanup_expired steady (all_platforms 1)
            (one_like steady (all_platforms 1))).2) !! 1001 = None.
Proof. repeat split; vm_compute; reflexivity. Qed.

Lemma sweep_removes_by_age_witness :
  tracked_messages
    (bot (cleanup_expired steady (all_platforms 1)
            (one_like steady (all_platforms 1))).2) !! 1 = None.
Proof.
  destruct (sweep_removes_by_age steady (all_platforms 1)
              (one_like steady (all_platforms 1))) as (Htracked & _).
  rewrite (Htracked 1 1%positive); vm_compute; reflexivity.
Defined.

(** C9 fails on the code: message 1 of chat 7 is tracked with the
    reaction of user 42; a tagged message with the same id, from chat 8,
    is tracked without any failure, and the entry of id 1 is now a new
    object, of chat 8 and without reactions. *)
Lemma same_id_is_tracked_again :
  tracked_messages (bot (one_like calm (all_platforms 2))) !! 1
    = Some 1%positive ∧
  chat_id (objects (bot (one_like calm (all_platforms 2))) !!! 1%positive)
    = 7 ∧
  reactions (objects (bot (one_like calm (all_platforms 2))) !!! 1%positive)
    = {[42]} ∧
  (handle_message calm (all_platforms 2) (tagged_text 1 8)
     (one_like calm (all_platforms 2))).1 = Ok tt ∧
  tracked_messages
    (bot (handle_message calm (all_platforms 2) (tagged_text 1 8)
            (one_like calm (all_platforms 2))).2) !! 1 = Some 2%positive ∧
  chat_id
    (objects (bot (handle_message calm (all_platforms 2) (tagged_text 1 8)
                     (one_like calm (all_platforms 2))).2) !!! 2%positive)
    = 8 ∧
  reactions
    (objects (bot (handle_message calm (all_platforms 2) (tagged_text 1 8)
                     (one_like calm (all_platforms 2))).2) !!! 2%positive)
    = ∅.
Proof. repeat split; vm_compute; reflexivity. Qed.

(** Two reactions are required; message 1 of chat 7 is created at 0:00
    and approved once; the next reading of the clock is that of the
    second message 1, of chat 8, which is tracked as created at 1:30. *)
Lemma handle_message_overwrites_witness :
  (handle_message steady (all_platforms 2) (tagged_text 1 8)
     (one_like steady (all_platforms 2))).1 = Ok tt ∧
  ∃ l,
    tracked_messages
      (bot (handle_message steady (all_platforms 2) (tagged_text 1 8)
              (one_like steady (all_platforms 2))).2) !! 1 = Some l ∧
    objects
      (bot (handle_message steady (all_platforms 2) (tagged_text 1 8)
              (one_like steady (all_platforms 2))).2) !! l =
      Some {| message_id := 1; chat_id := 8; text := lit "gm";
              media := None; reactions := ∅; timestamp := minutes 90;
              posted := false |}.
Proof.
  destruct (handle_message_overwrites steady (all_platforms 2)
              (tagged_text 1 8) (one_like steady (all_platforms 2))
              {| tg.message_id := 1; tg.chat_id := 8;
                 tg.text := Some (lit "gm #topost");
                 tg.photo := []; tg.video := None; tg.animation := None |}
              (lit "gm #topost") 1001 1%nat)
    as (Hok & l & _ & Hobjects & Htracked & _).
  - vm_compute. reflexivity.
  - vm_compute. reflexivity.
  - split; [exact Hok |]. exists l. split; [exact Htracked |].
    rewrite Hobjects, lookup_insert_eq. vm_compute. reflexivity.
Defined.

(** ** Two scenarios *)

(** Two reactions required.  User 42 approves, approves again, and the
    sweeper runs at 3:00 before user 43 approves: the prompt is no longer
    known, nothing is posted, and the registries are empty. *)
Example swept_before_second_approval :
  dispatches 1
    (trace (run slow (all_platforms 2)
              [Message (tagged_text 1 7); Callback (like 1001 42);
               Callback (like 1001 42); Sweep; Callback (like 1001 43)]
              (boot true true true 0%nat))) = 0%nat ∧
  tracked_messages
    (bot (run slow (all_platforms 2)
            [Message (tagged_text 1 7); Callback (like 1001 42);
             Callback (like 1001 42); Sweep; Callback (like 1001 43)]
            (boot true true true 0%nat))) = ∅ ∧
  reaction_messages
    (bot (run slow (all_platforms 2)
            [Message (tagged_text 1 7); Callback (like 1001 42);
             Callback (like 1001 42); Sweep; Callback (like 1001 43)]
            (boot true true true 0%nat))) = ∅.
Proof. repeat split; vm_compute; reflexivity. Qed.

(** With the values of the source no platform is enabled: the approval
    posts to none, and the report has no line. *)
Example source_config_posts_nowhere :
  trace (run calm source_config
           [Message (tagged_text 1 7); Callback (like 1001 42)]
           (boot false false false 0%nat)) =
  [Called (ReplyText 1 prompt_text) None;
   Called QueryAnswer None;
   CrossPost 1;
   Called (SendMessage 7 initiating) None;
   Called (SendMessage 7 (final_report [])) None;
   Called (EditText 1001 crossposted_text) None].
Proof. vm_compute. reflexivity. Qed.

(** The sweeper removes message 1 while its handler is suspended inside
    [cross_post].  The handler still holds the object: it marks it as
    posted and adds the id to [posted_messages]; the message is not
    tracked again. *)
Example swept_while_posting :
  dispatches 1 (trace (one_like racing (all_platforms 1))) = 1%nat ∧
  tracked_messages (bot (one_like racing (all_platforms 1))) = ∅ ∧
  reaction_messages (bot (one_like racing (all_platforms 1))) = ∅ ∧
  posted_messages (bot (one_like racing (all_platforms 1))) = {[1]} ∧
  posted (objects (bot (one_like racing (all_platforms 1))) !!! 1%positive)
    = true.
Proof. repeat split; vm_compute; reflexivity. Qed.

(** * The further properties on example runs *)

(** ** The sweeper and the registries *)

(** The sweeps at 1:30 and then at 2:05 leave what the sweep at 2:05
    leaves. *)
Lemma sweep_absorbs_earlier_sweep_witness :
  cleanup_at (all_platforms 1) (minutes 125)
    (cleanup_at (all_platforms 1) (minutes 90)
       (bot (one_like steady (all_platforms 1)))) =
  cleanup_at (all_platforms 1) (minutes 125)
    (bot (one_like steady (all_platforms 1))).
Proof.
  apply (sweep_absorbs_earlier_sweep (all_platforms 1)).
  unfold minutes. lia.
Defined.

Lemma tracked_data_only_grows_witness :
  ∃ d',
    objects (bot (run slow (all_platforms 2)
                    [Callback (like 1001 42); Sweep; Callback (like 1001 43)]
                    (one_text slow (all_platforms 2)))) !! 1%positive
      = Some d' ∧
    text d' = lit "gm".
Proof.
  destruct (tracked_data_only_grows slow (all_platforms 2)
              [Callback (like 1001 42); Sweep; Callback (like 1001 43)]
              (one_text slow (all_platforms 2)) 1%positive
              (objects (bot (one_text slow (all_platforms 2))) !!! 1%positive))
    as (d' & Hd' & _ & _ & Htext & _).
  - vm_compute. reflexivity.
  - exists d'. split; [exact Hd' |]. rewrite Htext. vm_compute. reflexivity.
Defined.

Lemma posted_flag_is_recorded_witness :
  message_id (objects (bot (one_like racing (all_platforms 1))) !!! 1%positive)
    ∈ posted_messages (bot (one_like racing (all_platforms 1))).
Proof.
  apply (posted_flag_is_recorded racing (all_platforms 1)
           [Message (tagged_text 1 7); Callback (like 1001 42)]
           true true true 0%nat 1%positive
           (objects (bot (one_like racing (all_platforms 1))) !!! 1%positive));
    vm_compute; reflexivity.
Defined.

(** ** Messages *)

Lemma untagged_message_is_ignored_witness :
  handle_message calm (all_platforms 1) (plain_text 1 7)
    (boot true true true 0%nat) =
  (Ok tt, boot true true true 0%nat).
Proof.
  apply (untagged_message_is_ignored calm (all_platforms 1)).
  intros message txt pre post Hm Ht Heq.
  assert (Hc : contains topost txt = true) by (apply contains_spec; eauto).
  cbv [plain_text tg.message] in Hm. injection Hm as <-.
  cbv [tg.text] in Ht. injection Ht as <-.
  vm_compute in Hc. discriminate.
Defined.

Lemma tag_anywhere_asks_for_approval_witness :
  ∃ err,
    trace (handle_message calm (all_platforms 1) (tagged_text 1 7)
             (boot true true true 0%nat)).2 =
      [] ++ [Called (ReplyText 1 prompt_text) err].
Proof.
  destruct (tag_anywhere_asks_for_approval calm (all_platforms 1)
              (tagged_text 1 7) (boot true true true 0%nat)
              {| tg.message_id := 1; tg.chat_id := 7;
                 tg.text := Some (lit "gm #topost");
                 tg.photo := []; tg.video := None; tg.animation := None |}
              (lit "gm ") []) as (err & Htrace & _).
  - reflexivity.
  - reflexivity.
  - exists err. exact Htrace.
Defined.

Lemma stored_text_is_trimmed_witness :
  ∃ l d,
    tracked_messages
      (bot (handle_message calm (all_platforms 1) (tagged_text 1 7)
              (boot true true true 0%nat)).2) !! 1 = Some l ∧
    objects
      (bot (handle_message calm (all_platforms 1) (tagged_text 1 7)
              (boot true true true 0%nat)).2) !! l = Some d ∧
    (length (text d) + length topost ≤ length (lit "gm #topost"))%nat.
Proof.
  destruct (stored_text_is_trimmed calm (all_platforms 1) (tagged_text 1 7)
              (boot true true true 0%nat)
              {| tg.message_id := 1; tg.chat_id := 7;
                 tg.text := Some (lit "gm #topost");
                 tg.photo := []; tg.video := None; tg.animation := None |}
              (lit "gm #topost") 1001 0%nat)
    as (l & d & Hl & Hd & _ & _ & Hlen).
  - vm_compute. reflexivity.
  - vm_compute. reflexivity.
  - by exists l, d.
Defined.

Lemma tag_alone_is_tracked_with_empty_text_witness :
  ∃ l d,
    tracked_messages
      (bot (handle_message calm (all_platforms 1) (tag_only 1 7)
              (boot true true true 0%nat)).2) !! 1 = Some l ∧
    objects
      (bot (handle_message calm (all_platforms 1) (tag_only 1 7)
              (boot true true true 0%nat)).2) !! l = Some d ∧
    text d = [].
Proof.
  apply (tag_alone_is_tracked_with_empty_text calm (all_platforms 1)
           (tag_only 1 7) (boot true true true 0%nat)
           {| tg.message_id := 1; tg.chat_id := 7;
              tg.text := Some (lit " #topost");
              tg.photo := []; tg.video := None; tg.animation := None |}
           [32%N] [] 1001 0%nat).
  - reflexivity.
  - reflexivity.
  - by repeat constructor.
  - constructor.
  - vm_compute. reflexivity.
Defined.

(** ** Callbacks *)

Lemma unknown_prompt_is_only_answered_witness :
  ∃ err,
    trace (handle_callback calm (all_platforms 1) (like 5 42)
             (one_text calm (all_platforms 1))).2 =
      trace (one_text calm (all_platforms 1)) ++ [Called QueryAnswer err].
Proof.
  destruct (unknown_prompt_is_only_answered calm (all_platforms 1) (like 5 42)
              (one_text calm (all_platforms 1))) as (err & Htrace & _).
  - vm_compute. reflexivity.
  - by exists err.
Defined.

(** The button is pressed and the answer raises: user 42 is not among
    the reactions of message 1. *)
Lemma failed_answer_loses_approval_witness :
  (handle_callback deaf (all_platforms 1) (like 1001 42)
     (one_text calm (all_platforms 1))).1 =
    Raise (Fault (lit "query is too old")).
Proof.
  apply (failed_answer_loses_approval deaf (all_platforms 1) (like 1001 42)
           (one_text calm (all_platforms 1)) (lit "query is too old") 1%nat).
  vm_compute. reflexivity.
Defined.


(** One reaction is required; message 1 is created at 0:00 and user 42
    approves at 1:30, within the window: the message is dispatched and
    marked as posted. *)
Lemma approval_at_threshold_publishes_witness :
  posted_messages
    (bot (handle_callback steady (all_platforms 1) (like 1001 42)
            (one_text steady (all_platforms 1))).2) =
  {[1]} ∪ posted_messages (bot (one_text steady (all_platforms 1))).
Proof.
  destruct (approval_at_threshold_publishes steady (all_platforms 1)
              (like 1001 42) (one_text steady (all_platforms 1))
              1 1%positive
              (objects (bot (one_text steady (all_platforms 1)))
                 !!! 1%positive)
              1%nat)
    as (evs & err & _ & _ & _ & _ & Hpm).
  - vm_compute. reflexivity.
  - vm_compute. reflexivity.
  - vm_compute. reflexivity.
  - vm_compute. reflexivity.
  - apply (bool_decide_eq_false_1 _). vm_compute. reflexivity.
  - vm_compute. discriminate.
  - vm_compute. reflexivity.
  - apply (bool_decide_eq_false_1 _). vm_compute. reflexivity.
  - vm_compute. discriminate.
  - exact Hpm.
Defined.

(** ** The dispatch *)

(** A post with a photo when the upload to Twitter raises: no tweet is
    created, and the other platforms are given the text and the file. *)
Example upload_failure_skips_the_tweet :
  trace (cross_post upload_fault (all_platforms 1) 1%positive
           (one_photo upload_fault (all_platforms 1))).2 =
  trace (one_photo upload_fault (all_platforms 1)) ++
  [CrossPost 1;
   Called (GetFile (lit "large")) None;
   Called (SendMessage 7 initiating) None;
   Called (PostCast (lit "gm") (Some 9)) None;
   Called (MediaUpload 9) (Some (lit "media type unrecognized"));
   Called (BlueskyPostWithMedia (lit "gm") 9) None;
   Called (SendMessage 7
             (final_report
                [success_line "Farcaster";
                 error_line "Twitter" (lit "media type unrecognized");
                 success_line "Bluesky"])) None].
Proof. vm_compute. reflexivity. Qed.

Lemma tweet_follows_its_upload_witness :
  post_twitter upload_fault (all_platforms 1) 1%positive (Some 9) []
    (one_photo upload_fault (all_platforms 1)) =
  (Ok ([] ++ [error_line "Twitter" (take 100 (lit "media type unrecognized"))]),
   {| bot := bot (one_photo upload_fault (all_platforms 1));
      world := 1%nat;
      trace := trace (one_photo upload_fault (all_platforms 1)) ++
               [Called (MediaUpload 9)
                  (Some (lit "media type unrecognized"))] |}).
Proof.
  apply (tweet_follows_its_upload upload_fault (all_platforms 1) 1%positive 9
           [] (one_photo upload_fault (all_platforms 1))).
  vm_compute. reflexivity.
Defined.

(** All platforms are switched on, but the bot has no Farcaster client:
    Farcaster is never called. *)
Lemma disabled_platform_is_never_called_witness :
  attempts Farcaster
    (trace (run calm (all_platforms 1)
              [Message (tagged_photo 1 7); Callback (like 1001 42)]
              (boot true true false 0%nat))) = [].
Proof.
  apply (disabled_platform_is_never_called calm (all_platforms 1)
           [Message (tagged_photo 1 7); Callback (like 1001 42)]
           true true false 0%nat Farcaster).
  vm_compute. reflexivity.
Defined.

(** ** Start-up *)

(** Farcaster's mnemonic is refused: the bot starts without a Farcaster
    client.  The login to Bluesky is refused: the bot does not start. *)
Example start_up_with_refusals :
  __init__ (starting true false) (all_platforms 1) nothing_started =
    (comp.Value (init true true false),
     {| outside := 0%nat;
        setup_log := [(NewTwitterClient, None); (NewAtprotoClient, None);
                      (BlueskyLogin, None);
                      (NewWarpcast, Some (lit "invalid mnemonic"))] |}) ∧
  __init__ (starting false true) (all_platforms 1) nothing_started =
    (comp.Thrown (lit "invalid password"),
     {| outside := 0%nat;
        setup_log := [(NewTwitterClient, None); (NewAtprotoClient, None);
                      (BlueskyLogin, Some (lit "invalid password"))] |}) ∧
  __init__ (starting true true) source_config nothing_started =
    (comp.Value (init false false false), nothing_started).
Proof. repeat split; vm_compute; reflexivity. Qed.

Lemma start_up_follows_the_flags_witness :
  twitter (init true true false) =
    twitter_enabled (PLATFORMS_CONFIG (all_platforms 1)).
Proof.
  destruct (start_up_follows_the_flags (starting true false) (all_platforms 1)
              nothing_started (init true true false)
              {| outside := 0%nat;
                 setup_log := [(NewTwitterClient, None);
                               (NewAtprotoClient, None);
                               (BlueskyLogin, None);
                               (NewWarpcast, Some (lit "invalid mnemonic"))] |})
    as (Htw & _).
  - vm_compute. reflexivity.
  - exact Htw.
Defined.

(** ** The Twitter classes *)

(** The first [get_headers] fetches a token at 0:00:00 that lasts an
    hour; the second, one second later, sends nothing. *)
Example token_is_fetched_once :
  twitter.sent authorized = [twitter.PostToken (lit "id") (lit "secret")] ∧
  twitter.auth (twitter.self authorized) =
    {| twitter.client_id := lit "id"; twitter.client_secret := lit "secret";
       twitter.access_token := twitter.VStr (lit "abc");
       twitter.token_expiry := Some 3600000000 |} ∧
  twitter.sent (twitter.get_headers (token_server 200 granted) authorized).2 =
    [twitter.PostToken (lit "id") (lit "secret")].
Proof. repeat split; vm_compute; reflexivity. Qed.

Lemma token_is_reused_until_it_expires_witness :
  twitter.get_headers (token_server 200 granted) authorized =
    (comp.Value
       [("Authorization"%string,
         lit "Bearer " ++
         twitter.format
           (twitter.access_token (twitter.auth (twitter.self authorized))));
        ("Content-Type"%string, lit "application/json")],
     {| twitter.self := twitter.self authorized;
        twitter.world :=
          (twitter.clock (token_server 200 granted)
             (twitter.world authorized)).2;
        twitter.sent := twitter.sent authorized |}).
Proof.
  apply (token_is_reused_until_it_expires (token_server 200 granted)
           authorized 3600000000).
  - vm_compute. reflexivity.
  - vm_compute. reflexivity.
  - vm_compute. reflexivity.
Defined.

Lemma stale_token_is_refreshed_witness :
  (twitter.get_headers (token_server 200 granted) new_api).1 =
    comp.Value (twitter.bearer (twitter.VStr (lit "abc"))).
Proof.
  rewrite (stale_token_is_refreshed (token_server 200 granted) new_api 0%nat
             {| twitter.status_code := 200;
                twitter.text := lit "unauthorized";
                twitter.json := Returns granted |}
             0%nat granted (twitter.VStr (lit "abc")) 3600000000).
  - reflexivity.
  - left. split; reflexivity.
  - reflexivity.
  - reflexivity.
  - reflexivity.
  - vm_compute. reflexivity.
  - vm_compute. reflexivity.
  - split; vm_compute; discriminate.
Defined.


(** The token endpoint grants a token for 10^15 seconds: [get_headers]
    raises an [OverflowError], and the object is left with the new token
    and no expiry. *)
Example lifetime_out_of_range :
  (twitter.get_headers (token_server 200 granted_for_ever) new_api).1 =
    comp.Thrown twitter.OverflowError ∧
  twitter.auth
    (twitter.self
       (twitter.get_headers (token_server 200 granted_for_ever) new_api).2) =
    {| twitter.client_id := lit "id"; twitter.client_secret := lit "secret";
       twitter.access_token := twitter.VStr (lit "abc");
       twitter.token_expiry := None |}.
Proof. split; vm_compute; reflexivity. Qed.

Lemma create_tweet_needs_201_witness :
  ∃ before response w w',
    twitter.sent
      (twitter.create_tweet (token_server 200 granted) (lit "gm") new_api).2 =
      before ++
      [twitter.PostTweet
         (twitter.bearer
            (twitter.access_token
               (twitter.auth
                  (twitter.self
                     (twitter.create_tweet (token_server 200 granted)
                        (lit "gm") new_api).2)))) (lit "gm")] ∧
    twitter.send (token_server 200 granted)
      (twitter.PostTweet
         (twitter.bearer
            (twitter.access_token
               (twitter.auth
                  (twitter.self
                     (twitter.create_tweet (token_server 200 granted)
                        (lit "gm") new_api).2)))) (lit "gm")) w =
      (Returns response, w') ∧
    twitter.status_code response = 201 ∧
    twitter.json response =
      Returns {[ "id"%string := twitter.VStr (lit "1") ]}.
Proof.
  apply (create_tweet_needs_201 (token_server 200 granted) (lit "gm") new_api
           {[ "id"%string := twitter.VStr (lit "1") ]}).
  vm_compute. reflexivity.
Defined.

(** ** The threshold *)

(** Two reactions are required: message 1 is dispatched on the approval
    of user 43, after that of user 42, and not before. *)
Example dispatched_on_the_second_approval :
  dispatches 1
    (trace (run calm (all_platforms 2)
              [Message (tagged_text 1 7); Callback (like 1001 42);
               Callback (like 1001 42)]
              (boot true true true 0%nat))) = 0%nat ∧
  dispatches 1
    (trace (run calm (all_platforms 2)
              [Message (tagged_text 1 7); Callback (like 1001 42);
               Callback (like 1001 42); Callback (like 1001 43)]
              (boot true true true 0%nat))) = 1%nat.
Proof. split; vm_compute; reflexivity. Qed.

Lemma never_posted_below_threshold_witness :
  ∃ l d,
    objects
      (bot (run calm (all_platforms 2)
              [Message (tagged_text 1 7); Callback (like 1001 42);
               Callback (like 1001 43)]
              (boot true true true 0%nat))) !! l = Some d ∧
    message_id d = 1 ∧
    REQUIRED_REACTIONS (all_platforms 2) ≤ Z.of_nat (size (reactions d)).
Proof.
  assert (Hone : dispatches 1
            (trace (run calm (all_platforms 2)
                      [Message (tagged_text 1 7); Callback (like 1001 42);
                       Callback (like 1001 43)]
                      (boot true true true 0%nat))) ≠ 0%nat)
    by (vm_compute; discriminate).
  destruct (never_posted_below_threshold calm (all_platforms 2)
              [Message (tagged_text 1 7); Callback (like 1001 42);
               Callback (like 1001 43)]
              true true true 0%nat 1 Hone)
    as (l & d & Hd & Hmid & _ & Hcount & _).
  exists l, d. split; [exact Hd |]. split; [exact Hmid | exact Hcount].
Defined.

(** Message 1 is created at 0:00 and dispatched on the approval of
    1:30: the reading of line 330 is within the window. *)
Lemma dispatch_only_through_the_gate_witness :
  ∃ l d,
    tracked_messages (bot (one_text steady (all_platforms 1))) !! 1 = Some l ∧
    objects (bot (one_text steady (all_platforms 1))) !! l = Some d ∧
    (now steady
       (world (await steady (all_platforms 1) QueryAnswer (answer steady)
                 (one_text steady (all_platforms 1))).2)).1 - timestamp d ≤
      timedelta_hours (EXPIRATION_HOURS (all_platforms 1)).
Proof.
  assert (Hkeys : keys_agree (bot (one_text steady (all_platforms 1)))).
  { apply (run_good steady (all_platforms 1) [Message (tagged_text 1 7)]
             (boot true true true 0%nat) (boot_good true true true 0%nat)). }
  assert (Hnew : dispatches 1
            (trace (handle_callback steady (all_platforms 1) (like 1001 42)
                      (one_text steady (all_platforms 1))).2) ≠
          dispatches 1 (trace (one_text steady (all_platforms 1))))
    by (vm_compute; discriminate).
  destruct (dispatch_only_through_the_gate steady (all_platforms 1)
              (like 1001 42) (one_text steady (all_platforms 1)) 1 Hkeys Hnew)
    as (l & d & _ & Hl & Hd & _ & _ & _ & _ & _ & Hage).
  exists l, d. split; [exact Hl |]. split; [exact Hd | exact Hage].
Defined.
